(** * remotion-replicator: quota ledger and section segmenter

    A shallow embedding of the logic of the repository:

    - the usage-quota accounting of [src/api/analyze.ts] ([handler]) and of
      the client helpers of [src/types.ts] ([canAnalyze]) and
      [src/components/AuthButton.tsx];
    - the markdown segmentation of [src/components/AnalysisView.tsx], with
      the icon, the title and the lines of each card;
    - the page of [App.tsx], the sign-in form and the usage alert of
      [AuthButton.tsx], and [analyzeVideo] of [geminiService.ts].

    Time values are the millisecond counts of JavaScript [Date] objects,
    strings are lists of UTF-16 code units, and the [users] table is a finite
    map from user ids to rows. *)

From Stdlib Require Import ZArith NArith Lia Bool List Ascii String.
From stdpp Require Import base option list gmap strings pretty.

Local Open Scope Z_scope.

(** ** JavaScript dates

    The part of ECMA-262 (21.4.1) used by
    [new Date(now.getFullYear(), now.getMonth() + 1, 1)].  A time value is an
    integral number of milliseconds since the epoch; the time zone is a fixed
    offset [LocalTZA] (daylight saving changes are outside the model, as is
    the +-8.64e15 range limit of [TimeClip]). *)
Module JSDate.

Definition msPerDay : Z := 86400000.

Definition Day (t : Z) : Z := t / msPerDay.
Definition TimeWithinDay (t : Z) : Z := t mod msPerDay.

Definition DaysInYear (y : Z) : Z :=
  if negb (y mod 4 =? 0) then 365
  else if negb (y mod 100 =? 0) then 366
  else if negb (y mod 400 =? 0) then 365
  else 366.

Definition DayFromYear (y : Z) : Z :=
  365 * (y - 1970) + (y - 1969) / 4 - (y - 1901) / 100 + (y - 1601) / 400.

Definition TimeFromYear (y : Z) : Z := msPerDay * DayFromYear y.

(** ECMA-262 defines [YearFromTime t] as the largest [y] with
    [TimeFromYear y <= t].  It is computed here from the mean year length
    (146097 days in 400 years) and corrected by at most one year;
    [YearFromTime_spec] proves that this is the year of the definition. *)
Definition YearFromTime (t : Z) : Z :=
  let d := Day t in
  let y0 := 1970 + (400 * d) / 146097 in
  if DayFromYear (y0 + 1) <=? d then y0 + 1
  else if DayFromYear y0 <=? d then y0
  else y0 - 1.

Definition InLeapYear (t : Z) : Z :=
  if DaysInYear (YearFromTime t) =? 366 then 1 else 0.

Definition DayWithinYear (t : Z) : Z := Day t - DayFromYear (YearFromTime t).

(** [MonthFromTime]: the table of 21.4.1.11, months numbered from 0. *)
Definition MonthFromTime (t : Z) : Z :=
  let d := DayWithinYear t in
  let l := InLeapYear t in
  if d <? 31 then 0
  else if d <? 59 + l then 1
  else if d <? 90 + l then 2
  else if d <? 120 + l then 3
  else if d <? 151 + l then 4
  else if d <? 181 + l then 5
  else if d <? 212 + l then 6
  else if d <? 243 + l then 7
  else if d <? 273 + l then 8
  else if d <? 304 + l then 9
  else if d <? 334 + l then 10
  else 11.

(** Number of days of the year before the first day of month [m]. *)
Definition monthStart (m l : Z) : Z :=
  match m with
  | 0 => 0
  | 1 => 31
  | 2 => 59 + l
  | 3 => 90 + l
  | 4 => 120 + l
  | 5 => 151 + l
  | 6 => 181 + l
  | 7 => 212 + l
  | 8 => 243 + l
  | 9 => 273 + l
  | 10 => 304 + l
  | _ => 334 + l
  end.

(** [DateFromTime]: the day of the month, from 1. *)
Definition DateFromTime (t : Z) : Z :=
  DayWithinYear t - monthStart (MonthFromTime t) (InLeapYear t) + 1.

(** [MakeDay year month date]: the day number of the [date]-th day of month
    [month] of [year]; a month outside 0..11 carries into the year. *)
Definition MakeDay (year month date : Z) : Z :=
  let ym := year + month / 12 in
  let mn := month mod 12 in
  let l := if DaysInYear ym =? 366 then 1 else 0 in
  DayFromYear ym + monthStart mn l + date - 1.

Definition MakeTime (hour min sec ms : Z) : Z :=
  hour * 3600000 + min * 60000 + sec * 1000 + ms.

Definition MakeDate (day time : Z) : Z := day * msPerDay + time.

(** A two-digit year argument of the [Date] constructor means 19xx. *)
Definition MakeFullYear (y : Z) : Z :=
  if (0 <=? y) && (y <=? 99) then 1900 + y else y.

(** Local midnight of the first day of month [m] of year [y]. *)
Definition firstOfMonth (y m : Z) : Z :=
  MakeDate (MakeDay y m 1) (MakeTime 0 0 0 0).

Definition leapDays (y : Z) : Z := if DaysInYear y =? 366 then 1 else 0.

Section LocalTime.
(** Offset of local time from UTC, in milliseconds. *)
Variable LocalTZA : Z.

Definition LocalTime (t : Z) : Z := t + LocalTZA.
Definition UTC (t : Z) : Z := t - LocalTZA.

Definition getFullYear (t : Z) : Z := YearFromTime (LocalTime t).
Definition getMonth (t : Z) : Z := MonthFromTime (LocalTime t).
Definition getDate (t : Z) : Z := DateFromTime (LocalTime t).

(** [new Date(year, month, date)]: local midnight of that day. *)
Definition newDate (year month date : Z) : Z :=
  UTC (MakeDate (MakeDay (MakeFullYear year) month date) (MakeTime 0 0 0 0)).
End LocalTime.

End JSDate.


(** ** The quota ledger

    [src/api/analyze.ts] ([handler]), [src/types.ts] ([canAnalyze],
    [incrementUsage]) and [src/components/AuthButton.tsx]. *)
Module Quota.
Import JSDate.

(** [plan] column of the [users] table, a text.  The code uses it as a key
    of the plan tables, tests it for truthiness ([plan || 'free']) and
    compares it with ['free'], so its values are told apart as far as these
    uses do: the three keys of the tables; [unset], null or the empty text,
    which are falsy and no key; [unlisted], any other text that names no
    property of the tables.  (A text that names a property which every
    object inherits, such as ['constructor'], is none of these.) *)
Inductive Plan : Set := free | starter | pro | unset | unlisted.

#[global] Instance Plan_eq_dec : EqDecision Plan.
Proof. solve_decision. Defined.

(** A row of the [users] table. *)
Record Profile : Set := mkProfile {
  id : string;
  plan : Plan;
  usage_count : Z;
  period_reset_at : Z
}.

(** A row of the [analysis_history] table. *)
Record HistoryRow : Set := mkHistoryRow {
  user_id : string;
  video_url : option string;
  video_storage_path : option string;
  analysis_result : string
}.

(** The database behind the Supabase client. *)
Record Database : Type := mkDatabase {
  users : gmap string Profile;
  analysis_history : list HistoryRow
}.

(** What the limit computations work with: a number (always an integer
    here), [NaN], or the [undefined] of a key that a table does not have. *)
Inductive Numeric : Set := Undefined | NaN | Num (n : Z).

(** [const PLAN_LIMITS = { free: 3, starter: 30, pro: 150 }], and
    [PLAN_LIMITS[p]]. *)
Definition PLAN_LIMITS (p : Plan) : Numeric :=
  match p with
  | free => Num 3
  | starter => Num 30
  | pro => Num 150
  | unset | unlisted => Undefined
  end.

(** [a || b] on numbers: [0] is falsy. *)
Definition or_num (a b : Z) : Z := if a =? 0 then b else a.

(** [a || b] for a number [b]: [undefined] and [NaN] are falsy as well. *)
Definition or_number (a : Numeric) (b : Z) : Z :=
  match a with
  | Num n => or_num n b
  | Undefined | NaN => b
  end.

(** [a - b] for a number [b]: [undefined] is read as [NaN]. *)
Definition minus (a : Numeric) (b : Z) : Numeric :=
  match a with
  | Num n => Num (n - b)
  | Undefined | NaN => NaN
  end.

(** [a > 0]: a comparison with [NaN] is false. *)
Definition positive (a : Numeric) : bool :=
  match a with
  | Num n => 0 <? n
  | Undefined | NaN => false
  end.

(** [Math.max(0, a)] *)
Definition max0 (a : Numeric) : Numeric :=
  match a with
  | Num n => Num (Z.max 0 n)
  | Undefined | NaN => NaN
  end.

(** [plan || 'free'], where [plan] is undefined without a profile. *)
Definition plan_or_free (p : option Plan) : Plan :=
  match p with
  | None | Some unset => free
  | Some p => p
  end.

(** [PLAN_LIMITS[profile.plan] || 3] *)
Definition allowance (p : Plan) : Z := or_number (PLAN_LIMITS p) 3.

(** *** Responses of the HTTP handler *)

Inductive Json : Set :=
| NoBody
| ErrorBody (error : string)
| QuotaBody (error : string) (plan : Plan) (usage limit : Z)
| ResultBody (result : string) (current limit : Z) (plan : Plan).

Record Response : Set := mkResponse { status : Z; json : Json }.

(** *** Requests and collaborators *)

(** [req.body] after JSON parsing. *)
Record RequestBody : Set := mkBody {
  videoUrl : option string;
  storagePath : option string
}.

(** The request; [body] is undefined when nothing was posted. *)
Record Request : Set := mkRequest {
  method : string;
  authorization : option string;
  body : option RequestBody
}.

(** Result of awaiting a collaborator call: it resolves or rejects. *)
Inductive Settled (A : Type) : Type :=
| Resolved (a : A)
| Rejected (message : string).
Arguments Resolved {A} a.
Arguments Rejected {A} message.

(** A downloaded or fetched body with its MIME type (empty when unknown). *)
Record Blob : Set := mkBlob { data : string; type : string }.

(** The collaborators of one deployment: the clock's time zone, the identity
    provider, the object store, the network and the generative model. *)
Record World : Type := mkWorld {
  LocalTZA : Z;
  auth_getUser : string -> option string;
  storage_download : string -> Settled (option Blob);
  fetch : string -> Settled (bool * Blob);
  generateContent : string -> string -> Settled (option string)
}.

(** *** The handler monad: database state, early responses, exceptions *)

Inductive Outcome (A : Type) : Type :=
| Value (a : A)
| Respond (r : Response)
| Raise (message : string).
Arguments Value {A} a.
Arguments Respond {A} r.
Arguments Raise {A} message.

#[global] Instance Outcome_ret : MRet Outcome := fun A a => Value a.
#[global] Instance Outcome_bind : MBind Outcome := fun A B k m =>
  match m with
  | Value a => k a
  | Respond r => Respond r
  | Raise e => Raise e
  end.

(** [return res.status(s).json(b)] *)
Definition respond {A} (s : Z) (b : Json) : Outcome A :=
  Respond (mkResponse s b).

(** Awaiting a collaborator: a rejection is thrown. *)
Definition await {A} (r : Settled A) : Outcome A :=
  match r with
  | Resolved a => Value a
  | Rejected e => Raise e
  end.

Definition M (A : Type) : Type := Database -> Database * Outcome A.

#[global] Instance M_ret : MRet M := fun A a db => (db, Value a).
#[global] Instance M_bind : MBind M := fun A B k m db =>
  match m db with
  | (db', Value a) => k a db'
  | (db', Respond r) => (db', Respond r)
  | (db', Raise e) => (db', Raise e)
  end.

(** A step that does not touch the database. *)
Definition lift {A} (o : Outcome A) : M A := fun db => (db, o).

(** [supabase.from('users').select('*').eq('id', uid).single()] *)
Definition select_user (uid : string) : M (option Profile) :=
  fun db => (db, Value (users db !! uid)).

(** [supabase.from('users').update(...).eq('id', uid)] *)
Definition update_user (uid : string) (f : Profile -> Profile) : M unit :=
  fun db => (mkDatabase (alter f uid (users db)) (analysis_history db), Value tt).

(** [supabase.from('analysis_history').insert(row)] *)
Definition insert_history (row : HistoryRow) : M unit :=
  fun db => (mkDatabase (users db) (analysis_history db ++ [row]), Value tt).

Definition set_usage_count (n : Z) (p : Profile) : Profile :=
  mkProfile (id p) (plan p) n (period_reset_at p).

Definition set_reset (n : Z) (r : Z) (p : Profile) : Profile :=
  mkProfile (id p) (plan p) n r.

(** [s.split(' ')] *)
Fixpoint split_space (s : string) : list string :=
  match s with
  | EmptyString => [EmptyString]
  | String c s' =>
      if Ascii.eqb c " "%char then EmptyString :: split_space s'
      else match split_space s' with
           | h :: t => String c h :: t
           | [] => [String c EmptyString]
           end
  end.

(** A string is truthy when it is not empty. *)
Definition truthy (s : option string) : option string :=
  match s with
  | Some EmptyString => None
  | o => o
  end.

Section Handler.
Variable w : World.

(** [new Date(now.getFullYear(), now.getMonth() + 1, 1)] *)
Definition nextReset (now : Z) : Z :=
  newDate (LocalTZA w) (getFullYear (LocalTZA w) now)
          (getMonth (LocalTZA w) now + 1) 1.

(** Lines 214-230: reset the usage when the period has passed; the result
    is [currentUsage]. *)
Definition checkAndReset (now : Z) (uid : string) (profile : Profile) : M Z :=
  let resetAt := period_reset_at profile in
  if resetAt <=? now then
    update_user uid (set_reset 0 (nextReset now));;
    mret 0
  else mret (usage_count profile).

(** Lines 174-200: method and bearer-token checks, before the [try]. *)
Definition authenticate (req : Request) : Response + string :=
  if String.eqb (method req) "OPTIONS" then inl (mkResponse 200 NoBody)
  else if negb (String.eqb (method req) "POST") then
    inl (mkResponse 405 (ErrorBody "Method not allowed"))
  else match authorization req with
       | None => inl (mkResponse 401 (ErrorBody "Missing authorization header"))
       | Some authHeader =>
           if negb (String.prefix "Bearer " authHeader) then
             inl (mkResponse 401 (ErrorBody "Missing authorization header"))
           else
             let token := nth 1 (split_space authHeader) EmptyString in
             match auth_getUser w token with
             | None => inl (mkResponse 401 (ErrorBody "Invalid token"))
             | Some uid => inr uid
             end
       end.

(** Line 244: [const { videoUrl, storagePath } = req.body] throws when the
    body is undefined. *)
Definition parseBody (req : Request) : Outcome RequestBody :=
  match body req with
  | Some b => Value b
  | None => Raise "Cannot destructure property 'videoUrl' of 'req.body'"
  end.

(** Lines 246-305: check the input, get the video, call the model. *)
Definition analyse (b : RequestBody) : Outcome string :=
  match truthy (videoUrl b), truthy (storagePath b) with
  | None, None => respond 400 (ErrorBody "Missing videoUrl or storagePath")
  | _, Some path =>
      fileData ← await (storage_download w path);
      match fileData with
      | None => respond 400 (ErrorBody "Failed to download video from storage")
      | Some blob =>
          let mimeType := default "video/mp4" (truthy (Some (type blob))) in
          text ← await (generateContent w mimeType (data blob));
          mret (default "No analysis generated." (truthy text))
      end
  | Some url, None =>
      response ← await (fetch w url);
      let '(ok, blob) := response in
      if negb ok then respond 400 (ErrorBody "Failed to fetch video from URL")
      else
        let mimeType := default "video/mp4" (truthy (Some (type blob))) in
        text ← await (generateContent w mimeType (data blob));
        mret (default "No analysis generated." (truthy text))
  end.

(** What a request holds between the limit check and the increment. *)
Record Pending : Set := mkPending {
  p_uid : string;
  p_plan : Plan;
  p_currentUsage : Z;
  p_limit : Z;
  p_videoUrl : option string;
  p_storagePath : option string;
  p_analysisResult : string
}.

(** Lines 203-305: profile, reset, limit check and analysis. *)
Definition prepare (now : Z) (uid : string) (req : Request) : M Pending :=
  profile ← select_user uid;
  match profile with
  | None => lift (respond 404 (ErrorBody "User profile not found"))
  | Some profile =>
      currentUsage ← checkAndReset now uid profile;
      let limit := allowance (plan profile) in
      if limit <=? currentUsage then
        lift (respond 429 (QuotaBody "Usage limit exceeded" (plan profile)
                                     currentUsage limit))
      else
        b ← lift (parseBody req);
        analysisResult ← lift (analyse b);
        mret (mkPending uid (plan profile) currentUsage limit
                        (videoUrl b) (storagePath b) analysisResult)
  end.

(** Lines 307-330: increment the usage, save the history, answer. *)
Definition commit (p : Pending) : M Response :=
  update_user (p_uid p) (set_usage_count (p_currentUsage p + 1));;
  insert_history (mkHistoryRow (p_uid p) (truthy (p_videoUrl p))
                               (truthy (p_storagePath p)) (p_analysisResult p));;
  mret (mkResponse 200 (ResultBody (p_analysisResult p) (p_currentUsage p + 1)
                                   (p_limit p) (p_plan p))).

(** [catch (error) { return res.status(500).json({ error: error.message
    || 'Internal server error' }) }] *)
Definition caught (message : string) : Response :=
  mkResponse 500
    (ErrorBody (default "Internal server error" (truthy (Some message)))).

Definition try_catch (m : M Response) (db : Database) : Database * Response :=
  match m db with
  | (db', Value r) => (db', r)
  | (db', Respond r) => (db', r)
  | (db', Raise e) => (db', caught e)
  end.

(** [export default async function handler(req, res)], run at time [now]. *)
Definition handler (now : Z) (req : Request) (db : Database) : Database * Response :=
  match authenticate req with
  | inl r => (db, r)
  | inr uid => try_catch (p ← prepare now uid req; commit p) db
  end.

(** Requests served one after the other, each at its own time. *)
Fixpoint serve (calls : list (Z * Request)) (db : Database)
  : Database * list Response :=
  match calls with
  | [] => (db, [])
  | (now, req) :: rest =>
      let '(db1, r) := handler now req db in
      let '(db2, rs) := serve rest db1 in
      (db2, r :: rs)
  end.

(** *** Interleaved requests

    The handler touches the [users] row twice, with the analysis (awaits
    on the object store and on the model) in between: once to read, reset
    and check, once to write [currentUsage + 1].  A request in flight is in
    one of three phases, and [step] runs it to its next one. *)
Inductive Phase : Set :=
| Arrived (now : Z) (req : Request)
| Checked (p : Pending)
| Answered (r : Response).

Definition step (ph : Phase) (db : Database) : Database * Phase :=
  match ph with
  | Arrived now req =>
      match authenticate req with
      | inl r => (db, Answered r)
      | inr uid =>
          match prepare now uid req db with
          | (db', Value p) => (db', Checked p)
          | (db', Respond r) => (db', Answered r)
          | (db', Raise e) => (db', Answered (caught e))
          end
      end
  | Checked p =>
      let '(db', r) := try_catch (commit p) db in (db', Answered r)
  | Answered r => (db, Answered r)
  end.

(** Two requests in flight; [false] in the schedule steps the first one,
    [true] the second. *)
Fixpoint run (sched : list bool) (a b : Phase) (db : Database)
  : Database * Phase * Phase :=
  match sched with
  | [] => (db, a, b)
  | false :: rest => let '(db', a') := step a db in run rest a' b db'
  | true :: rest => let '(db', b') := step b db in run rest a b' db'
  end.

(** [canAnalyze] of [src/types.ts]: [(allowed, remaining)]; [getUserProfile]
    throws when the row is missing. *)
Definition canAnalyze (now : Z) (userId : string) : M (bool * Numeric) :=
  profile ← select_user userId;
  match profile with
  | None => lift (Raise "profile not found")
  | Some profile =>
      let resetAt := period_reset_at profile in
      if resetAt <=? now then
        update_user userId (set_reset 0 (nextReset now));;
        mret (true, PLAN_LIMITS (plan profile))
      else
        let limit := PLAN_LIMITS (plan profile) in
        let remaining := minus limit (usage_count profile) in
        mret (positive remaining, remaining)
  end.
End Handler.

(** What a call needs to get through, apart from the quota. *)
Definition passes (w : World) (uid : string) (resetAt : Z)
    (call : Z * Request) : Prop :=
  call.1 < resetAt /\
  authenticate w call.2 = inr uid /\
  exists b text, body call.2 = Some b /\ analyse w b = Value text.

(** The success answer of the handler: [{ result, usage }]. *)
Definition is_success (r : Response) : bool :=
  match json r with
  | ResultBody _ _ _ _ => true
  | _ => false
  end.

(** [AuthButton] and [UsageAlert]: the remaining analyses shown to the user,
    [Math.max(0, limit - usage)] with
    [limit = PLAN_LIMITS[profile?.plan || 'free']] and
    [usage = profile?.usage_count || 0]. *)
Definition remaining (profile : option Profile) : Numeric :=
  let limit := PLAN_LIMITS (plan_or_free (plan <$> profile)) in
  let usage := or_num (default 0 (usage_count <$> profile)) 0 in
  max0 (minus limit usage).

End Quota.


(** Concrete collaborators, rows and requests for the examples: a server on
    UTC, one user [u1] with token [t1], times in January 2025. *)
Module Fixtures.
Import Quota.

Definition clip : Blob := mkBlob "bytes" "video/webm".

Definition world0 : World :=
  mkWorld 0
          (fun token => if String.eqb token "t1" then Some "u1" else None)
          (fun _ => Resolved (Some clip))
          (fun _ => Resolved (true, clip))
          (fun _ _ => Resolved (Some "1. VISUAL SPECS")).

(** 2025-01-01, 2025-01-15, 2025-02-01 and 2025-02-15, 00:00 UTC. *)
Definition jan1 : Z := 1735689600000.
Definition jan15 : Z := 1736899200000.
Definition feb1 : Z := 1738368000000.
Definition feb15 : Z := 1739577600000.

Definition account (p : Plan) (usage resetAt : Z) : Database :=
  mkDatabase {[ "u1" := mkProfile "u1" p usage resetAt ]} [].

Definition upload : Request :=
  mkRequest "POST" (Some "Bearer t1")
            (Some (mkBody None (Some "u1/clip.webm"))).

(** A request without [videoUrl] and [storagePath]. *)
Definition empty_body : Request :=
  mkRequest "POST" (Some "Bearer t1") (Some (mkBody None None)).

End Fixtures.


(** ** JavaScript strings

    A string is its sequence of UTF-16 code units. *)
Module JSString.

Local Open Scope N_scope.

Abbreviation jsstring := (list N).

(** The code units of an ASCII literal. *)
Definition str (s : string) : jsstring :=
  map N_of_ascii (list_ascii_of_string s).

Definition LF : N := 10.
Definition SPACE : N := 32.
Definition HASH : N := 35.
Definition DOT : N := 46.
Definition BACKTICK : N := 96.

(** Line terminators: LF, CR, LS, PS. *)
Definition isLineTerminator (c : N) : bool :=
  (c =? 10) || (c =? 13) || (c =? 8232) || (c =? 8233).

(** White space of ECMA-262 (TAB, VT, FF, SP, NBSP, ZWNBSP and the space
    separators of Unicode) together with the line terminators: what [trim]
    strips and [\s] matches. *)
Definition isWhiteSpace (c : N) : bool :=
  (c =? 9) || (c =? 11) || (c =? 12) || (c =? 32) || (c =? 160) ||
  (c =? 5760) || ((8192 <=? c) && (c <=? 8202)) || (c =? 8239) ||
  (c =? 8287) || (c =? 12288) || (c =? 65279) || isLineTerminator c.

(** [\d] *)
Definition isDigit (c : N) : bool := (48 <=? c) && (c <=? 57).

Fixpoint trimStart (s : jsstring) : jsstring :=
  match s with
  | c :: s' => if isWhiteSpace c then trimStart s' else s
  | [] => []
  end.

Definition trimEnd (s : jsstring) : jsstring := rev (trimStart (rev s)).

(** [s.trim()] *)
Definition trim (s : jsstring) : jsstring := trimEnd (trimStart s).

(** [s.toLowerCase()] on the letters A-Z; the two other code units whose
    lower case is or starts with an ASCII letter are U+212A (k) and U+0130
    (i, U+0307).  The remaining code units are left as they are, which
    does not change where an ASCII word occurs in the result. *)
Definition lowerUnit (c : N) : list N :=
  if (65 <=? c) && (c <=? 90) then [c + 32]
  else if c =? 8490 then [107]
  else if c =? 304 then [105; 775]
  else [c].

Definition toLowerCase (s : jsstring) : jsstring := flat_map lowerUnit s.

Fixpoint startsWith (s prefix : jsstring) : bool :=
  match prefix, s with
  | [], _ => true
  | p :: prefix', c :: s' => (c =? p) && startsWith s' prefix'
  | _ :: _, [] => false
  end.

(** [s.includes(word)] *)
Fixpoint includes (s word : jsstring) : bool :=
  startsWith s word ||
  match s with
  | [] => false
  | _ :: s' => includes s' word
  end.

(** A text of white space only. *)
Definition blank (s : jsstring) : Prop :=
  Forall (fun c => isWhiteSpace c = true) s.

#[global] Instance blank_dec (s : jsstring) : Decision (blank s).
Proof. unfold blank. apply _. Defined.

End JSString.


(** ** Regular expressions

    A backtracking matcher for the constructs of the three patterns of
    [AnalysisView.tsx].  A pattern applied to a state yields the states in
    which a match may end, in the order in which backtracking tries them;
    the first one is the match. *)
Module RegExp.
Import JSString.

Inductive regex : Type :=
| Empty
| Char (c : N)
| Class (p : N -> bool)
| Seq (r1 r2 : regex)
| Alt (r1 r2 : regex)
| Repeat (r : regex) (min : nat) (max : option nat) (greedy : bool)
| Group (n : nat) (r : regex)
| Lookahead (r : regex)
| Start.

(** A literal text: its code units one after the other. *)
Definition word (w : jsstring) : regex :=
  foldr (fun c r => Seq (Char c) r) Empty w.

(** Position in the input, the input from there on, and the captures so
    far (most recent first). *)
Record mstate : Type := mkState {
  pos : nat;
  rest : jsstring;
  caps : list (nat * jsstring)
}.

Definition advance (s : mstate) (rest' : jsstring) : mstate :=
  mkState (S (pos s)) rest' (caps s).

(** One code unit satisfying [p]. *)
Definition unit_matcher (p : N -> bool) (s : mstate) : list mstate :=
  match rest s with
  | c :: rest' => if p c then [advance s rest'] else []
  | [] => []
  end.

(** The [RepeatMatcher] of ECMA-262: an iteration that consumes nothing is
    rejected once the minimum is reached; a greedy quantifier tries one more
    iteration before stopping, a lazy one stops first. *)
Fixpoint repeat_matcher (body : mstate -> list mstate) (fuel : nat)
    (min : nat) (max : option nat) (greedy : bool) (s : mstate)
  : list mstate :=
  match fuel with
  | O => []
  | S fuel' =>
      match max with
      | Some O => [s]
      | _ =>
          let more :=
            s' ← body s;
            if Nat.eqb min 0 && Nat.eqb (pos s') (pos s) then []
            else repeat_matcher body fuel' (Nat.pred min) (Nat.pred <$> max)
                                greedy s' in
          if negb (Nat.eqb min 0) then more
          else if greedy then more ++ [s]
          else s :: more
      end
  end.

Fixpoint matcher (r : regex) (s : mstate) : list mstate :=
  match r with
  | Empty => [s]
  | Char c => unit_matcher (N.eqb c) s
  | Class p => unit_matcher p s
  | Seq r1 r2 => s' ← matcher r1 s; matcher r2 s'
  | Alt r1 r2 => matcher r1 s ++ matcher r2 s
  | Repeat r min max greedy =>
      repeat_matcher (matcher r) (min + length (rest s) + 1) min max greedy s
  | Group n r =>
      (fun s' => mkState (pos s') (rest s')
                   ((n, take (pos s' - pos s) (rest s)) :: caps s'))
        <$> matcher r s
  | Lookahead r =>
      match matcher r s with
      | s' :: _ => [mkState (pos s) (rest s) (caps s')]
      | [] => []
      end
  | Start => if Nat.eqb (pos s) 0 then [s] else []
  end.

(** A match: where it starts, the matched text, the captures. *)
Record MatchResult : Type := mkMatch {
  index : nat;
  matched : jsstring;
  groups : list (nat * jsstring)
}.

Fixpoint capture (n : nat) (caps : list (nat * jsstring)) : option jsstring :=
  match caps with
  | (k, text) :: caps' => if Nat.eqb k n then Some text else capture n caps'
  | [] => None
  end.

(** The text captured by group [n]: [m[n]]. *)
Definition group (n : nat) (m : MatchResult) : option jsstring :=
  capture n (groups m).

(** A match starting exactly at the position of [s] (a sticky match). *)
Definition match_at (r : regex) (s : mstate) : option MatchResult :=
  match matcher r s with
  | s' :: _ => Some (mkMatch (pos s) (take (pos s' - pos s) (rest s)) (caps s'))
  | [] => None
  end.

(** The leftmost match at or after position [i], where the input is
    [input]. *)
Fixpoint search (r : regex) (i : nat) (input : jsstring) : option MatchResult :=
  match match_at r (mkState i input []) with
  | Some m => Some m
  | None =>
      match input with
      | _ :: input' => search r (S i) input'
      | [] => None
      end
  end.

(** [regex.exec(input)] and [input.match(regex)] without the [g] flag. *)
Definition exec (r : regex) (input : jsstring) : option MatchResult :=
  search r 0 input.

(** [input.replace(regex, '')] without the [g] flag: the first match is cut
    out. *)
Definition replace_empty (r : regex) (input : jsstring) : jsstring :=
  match exec r input with
  | Some m => take (index m) input ++ drop (index m + length (matched m)) input
  | None => input
  end.

(** The loop of [RegExp.prototype[Symbol.split]] without a limit and for a
    pattern without capture groups: [chunk] is the text from [p] to [q],
    [input] the text from [q] on.  A match at [q] that ends at [p] moves [q]
    on by one; any other match closes the chunk and starts the next one at
    its end. *)
Fixpoint split_loop (r : regex) (fuel : nat) (q : nat)
    (chunk input : jsstring) : list jsstring :=
  match fuel with
  | O => []
  | S fuel' =>
      match input with
      | [] => [chunk]
      | c :: input' =>
          match match_at r (mkState q input []) with
          | None => split_loop r fuel' (S q) (chunk ++ [c]) input'
          | Some m =>
              let e := length (matched m) in
              if Nat.eqb e 0 && Nat.eqb (length chunk) 0 then
                split_loop r fuel' (S q) (chunk ++ [c]) input'
              else chunk :: split_loop r fuel' (q + e) [] (drop e input)
          end
      end
  end.

(** [input.split(regex)] *)
Definition split (r : regex) (input : jsstring) : list jsstring :=
  match input with
  | [] => match match_at r (mkState 0 [] []) with
          | Some _ => []
          | None => [[]]
          end
  | _ => split_loop r (2 * length input + 1) 0 [] input
  end.

(** *** The matcher as a relation *)

(** [s'] is [s] moved over the text [w]. *)
Definition Consumes (s : mstate) (w : jsstring) (s' : mstate) : Prop :=
  rest s = w ++ rest s' /\ pos s' = (pos s + length w)%nat.

(** Whether the pattern matches at [s]. *)
Definition accepts (r : regex) (s : mstate) : Prop := exists s', s' ∈ matcher r s.

(** The iterations of a quantifier, as a relation: stop once the minimum is
    reached, or go through the body again. *)
Inductive Iter (body : mstate -> list mstate)
  : nat -> option nat -> mstate -> mstate -> Prop :=
| Iter_stop max s : Iter body 0 max s s
| Iter_step min max s s1 s' :
    max <> Some O ->
    s1 ∈ body s ->
    ~ (min = O /\ pos s1 = pos s) ->
    Iter body (Nat.pred min) (Nat.pred <$> max) s1 s' ->
    Iter body min max s s'.

Definition valid_bounds (min : nat) (max : option nat) : Prop :=
  forall m, max = Some m -> (min <= m)%nat.

End RegExp.


(** ** The section segmenter ([AnalysisView.tsx]) *)
Module AnalysisView.
Import JSString RegExp.

(** [#{1,3} ] *)
Definition headingMarker : regex :=
  Seq (Repeat (Char HASH) 1 (Some 3%nat) true) (Char SPACE).

(** [\d+\. ] *)
Definition numberMarker : regex :=
  Seq (Repeat (Class isDigit) 1 None true) (Seq (Char DOT) (Char SPACE)).

(** [/(?=\n#{1,3} |\n\d+\. )/g] *)
Definition boundaryRegex : regex :=
  Lookahead (Alt (Seq (Char LF) headingMarker) (Seq (Char LF) numberMarker)).

(** [.]: any code unit but a line terminator. *)
Definition notLineTerminator (c : N) : bool := negb (isLineTerminator c).

(** The title pattern: [^], group 1 [#{1,3} |\d+\. ] and group 2 [.*], the
    rest of the line. *)
Definition titleRegex : regex :=
  Seq Start
      (Seq (Group 1 (Alt headingMarker numberMarker))
           (Group 2 (Repeat (Class notLineTerminator) 0 None true))).

Definition fenceText : jsstring := [BACKTICK; BACKTICK; BACKTICK].

Definition fence : regex := word fenceText.

(** [[\s\S]]: any code unit. *)
Definition anyUnit (c : N) : bool := isWhiteSpace c || negb (isWhiteSpace c).

(** [/```(?:markdown|text)?([\s\S]*?)```/] *)
Definition codeBlockRegex : regex :=
  Seq fence
      (Seq (Repeat (Alt (word (str "markdown")) (word (str "text")))
                   0 (Some 1%nat) true)
           (Seq (Group 1 (Repeat (Class anyUnit) 0 None false)) fence)).

(** Lines 20-25: the chunks of the document. *)
Definition rawSections (content : jsstring) : list jsstring :=
  split boundaryRegex content.

Definition sections (content : jsstring) : list jsstring :=
  filter (fun s => (0 < length s)%nat) (trim <$> rawSections content).

(** Lines 39-45, 55 and 73-81: what is shown and copied for one section;
    [extractedCode] is the text of the prompt panel, when there is one. *)
Record Section : Type := mkSection {
  title : jsstring;
  body : jsstring;
  isPromptSection : bool;
  extractedCode : option jsstring;
  copyText : jsstring
}.

Definition titleOf (section : jsstring) : jsstring :=
  match exec titleRegex section with
  | Some titleMatch => default [] (group 2 titleMatch)
  | None => str "Analysis Overview"
  end.

Definition bodyOf (section : jsstring) : jsstring :=
  trim (replace_empty titleRegex section).

Definition codeBlockMatch (body : jsstring) : option MatchResult :=
  exec codeBlockRegex body.

Definition present (section : jsstring) : Section :=
  let title := titleOf section in
  let body := bodyOf section in
  let codeBlockMatch := codeBlockMatch body in
  let isPromptSection := includes (toLowerCase title) (str "prompt") in
  let code :=
    match isPromptSection, codeBlockMatch with
    | true, Some m => Some (trim (default [] (group 1 m)))
    | _, _ => None
    end in
  mkSection title body isPromptSection code (default section code).

(** The component: one card per section. *)
Definition AnalysisView (content : jsstring) : list Section :=
  present <$> sections content.

(** *** The boundaries, in the words of the specification *)

(** One to three heading markers and a space. *)
Definition HeadingMarker (l : jsstring) : Prop :=
  exists k tail, (1 <= k <= 3)%nat /\ l = replicate k HASH ++ SPACE :: tail.

(** A decimal number, a period and a space. *)
Definition NumberMarker (l : jsstring) : Prop :=
  exists digits tail,
    digits <> [] /\ Forall (fun c => isDigit c = true) digits /\
    l = digits ++ DOT :: SPACE :: tail.

Definition Marker (l : jsstring) : Prop := HeadingMarker l \/ NumberMarker l.

(** A newline immediately followed by a marker. *)
Definition Boundary (l : jsstring) : Prop :=
  exists l', l = LF :: l' /\ Marker l'.

(** [section] is [chunk] without the white space at its two ends, and is
    not empty: white space in front, a code unit that is none, ..., a code
    unit that is none, white space behind. *)
Definition TrimmedChunk (chunk section : jsstring) : Prop :=
  exists before after,
    chunk = before ++ section ++ after /\ blank before /\ blank after /\
    (exists c t, section = c :: t /\ isWhiteSpace c = false) /\
    (exists t d, section = t ++ [d] /\ isWhiteSpace d = false).

(** Whether a text begins with a boundary, as the split pattern decides. *)
Definition atBoundary (input : jsstring) : bool :=
  bool_decide (is_Some (match_at boundaryRegex (mkState 0 input []))).

(** The split loop for this pattern, by recursion on the text: a chunk is
    closed in front of every boundary, except where it would be empty. *)
Fixpoint cut (chunk input : jsstring) : list jsstring :=
  match input with
  | [] => [chunk]
  | c :: input' =>
      if atBoundary input && negb (Nat.eqb (length chunk) 0)
      then chunk :: cut [c] input'
      else cut (chunk ++ [c]) input'
  end.

(** The code units that are not white space. *)
Definition visible (s : jsstring) : jsstring :=
  filter (fun c => isWhiteSpace c = false) s.

(** [chunks.join(sep)] *)
Fixpoint join (sep : jsstring) (chunks : list jsstring) : jsstring :=
  match chunks with
  | [] => []
  | [chunk] => chunk
  | chunk :: chunks' => chunk ++ sep ++ join sep chunks'
  end.

(** The pattern matches nowhere in the document. *)
Definition noBoundary (content : jsstring) : Prop :=
  forall pre post, content = pre ++ post -> ~ Boundary post.

(** The same, decided by trying every position. *)
Fixpoint noBoundaryb (content : jsstring) : bool :=
  negb (atBoundary content) &&
  match content with
  | [] => true
  | _ :: content' => noBoundaryb content'
  end.

Definition fallbackTitle : jsstring := str "Analysis Overview".

(** No boundary comes right after white space: trimming a chunk then takes
    away the newline of its boundary and nothing else in between. *)
Definition tidy (content : jsstring) : Prop :=
  forall pre c post,
    content = pre ++ c :: post -> Boundary post -> isWhiteSpace c = false.

(** The same, decided by trying every position. *)
Fixpoint tidyb (content : jsstring) : bool :=
  match content with
  | [] => true
  | c :: post => negb (isWhiteSpace c && atBoundary post) && tidyb post
  end.

(** The trimmed chunks that are kept. *)
Definition kept (chunks : list jsstring) : list jsstring :=
  filter (fun s => (0 < length s)%nat) (trim <$> chunks).

(** *** Fenced code blocks, in the words of the specification *)

(** The tags a block may carry: none, [markdown] or [text]. *)
Definition tags : list jsstring := [[]; str "markdown"; str "text"].

(** [body] holds a block with this tag and this inner text. *)
Definition FencedBlock (body tag code : jsstring) : Prop :=
  exists before after,
    body = before ++ fenceText ++ tag ++ code ++ fenceText ++ after.

Definition hasFencedBlock (body : jsstring) : Prop :=
  exists tag code, tag ∈ tags /\ FencedBlock body tag code.

(** The first fence of a text: what is in front of it and what follows. *)
Fixpoint findFence (s : jsstring) : option (jsstring * jsstring) :=
  if startsWith s fenceText then Some ([], drop 3 s)
  else match s with
       | [] => None
       | c :: s' => (fun found => (c :: found.1, found.2)) <$> findFence s'
       end.

(** The text after an optional tag. *)
Definition stripTag (s : jsstring) : jsstring :=
  if startsWith s (str "markdown") then drop 8 s
  else if startsWith s (str "text") then drop 4 s
  else s.

(** The inner text of a block that starts here: a fence, an optional tag,
    the text up to the next fence. *)
Definition blockAt (s : jsstring) : option jsstring :=
  if startsWith s fenceText then fst <$> findFence (stripTag (drop 3 s))
  else None.

(** The inner text of the first block of a text. *)
Fixpoint innerText (s : jsstring) : option jsstring :=
  match blockAt s with
  | Some code => Some code
  | None =>
      match s with
      | [] => None
      | _ :: s' => innerText s'
      end
  end.

(** What [present] computes, step by step: whether the title names the
    prompt, and the capture of the code pattern in the body. *)
Definition mentionsPrompt (section : jsstring) : bool :=
  includes (toLowerCase (titleOf section)) (str "prompt").

Definition capturedCode (section : jsstring) : option jsstring :=
  (fun m => default [] (group 1 m)) <$> codeBlockMatch (bodyOf section).

(** *** The icon and the body of a card *)

(** The icons that [SectionIcon] chooses from. *)
Inductive Icon : Set :=
| Palette | Clapperboard | Database | Layers | Terminal | Clock.

(** Lines 8-16: the first keyword found in the lower-cased title decides. *)
Definition SectionIcon (title : jsstring) : Icon :=
  let t := toLowerCase title in
  if includes t (str "visual") then Palette
  else if includes t (str "video") then Clapperboard
  else if includes t (str "data") then Database
  else if includes t (str "logic") || includes t (str "choreography") then Layers
  else if includes t (str "prompt") then Terminal
  else Clock.

(** Line 66: the label of the copy button. *)
Definition copyLabel (section : jsstring) : jsstring :=
  if isPromptSection (present section) then str "Copy Prompt"
  else str "Copy Section".

Definition COLON : N := 58%N.

(** [s.split(sep)] for a separator of one code unit. *)
Fixpoint splitOn (sep : N) (s : jsstring) : list jsstring :=
  match s with
  | [] => [[]]
  | c :: s' =>
      if (c =? sep)%N then [] :: splitOn sep s'
      else match splitOn sep s' with
           | part :: parts => (c :: part) :: parts
           | [] => [[c]]
           end
  end.

(** What a line of the body is rendered as (lines 86-102): a list item with
    a key in front of its first colon, a list item, a spacer for an empty
    line, or a plain line. *)
Inductive Line : Type :=
| KeyValue (key value : jsstring)
| ListItem (line : jsstring)
| Spacer
| Paragraph (line : jsstring).

Definition renderLine (line : jsstring) : Line :=
  if startsWith (trim line) (str "*") || startsWith (trim line) (str "-") then
    let parts := splitOn COLON line in
    if (1 <? length parts)%nat then
      KeyValue (default [] (head parts)) (join [COLON] (drop 1 parts))
    else ListItem line
  else if Nat.eqb (length (trim line)) 0 then Spacer
  else Paragraph line.

(** Lines 72-104: the prompt panel with the extracted code, or the lines of
    the body. *)
Inductive CardBody : Type :=
| PromptPanel (code : jsstring)
| Lines (lines : list Line).

Definition cardBody (section : jsstring) : CardBody :=
  match extractedCode (present section) with
  | Some code => PromptPanel code
  | None => Lines (renderLine <$> splitOn LF (body (present section)))
  end.

(** *** Markers and lines, in the words of the title pattern *)

(** The text of a marker: one to three [#] and a space, or a decimal number,
    a period and a space. *)
Definition MarkerText (marker : jsstring) : Prop :=
  (exists k, (1 <= k <= 3)%nat /\ marker = replicate k HASH ++ [SPACE]) \/
  (exists digits, digits <> [] /\ Forall (fun c => isDigit c = true) digits /\
                  marker = digits ++ [DOT; SPACE]).

(** [line] is the rest of a line: no line terminator inside, the end of the
    text or a line terminator behind. *)
Definition RestOfLine (line rest : jsstring) : Prop :=
  Forall (fun c => isLineTerminator c = false) line /\
  (rest = [] \/ exists c r, rest = c :: r /\ isLineTerminator c = true).

End AnalysisView.

(** Documents of the examples. *)
Module Documents.
Import JSString.

(** ["1. VISUAL SPECS\nColors: red"] *)
Definition visual_specs : jsstring :=
  str "1. VISUAL SPECS" ++ [LF] ++ str "Colors: red".

(** ["Intro\n\n## Title"]: a blank line in front of a heading. *)
Definition blank_line : jsstring :=
  str "Intro" ++ [LF; LF] ++ str "## Title".

(** ["Intro\n## Title"] *)
Definition no_blank_line : jsstring :=
  str "Intro" ++ [LF] ++ str "## Title".

(** A prompt section: the title line, then a block tagged [markdown]. *)
Definition replication_prompt : jsstring :=
  str "5. THE REPLICATION PROMPT" ++ [LF] ++ str "```markdown" ++ [LF] ++
  str "Build X" ++ [LF] ++ str "```".

(** A prompt card whose fenced block holds a numbered line:
    ["## PROMPT\n```\nSteps:\n1. Build X\n```"]. *)
Definition numbered_prompt : jsstring :=
  str "## PROMPT" ++ [LF] ++ str "```" ++ [LF] ++ str "Steps:" ++ [LF] ++
  str "1. Build X" ++ [LF] ++ str "```".

End Documents.


(** ** The usage indicator and the sign-in form ([AuthButton.tsx], in its
    version with the magic link) *)
Module AuthButton.
Import Quota.

(** [const PLAN_LABELS = { free: 'Free', starter: 'Starter', pro: 'Pro' }],
    and [PLAN_LABELS[p]]: [None] is the [undefined] of a key that the table
    does not have. *)
Definition PLAN_LABELS (p : Plan) : option string :=
  match p with
  | free => Some "Free"
  | starter => Some "Starter"
  | pro => Some "Pro"
  | unset | unlisted => None
  end.

(** The state of the form: [showEmailInput], [email], [sending], [sent],
    [error]. *)
Record Form : Set := mkForm {
  showEmailInput : bool;
  email : string;
  sending : bool;
  sent : bool;
  error : string
}.

(** [handleSubmit]: nothing without an address; otherwise the magic link is
    asked for, and [finally] ends the sending. *)
Definition handleSubmit (signInWithEmail : string -> Settled unit) (f : Form)
  : Form :=
  match truthy (Some (email f)) with
  | None => f
  | Some address =>
      match signInWithEmail address with
      | Resolved _ => mkForm (showEmailInput f) (email f) false true ""
      | Rejected message =>
          mkForm (showEmailInput f) (email f) false (sent f)
                 (default "Failed to send magic link" (truthy (Some message)))
      end
  end.

(** What [AuthButton] renders. *)
Inductive View : Set :=
| Skeleton
| CheckYourEmail
| EmailForm
| SignIn
| Signed (remaining limit : Numeric) (planLabel : option string).

(** [AuthButton], for the [loading] flag, whether a user is signed in, and
    the profile of [useAuth]. *)
Definition AuthButton (loading signedIn : bool) (profile : option Profile)
    (f : Form) : View :=
  if loading then Skeleton
  else if negb signedIn then
    if sent f then CheckYourEmail
    else if showEmailInput f then EmailForm
    else SignIn
  else
    let limit := PLAN_LIMITS (plan_or_free (plan <$> profile)) in
    let usage := or_num (default 0 (usage_count <$> profile)) 0 in
    let remaining := max0 (minus limit usage) in
    let planLabel := PLAN_LABELS (plan_or_free (plan <$> profile)) in
    Signed remaining limit planLabel.



End AuthButton.


(** ** The legacy client-side service ([src/services/geminiService.ts]) *)
Module GeminiService.
Import Quota.

Section AnalyzeVideo.
(** [process.env.API_KEY], and the model behind [ai.models.generateContent]:
    called with the key, the MIME type and the data. *)
Variable API_KEY : option string.
Variable generateContent : string -> string -> string -> Settled (option string).

(** [analyzeVideo(base64Data, mimeType)] *)
Definition analyzeVideo (base64Data mimeType : string) : Settled string :=
  match truthy API_KEY with
  | None => Rejected "API Key not found in environment variables"
  | Some key =>
      match generateContent key mimeType base64Data with
      | Resolved text => Resolved (default "No analysis generated." (truthy text))
      | Rejected message =>
          Rejected (default "Failed to analyze video" (truthy (Some message)))
      end
  end.
End AnalyzeVideo.

End GeminiService.


(** ** The page ([App.tsx])

    The three handlers of the component as functions on its state.  A
    handler is run to its end: the state it leaves is the one of its last
    [set] calls. *)
Module App.
Import Quota.

(** [const MAX_FILE_SIZE = 100 * 1024 * 1024] *)
Definition MAX_FILE_SIZE : Z := 100 * 1024 * 1024.

(** [AnalysisState] of [src/types.ts]. *)
Inductive Status : Set := Idle | Uploading | Analyzing | Complete | Error.

Record AnalysisState : Set := mkAnalysisState {
  status : Status;
  error : option string;
  result : option string
}.

(** What the component reads of a browser [File]. *)
Record File : Set := mkFile { name : string; size : Z; type : string }.

(** [VideoFile] of [src/types.ts]. *)
Record VideoFile : Set := mkVideoFile {
  file : File;
  previewUrl : string;
  base64Data : option string;
  mimeType : string
}.

(** The state of the component. *)
Record State : Set := mkApp {
  video : option VideoFile;
  analysisState : AnalysisState;
  uploadProgress : Z
}.

Definition setVideo (v : option VideoFile) (st : State) : State :=
  mkApp v (analysisState st) (uploadProgress st).

Definition setAnalysisState (a : AnalysisState) (st : State) : State :=
  mkApp (video st) a (uploadProgress st).

Definition setUploadProgress (n : Z) (st : State) : State :=
  mkApp (video st) (analysisState st) n.

(** [useState] initial values. *)
Definition initial : State := mkApp None (mkAnalysisState Idle None None) 0.

(** [{ status: 'error', error: message }] *)
Definition failed (message : string) : AnalysisState :=
  mkAnalysisState Error (Some message) None.

(** What [useAuth] provides. *)
Record User : Set := mkUser { id : string }.
Record Session : Set := mkSession { access_token : string }.
Record Auth : Set := mkAuth {
  user : option User;
  session : option Session;
  profile : option Profile
}.

(** A response body as the component reads it: [errorData.error] and
    [data.result]. *)
Record Payload : Set := mkPayload {
  payload_error : option string;
  payload_result : option string
}.

(** A [fetch] response: [ok] and what [json()] settles to. *)
Record HttpResponse : Set := mkHttp { ok : bool; json : Settled Payload }.

(** The collaborators of the page: the clock, object URLs, the object store
    ([upload] resolves to the message of [uploadError], if any), the
    analysis endpoint, [refreshProfile] of [useAuth]. *)
Record Browser : Type := mkBrowser {
  Date_now : Z;
  createObjectURL : File -> string;
  storage_upload : string -> File -> Settled (option string);
  fetch_analyze : Request -> Settled HttpResponse;
  refreshProfile : Settled unit;
  storage_remove : string -> Settled unit
}.

(** [handleFileChange]: [files] is [event.target.files]. *)
Definition handleFileChange (b : Browser) (files : list File) (st : State)
  : State :=
  match head files with
  | None => st
  | Some file =>
      if MAX_FILE_SIZE <? size file then
        setAnalysisState
          (failed "File too large. Please upload a video under 100MB.") st
      else
        let st := setAnalysisState (mkAnalysisState Idle None None) st in
        setVideo (Some (mkVideoFile file (createObjectURL b file) (Some "")
                                    (type file))) st
  end.

(** The request of [fetch('/api/analyze', ...)] as the handler receives it:
    the bearer token, and [{ storagePath: filePath }] as the body. *)
Definition apiRequest (session : Session) (filePath : string) : Request :=
  mkRequest "POST" (Some ("Bearer " +:+ access_token session))
            (Some (mkBody None (Some filePath))).

(** [`${user.id}/${Date.now()}-${video.file.name}`] *)
Definition filePathOf (b : Browser) (user : User) (video : VideoFile) : string :=
  id user +:+ "/" +:+ pretty (Date_now b) +:+ "-" +:+ name (file video).

(** The [try] block runs in a state monad with exceptions: a rejected
    [await] throws its message. *)
Definition Try (A : Type) : Type := State -> State * Settled A.

#[global] Instance Try_ret : MRet Try := fun A a st => (st, Resolved a).
#[global] Instance Try_bind : MBind Try := fun A B k m st =>
  match m st with
  | (st', Resolved a) => k a st'
  | (st', Rejected e) => (st', Rejected e)
  end.

Definition awaiting {A} (r : Settled A) : Try A := fun st => (st, r).

(** [throw new Error(message)] *)
Definition throw {A} (message : string) : Try A :=
  fun st => (st, Rejected message).

Definition set (f : State -> State) : Try unit :=
  fun st => (f st, Resolved tt).

(** The [try] block of [handleAnalyze]. *)
Definition attempt (b : Browser) (user : User) (session : Session)
    (video : VideoFile) : Try unit :=
  let filePath := filePathOf b user video in
  set (setUploadProgress 10);;
  uploadError ← awaiting (storage_upload b filePath (file video));
  match uploadError with
  | Some message => throw ("Upload failed: " +:+ message)
  | None =>
      set (setUploadProgress 50);;
      response ← awaiting (fetch_analyze b (apiRequest session filePath));
      set (setUploadProgress 90);;
      if negb (ok response) then
        errorData ← awaiting (json response);
        throw (default "Analysis failed" (truthy (payload_error errorData)))
      else
        data ← awaiting (json response);
        set (setUploadProgress 100);;
        set (setAnalysisState
               (mkAnalysisState Complete None (payload_result data)));;
        awaiting (refreshProfile b);;
        awaiting (storage_remove b filePath)
  end.

(** [handleAnalyze] *)
Definition handleAnalyze (b : Browser) (a : Auth) (st : State) : State :=
  match video st, user a, session a with
  | Some video, Some user, Some session =>
      let limit :=
        or_number (PLAN_LIMITS (plan_or_free (plan <$> profile a))) 3 in
      let usage := or_num (default 0 (usage_count <$> profile a)) 0 in
      if limit <=? usage then
        setAnalysisState
          (failed "Usage limit reached. Please upgrade your plan.") st
      else
        let st := setAnalysisState (mkAnalysisState Analyzing None None) st in
        let st := setUploadProgress 0 st in
        match attempt b user session video st with
        | (st, Resolved _) => st
        | (st, Rejected message) =>
            setAnalysisState
              (failed (default "An unexpected error occurred"
                               (truthy (Some message)))) st
        end
  | _, _, _ => st
  end.

(** [clearVideo] *)
Definition clearVideo (st : State) : State :=
  let st := setVideo None st in
  let st := setAnalysisState (mkAnalysisState Idle None None) st in
  setUploadProgress 0 st.

(** Line 125: whether the account has analyses left, as the page sees it. *)
Definition canAnalyze (a : Auth) : bool :=
  match user a, profile a with
  | Some _, Some profile =>
      usage_count profile <? or_number (PLAN_LIMITS (plan profile)) 3
  | _, _ => false
  end.

(** The button: disabled while analyzing, and by
    [analysisState.status === 'complete' || !canAnalyze]. *)
Definition analyzeDisabled (a : Auth) (st : State) : bool :=
  match status (analysisState st) with
  | Analyzing => true
  | Complete => true
  | _ => negb (canAnalyze a)
  end.

(** The events of the page, and the handler of each. *)
Inductive Event : Type :=
| FileChange (b : Browser) (files : list File)
| Analyze (b : Browser) (a : Auth)
| ClearVideo.

Definition dispatch (st : State) (e : Event) : State :=
  match e with
  | FileChange b files => handleFileChange b files st
  | Analyze b a => handleAnalyze b a st
  | ClearVideo => clearVideo st
  end.

(** The states the page takes between two events. *)
Definition after (events : list Event) : State := foldl dispatch initial events.

(** The states of [analysisState] that carry what their status needs: an
    error message with ['error'], no result but with ['complete']. *)
Definition wellFormed (a : AnalysisState) : Prop :=
  match status a with
  | Idle | Analyzing => error a = None /\ result a = None
  | Complete => error a = None
  | Error => result a = None /\ exists message, error a = Some message /\
                                                 message <> ""
  | Uploading => False
  end.

(** The handler's answer as [fetch] delivers it: [ok] for a status from 200
    to 299; [json()] rejects on an empty body. *)
Definition delivered (r : Response) : HttpResponse :=
  mkHttp ((200 <=? Quota.status r) && (Quota.status r <=? 299))
         (match Quota.json r with
          | NoBody => Rejected "Unexpected end of JSON input"
          | ErrorBody message => Resolved (mkPayload (Some message) None)
          | QuotaBody message _ _ _ => Resolved (mkPayload (Some message) None)
          | ResultBody text _ _ _ => Resolved (mkPayload None (Some text))
          end).

End App.


(** ** Invariants of the ledger *)
Module Ledger.
Import Quota.

(** No account has used more than its allowance. *)
Definition within_limits (db : Database) : Prop :=
  forall uid acct,
    users db !! uid = Some acct -> usage_count acct <= allowance (plan acct).

(** A request in flight that has passed the check holds a usage below the
    allowance of its account. *)
Definition committable (db : Database) (ph : Phase) : Prop :=
  match ph with
  | Checked p =>
      forall acct, users db !! p_uid p = Some acct ->
                   p_currentUsage p + 1 <= allowance (plan acct)
  | _ => True
  end.

(** The text of an answer that carries a result. *)
Definition resultOf (r : Response) : option string :=
  match json r with
  | ResultBody text _ _ _ => Some text
  | _ => None
  end.

(** Whether the answer [r] to [req] is a result given to [uid]. *)
Definition result_for (w : World) (uid : string) (req : Request)
    (r : Response) : bool :=
  is_success r &&
  match authenticate w req with
  | inr caller => String.eqb caller uid
  | inl _ => false
  end.

(** The number of results given to [uid] among the answers to [calls]. *)
Fixpoint results_for (w : World) (uid : string) (calls : list (Z * Request))
    (answers : list Response) : Z :=
  match calls, answers with
  | (_, req) :: calls', r :: answers' =>
      (if result_for w uid req r then 1 else 0) +
      results_for w uid calls' answers'
  | _, _ => 0
  end.

End Ledger.


(** A page in front of the handler of [Fixtures]: a clip has been chosen,
    user [u1] is signed in with token [t1], and every collaborator of the
    page succeeds. *)
Module Scenes.
Import Quota.

Definition clip : App.File := App.mkFile "clip.webm" 2048 "video/webm".

Definition chosen : App.State :=
  App.mkApp (Some (App.mkVideoFile clip "blob:clip" (Some "") "video/webm"))
            (App.mkAnalysisState App.Idle None None) 0.

Definition signedIn (usage : Z) : App.Auth :=
  App.mkAuth (Some (App.mkUser "u1")) (Some (App.mkSession "t1"))
             (Some (mkProfile "u1" free usage Fixtures.feb1)).

(** The browser, with the handler over [db] behind [/api/analyze]. *)
Definition browser (db : Database) : App.Browser :=
  App.mkBrowser Fixtures.jan15 (fun _ => "blob:clip")
    (fun _ _ => Resolved None)
    (fun req =>
       Resolved (App.delivered (handler Fixtures.world0 Fixtures.jan15 req db).2))
    (Resolved tt) (fun _ => Resolved tt).

End Scenes.


Module JSDateFacts.
Import JSDate.

Ltac zdiv := Z.div_mod_to_equations; lia.

Lemma DayFromYear_succ y : DayFromYear (y + 1) = DayFromYear y + DaysInYear y.
Proof.
  unfold DayFromYear, DaysInYear.
  repeat match goal with
         | |- context [negb (?a =? ?b)] => destruct (Z.eqb_spec a b); simpl
         end; zdiv.
Qed.

Lemma DaysInYear_cases y : DaysInYear y = 365 \/ DaysInYear y = 366.
Proof.
  unfold DaysInYear.
  repeat match goal with
         | |- context [negb (?a =? ?b)] => destruct (Z.eqb_spec a b); simpl
         end; auto.
Qed.

Lemma DayFromYear_estimate d :
  DayFromYear (1970 + (400 * d) / 146097 - 1) <= d
  < DayFromYear (1970 + (400 * d) / 146097 + 2).
Proof. unfold DayFromYear. zdiv. Qed.

Lemma DayFromYear_mono y y' : y <= y' -> DayFromYear y <= DayFromYear y'.
Proof. unfold DayFromYear. intros. zdiv. Qed.

(** The computed year is the one of the ECMA-262 definition. *)
Lemma YearFromTime_spec t :
  DayFromYear (YearFromTime t) <= Day t < DayFromYear (YearFromTime t + 1).
Proof.
  unfold YearFromTime.
  pose proof (DayFromYear_estimate (Day t)) as [Hlo Hhi].
  set (y0 := 1970 + 400 * Day t / 146097) in *.
  destruct (Z.leb_spec (DayFromYear (y0 + 1)) (Day t)).
  - replace (y0 + 1 + 1) with (y0 + 2) by lia. lia.
  - destruct (Z.leb_spec (DayFromYear y0) (Day t)).
    + lia.
    + replace (y0 - 1 + 1) with y0 by lia.
      replace (1970 + 400 * Day t / 146097 - 1) with (y0 - 1) in Hlo by lia.
      lia.
Qed.

Lemma YearFromTime_unique t y :
  DayFromYear y <= Day t < DayFromYear (y + 1) -> YearFromTime t = y.
Proof.
  intros [Hlo Hhi]. pose proof (YearFromTime_spec t) as [Hlo' Hhi'].
  destruct (Z.lt_trichotomy (YearFromTime t) y) as [Hlt | [Heq | Hgt]]; [|done|].
  - pose proof (DayFromYear_mono (YearFromTime t + 1) y). lia.
  - pose proof (DayFromYear_mono (y + 1) (YearFromTime t)). lia.
Qed.

Lemma DayWithinYear_bounds t :
  0 <= DayWithinYear t < DaysInYear (YearFromTime t).
Proof.
  unfold DayWithinYear. pose proof (YearFromTime_spec t).
  rewrite DayFromYear_succ in *. lia.
Qed.

Lemma Day_MakeDate d : Day (MakeDate d (MakeTime 0 0 0 0)) = d.
Proof. unfold Day, MakeDate, MakeTime, msPerDay. zdiv. Qed.

Lemma TimeWithinDay_MakeDate d :
  TimeWithinDay (MakeDate d (MakeTime 0 0 0 0)) = 0.
Proof. unfold TimeWithinDay, MakeDate, MakeTime, msPerDay. zdiv. Qed.

Ltac month_cases m :=
  let Hc := fresh "Hc" in
  assert (m = 0 \/ m = 1 \/ m = 2 \/ m = 3 \/ m = 4 \/ m = 5 \/ m = 6 \/
          m = 7 \/ m = 8 \/ m = 9 \/ m = 10 \/ m = 11) as Hc by lia;
  repeat destruct Hc as [-> | Hc]; try subst m.

Ltac ltb_cases :=
  repeat match goal with
         | |- context [?a <? ?b] => destruct (Z.ltb_spec a b); simpl; try lia
         end.

Lemma monthStart_bounds m l :
  0 <= m < 12 -> 0 <= l <= 1 -> 0 <= monthStart m l < 365.
Proof.
  intros Hm Hl.
  month_cases m; simpl; lia.
Qed.


Lemma leapDays_bounds y : 0 <= leapDays y <= 1.
Proof. unfold leapDays. case_match; lia. Qed.

Lemma MakeDay_first y m :
  0 <= m < 12 -> MakeDay y m 1 = DayFromYear y + monthStart m (leapDays y).
Proof.
  intros Hm. unfold MakeDay, leapDays.
  replace (m / 12) with 0 by zdiv. replace (m mod 12) with m by zdiv.
  rewrite Z.add_0_r. lia.
Qed.

(** Month 12 is January of the next year. *)
Lemma MakeDay_carry y : MakeDay y 12 1 = MakeDay (y + 1) 0 1.
Proof.
  unfold MakeDay. change (12 / 12) with 1. change (12 mod 12) with 0.
  change (0 / 12) with 0. change (0 mod 12) with 0.
  replace (y + 1 + 0) with (y + 1) by lia. reflexivity.
Qed.

Lemma first_Year y m : 0 <= m < 12 -> YearFromTime (firstOfMonth y m) = y.
Proof.
  intros Hm. apply YearFromTime_unique. unfold firstOfMonth.
  rewrite Day_MakeDate, DayFromYear_succ, MakeDay_first by done.
  pose proof (monthStart_bounds m (leapDays y) Hm (leapDays_bounds y)).
  pose proof (DaysInYear_cases y). lia.
Qed.

Lemma first_InLeapYear y m :
  0 <= m < 12 -> InLeapYear (firstOfMonth y m) = leapDays y.
Proof. intros Hm. unfold InLeapYear. by rewrite first_Year. Qed.

Lemma first_DayWithinYear y m :
  0 <= m < 12 -> DayWithinYear (firstOfMonth y m) = monthStart m (leapDays y).
Proof.
  intros Hm. unfold DayWithinYear. rewrite first_Year by done.
  unfold firstOfMonth. rewrite Day_MakeDate, MakeDay_first by done. lia.
Qed.

Lemma first_Month y m : 0 <= m < 12 -> MonthFromTime (firstOfMonth y m) = m.
Proof.
  intros Hm. unfold MonthFromTime.
  rewrite first_DayWithinYear, first_InLeapYear by done.
  pose proof (leapDays_bounds y).
  month_cases m; simpl; ltb_cases; lia.
Qed.

Lemma first_Date y m : 0 <= m < 12 -> DateFromTime (firstOfMonth y m) = 1.
Proof.
  intros Hm. unfold DateFromTime.
  rewrite first_Month, first_DayWithinYear, first_InLeapYear by done. lia.
Qed.

Lemma first_TimeWithinDay y m : TimeWithinDay (firstOfMonth y m) = 0.
Proof. apply TimeWithinDay_MakeDate. Qed.

(** Day of the year at which the month after [MonthFromTime t] begins. *)
Lemma DayWithinYear_before_next_month t :
  DayWithinYear t <
  (if MonthFromTime t =? 11 then DaysInYear (YearFromTime t)
   else monthStart (MonthFromTime t + 1) (InLeapYear t)).
Proof.
  pose proof (DayWithinYear_bounds t) as Hb.
  unfold MonthFromTime, InLeapYear in *.
  destruct (Z.eqb_spec (DaysInYear (YearFromTime t)) 366) as [He | He];
    [| destruct (DaysInYear_cases (YearFromTime t)); [| done]];
    ltb_cases.
Qed.

Lemma MonthFromTime_bounds t : 0 <= MonthFromTime t < 12.
Proof.
  unfold MonthFromTime. ltb_cases.
Qed.

Lemma MakeDay_normalize y m :
  MakeDay y m 1 = MakeDay (y + m / 12) (m mod 12) 1.
Proof.
  unfold MakeDay.
  replace (m mod 12 / 12) with 0 by zdiv.
  replace ((m mod 12) mod 12) with (m mod 12) by zdiv.
  by rewrite Z.add_0_r.
Qed.

Lemma firstOfMonth_eq y m :
  MakeDate (MakeDay y m 1) (MakeTime 0 0 0 0) = firstOfMonth y m.
Proof. unfold firstOfMonth. exact eq_refl. Qed.

Lemma firstOfMonth_normalize y m :
  firstOfMonth y m = firstOfMonth (y + m / 12) (m mod 12).
Proof. unfold firstOfMonth. f_equal. apply MakeDay_normalize. Qed.

Lemma MakeFullYear_id y : ~ (0 <= y <= 99) -> MakeFullYear y = y.
Proof.
  intros Hy. unfold MakeFullYear.
  destruct (Z.leb_spec 0 y), (Z.leb_spec y 99); simpl; lia.
Qed.

Lemma Day_lt_time t d : Day t < d -> t < MakeDate d (MakeTime 0 0 0 0).
Proof. unfold Day, MakeDate, MakeTime, msPerDay. intros. zdiv. Qed.

(** The first day of the month after the one of [t] starts after [t]. *)
Lemma before_next_month t :
  t < firstOfMonth (YearFromTime t) (MonthFromTime t + 1).
Proof.
  apply Day_lt_time.
  pose proof (DayWithinYear_before_next_month t) as Hlt.
  pose proof (MonthFromTime_bounds t) as Hm.
  unfold DayWithinYear in Hlt.
  destruct (Z.eqb_spec (MonthFromTime t) 11) as [He | Hne].
  - rewrite He. change (11 + 1) with 12. rewrite MakeDay_carry.
    rewrite MakeDay_first by lia. rewrite DayFromYear_succ. simpl. lia.
  - rewrite MakeDay_first by lia. unfold InLeapYear, leapDays in *. lia.
Qed.

Section NewDate.
Variable tz : Z.

Lemma LocalTime_UTC t : LocalTime tz (UTC tz t) = t.
Proof. unfold LocalTime, UTC. lia. Qed.

(** [new Date(now.getFullYear(), now.getMonth() + 1, 1)]: local midnight of
    the first day of the month after the one of [now]. *)
Lemma newDate_next_month now :
  ~ (0 <= getFullYear tz now <= 99) ->
  let r := newDate tz (getFullYear tz now) (getMonth tz now + 1) 1 in
  now < r /\
  getDate tz r = 1 /\
  TimeWithinDay (LocalTime tz r) = 0 /\
  getMonth tz r = (getMonth tz now + 1) mod 12 /\
  getFullYear tz r = getFullYear tz now + (getMonth tz now + 1) / 12.
Proof.
  intros Hy. cbv zeta. unfold getDate, getMonth, getFullYear, newDate in *.
  rewrite !LocalTime_UTC, !MakeFullYear_id by exact Hy.
  remember (LocalTime tz now) as t eqn:Ht.
  rewrite !firstOfMonth_eq.
  pose proof (MonthFromTime_bounds t) as Hm.
  assert (0 <= (MonthFromTime t + 1) mod 12 < 12) as Hm' by zdiv.
  split.
  - pose proof (before_next_month t) as Hlt. revert Hlt.
    generalize (firstOfMonth (YearFromTime t) (MonthFromTime t + 1)).
    unfold UTC, LocalTime in *. intros. lia.
  - rewrite firstOfMonth_normalize.
    rewrite first_Date, first_TimeWithinDay, first_Month, first_Year
      by exact Hm'.
    repeat split; reflexivity.
Qed.
End NewDate.

End JSDateFacts.


(** ** Properties of the quota ledger *)
Module QuotaFacts.
Import JSDate JSDateFacts Quota.

Ltac munfold :=
  unfold mbind, M_bind, Outcome_bind, mret, M_ret, Outcome_ret, lift,
    select_user, update_user, insert_history, respond in *.



(** The limit of [handleAnalyze], looked up under [plan || 'free'] and then
    defaulted to 3, is the limit of the button and of the handler. *)
Lemma gate_limit p :
  or_number (PLAN_LIMITS (plan_or_free (Some p))) 3 = allowance p.
Proof. by destruct p. Qed.

Lemma or_num_0 n : or_num n 0 = n.
Proof. unfold or_num. by destruct (Z.eqb_spec n 0). Qed.

Lemma allowance_pos p : 0 < allowance p.
Proof. destruct p; reflexivity. Qed.

(** The reset branch of [checkAndReset] is not taken before the boundary. *)
Lemma checkAndReset_before w now uid profile db :
  now < period_reset_at profile ->
  checkAndReset w now uid profile db = (db, Value (usage_count profile)).
Proof.
  intros Hlt. unfold checkAndReset.
  destruct (Z.leb_spec (period_reset_at profile) now); [lia | reflexivity].
Qed.

Lemma checkAndReset_after w now uid profile db :
  period_reset_at profile <= now ->
  checkAndReset w now uid profile db =
  (mkDatabase (alter (set_reset 0 (nextReset w now)) uid (users db))
              (analysis_history db), Value 0).
Proof.
  intros Hle. unfold checkAndReset.
  destruct (Z.leb_spec (period_reset_at profile) now); [reflexivity | lia].
Qed.

(** A request that passes the checks within the period: the usage read at
    the start, plus one, is written back. *)
Lemma handler_accepts w now req db uid acct b text :
  authenticate w req = inr uid ->
  users db !! uid = Some acct ->
  now < period_reset_at acct ->
  usage_count acct < allowance (plan acct) ->
  body req = Some b ->
  analyse w b = Value text ->
  handler w now req db =
  (mkDatabase (alter (set_usage_count (usage_count acct + 1)) uid (users db))
              (analysis_history db ++
                 [mkHistoryRow uid (truthy (videoUrl b))
                               (truthy (storagePath b)) text]),
   mkResponse 200 (ResultBody text (usage_count acct + 1)
                              (allowance (plan acct)) (plan acct))).
Proof.
  intros Hauth Hacct Hnow Hlt Hbody Htext.
  unfold handler, try_catch, prepare, commit, parseBody. rewrite Hauth.
  munfold. rewrite Hacct, checkAndReset_before by exact Hnow.
  destruct (Z.leb_spec (allowance (plan acct)) (usage_count acct)); [lia |].
  rewrite Hbody, Htext. reflexivity.
Qed.

(** A request at the limit within the period: rejected, nothing written. *)
Lemma handler_rejects w now req db uid acct :
  authenticate w req = inr uid ->
  users db !! uid = Some acct ->
  now < period_reset_at acct ->
  allowance (plan acct) <= usage_count acct ->
  handler w now req db =
  (db, mkResponse 429 (QuotaBody "Usage limit exceeded" (plan acct)
                                 (usage_count acct) (allowance (plan acct)))).
Proof.
  intros Hauth Hacct Hnow Hle.
  unfold handler, try_catch, prepare. rewrite Hauth. munfold.
  rewrite Hacct, checkAndReset_before by exact Hnow.
  destruct (Z.leb_spec (allowance (plan acct)) (usage_count acct)); [| lia].
  reflexivity.
Qed.


Lemma serve_accepts w uid calls :
  forall db acct,
    users db !! uid = Some acct ->
    usage_count acct + Z.of_nat (length calls) <= allowance (plan acct) ->
    Forall (passes w uid (period_reset_at acct)) calls ->
    exists db' resps,
      serve w calls db = (db', resps) /\
      Forall (fun r => status r = 200) resps /\
      users db' !! uid =
        Some (set_usage_count (usage_count acct + Z.of_nat (length calls)) acct).
Proof.
  induction calls as [| [now req] calls IH]; intros db acct Hacct Hroom Hall.
  - exists db, []. simpl. repeat split; [constructor |].
    rewrite Hacct. f_equal. destruct acct; unfold set_usage_count; simpl.
    f_equal. lia.
  - apply Forall_cons in Hall as [(Hnow & Hauth & b & text & Hb & Htext) Hall].
    simpl in Hnow, Hauth, Hb. simpl length in Hroom.
    simpl. erewrite handler_accepts by (eauto; lia).
    set (db1 := mkDatabase _ _).
    destruct (IH db1 (set_usage_count (usage_count acct + 1) acct))
      as (db' & resps & Hserve & H200 & Hfinal).
    + unfold db1. simpl. by rewrite lookup_alter_eq, Hacct.
    + simpl. lia.
    + exact Hall.
    + rewrite Hserve. exists db', (mkResponse 200
        (ResultBody text (usage_count acct + 1) (allowance (plan acct))
                    (plan acct)) :: resps).
      repeat split; [by constructor |].
      rewrite Hfinal. unfold set_usage_count. simpl. do 2 f_equal. lia.
Qed.

(** C1: from a fresh period ([usage_count = 0]), [allowance p] requests that
    get through within the period are all answered 200 and leave
    [usage_count = allowance p]; one more request is answered 429 with the
    plan, the usage and the limit, and leaves the database as it is. *)
Theorem tryConsume_allowance w db uid acct calls :
  users db !! uid = Some acct ->
  usage_count acct = 0 ->
  Z.of_nat (length calls) = allowance (plan acct) ->
  Forall (passes w uid (period_reset_at acct)) calls ->
  exists db' resps,
    serve w calls db = (db', resps) /\
    length resps = length calls /\
    Forall (fun r => status r = 200) resps /\
    usage_count <$> users db' !! uid = Some (allowance (plan acct)) /\
    forall now req,
      now < period_reset_at acct ->
      authenticate w req = inr uid ->
      handler w now req db' =
      (db', mkResponse 429 (QuotaBody "Usage limit exceeded" (plan acct)
                              (allowance (plan acct)) (allowance (plan acct)))).
Proof.
  intros Hacct Hzero Hlen Hall.
  destruct (serve_accepts w uid calls db acct Hacct ltac:(lia) Hall)
    as (db' & resps & Hserve & H200 & Hfinal).
  rewrite Hzero, Hlen in Hfinal. simpl in Hfinal.
  exists db', resps. repeat split; try done.
  - clear -Hserve. revert db db' resps Hserve.
    induction calls as [| [now req] calls IH]; intros db db' resps Hserve;
      simpl in Hserve.
    + by injection Hserve as _ <-.
    + destruct (handler w now req db) as [db1 r].
      destruct (serve w calls db1) as [db2 rs] eqn:Hrest.
      injection Hserve as _ <-. simpl. f_equal. by eapply IH.
  - by rewrite Hfinal.
  - intros now req Hnow Hauth.
    by rewrite (handler_rejects w now req db' uid _ Hauth Hfinal).
Qed.

Lemma tryConsume_allowance_witness :
  exists db' resps,
    serve Fixtures.world0
      [(Fixtures.jan15, Fixtures.upload); (Fixtures.jan15 + 1, Fixtures.upload);
       (Fixtures.jan15 + 2, Fixtures.upload)]
      (Fixtures.account free 0 Fixtures.feb1) = (db', resps) /\
    length resps = 3%nat /\
    Forall (fun r => status r = 200) resps /\
    usage_count <$> users db' !! "u1" = Some 3 /\
    forall now req,
      now < Fixtures.feb1 ->
      authenticate Fixtures.world0 req = inr "u1" ->
      handler Fixtures.world0 now req db' =
      (db', mkResponse 429 (QuotaBody "Usage limit exceeded" free 3 3)).
Proof.
  apply (tryConsume_allowance Fixtures.world0
           (Fixtures.account free 0 Fixtures.feb1) "u1"
           (mkProfile "u1" free 0 Fixtures.feb1)).
  - vm_compute. reflexivity.
  - reflexivity.
  - reflexivity.
  - repeat constructor; simpl;
      try (eexists _, _; split; [reflexivity | vm_compute; reflexivity]).
Defined.

(** C2: before the boundary [checkAndReset] leaves the database as it is and
    reads the stored usage; at or after the boundary the row gets
    [usage_count = 0] and, as [period_reset_at], local midnight of day 1 of
    the month after the one of [now], a value that depends on [now] alone.
    (Years 0 to 99, which the [Date] constructor reads as 19xx, are left
    aside.)  [canAnalyze] writes the same. *)
Theorem checkAndReset_spec w now uid profile db :
  users db !! uid = Some profile ->
  (now < period_reset_at profile ->
   checkAndReset w now uid profile db = (db, Value (usage_count profile))) /\
  (period_reset_at profile <= now ->
   ~ (0 <= getFullYear (LocalTZA w) now <= 99) ->
   exists db',
     checkAndReset w now uid profile db = (db', Value 0) /\
     users db' !! uid =
       Some (mkProfile (id profile) (plan profile) 0 (nextReset w now)) /\
     (forall other, other <> uid -> users db' !! other = users db !! other) /\
     analysis_history db' = analysis_history db /\
     now < nextReset w now /\
     getDate (LocalTZA w) (nextReset w now) = 1 /\
     TimeWithinDay (LocalTime (LocalTZA w) (nextReset w now)) = 0 /\
     getMonth (LocalTZA w) (nextReset w now) =
       (getMonth (LocalTZA w) now + 1) mod 12 /\
     getFullYear (LocalTZA w) (nextReset w now) =
       getFullYear (LocalTZA w) now + (getMonth (LocalTZA w) now + 1) / 12) /\
  (canAnalyze w now uid db).1 = (checkAndReset w now uid profile db).1.
Proof.
  intros Hrow. split; [| split].
  - apply checkAndReset_before.
  - intros Hle Hyear. eexists. split; [by apply checkAndReset_after |].
    simpl. split; [by rewrite lookup_alter_eq, Hrow |].
    split; [intros other Hne; by rewrite lookup_alter_ne |].
    split; [reflexivity |].
    apply (newDate_next_month (LocalTZA w) now Hyear).
  - unfold canAnalyze, checkAndReset. munfold. rewrite Hrow.
    by destruct (period_reset_at profile <=? now).
Qed.

Lemma checkAndReset_spec_witness :
  checkAndReset Fixtures.world0 Fixtures.jan1 "u1"
    (mkProfile "u1" free 2 Fixtures.feb1) (Fixtures.account free 2 Fixtures.feb1)
  = (Fixtures.account free 2 Fixtures.feb1, Value 2) /\
  exists db',
    checkAndReset Fixtures.world0 Fixtures.feb15 "u1"
      (mkProfile "u1" free 2 Fixtures.feb1)
      (Fixtures.account free 2 Fixtures.feb1) = (db', Value 0) /\
    users db' !! "u1" = Some (mkProfile "u1" free 0 1740787200000).
Proof.
  split.
  - apply (checkAndReset_spec Fixtures.world0 Fixtures.jan1 "u1"
             (mkProfile "u1" free 2 Fixtures.feb1)
             (Fixtures.account free 2 Fixtures.feb1)).
    + vm_compute. reflexivity.
    + reflexivity.
  - destruct (checkAndReset_spec Fixtures.world0 Fixtures.feb15 "u1"
                (mkProfile "u1" free 2 Fixtures.feb1)
                (Fixtures.account free 2 Fixtures.feb1)) as (_ & Hafter & _).
    + vm_compute. reflexivity.
    + destruct Hafter as (db' & Hrun & Hrow & _).
      * vm_compute. discriminate.
      * vm_compute. intros [_ Hle]. apply Hle. reflexivity.
      * exists db'. split; [exact Hrun | exact Hrow].
Defined.

(** The reset is written before the limit check and before the analysis, so
    a request that fails afterwards has still rolled the period over: here a
    request without a video, answered 400, takes the usage from 2 to 0. *)
Lemma failure_after_reset_modifies_usage :
  let '(db', r) := handler Fixtures.world0 Fixtures.feb15 Fixtures.empty_body
                           (Fixtures.account free 2 Fixtures.feb1) in
  status r = 400 /\
  usage_count <$> users (Fixtures.account free 2 Fixtures.feb1) !! "u1" = Some 2 /\
  usage_count <$> users db' !! "u1" = Some 0.
Proof. vm_compute. repeat split; reflexivity. Qed.

(** C3 (amended): a request that is not answered with a result never
    increments the usage.  It leaves the database as it is, or, when [now]
    has reached [period_reset_at], its only write is the period reset of
    [checkAndReset]. *)
Theorem failure_keeps_usage w now req db :
  is_success (handler w now req db).2 = false ->
  (handler w now req db).1 = db \/
  exists uid acct,
    authenticate w req = inr uid /\
    users db !! uid = Some acct /\
    period_reset_at acct <= now /\
    (handler w now req db).1 =
      mkDatabase (alter (set_reset 0 (nextReset w now)) uid (users db))
                 (analysis_history db).
Proof.
  unfold handler. destruct (authenticate w req) as [r | uid] eqn:Hauth;
    [by left |].
  unfold try_catch, prepare. munfold.
  destruct (users db !! uid) as [acct |] eqn:Hacct; [| by left].
  destruct (Z.le_gt_cases (period_reset_at acct) now) as [Hle | Hlt].
  - rewrite checkAndReset_after by exact Hle. intros Hfail.
    right. exists uid, acct. repeat split; try done.
    pose proof (allowance_pos (plan acct)).
    destruct (Z.leb_spec (allowance (plan acct)) 0); [lia |].
    destruct (parseBody req) as [b | |]; try done.
    destruct (analyse w b); try done.
  - rewrite checkAndReset_before by lia. intros Hfail. left.
    destruct (Z.leb_spec (allowance (plan acct)) (usage_count acct)); [done |].
    destruct (parseBody req) as [b | |]; try done.
    destruct (analyse w b); try done.
Qed.

Lemma failure_keeps_usage_witness :
  (handler Fixtures.world0 Fixtures.jan15 Fixtures.empty_body
           (Fixtures.account free 2 Fixtures.feb1)).1
  = Fixtures.account free 2 Fixtures.feb1 \/
  exists uid acct,
    authenticate Fixtures.world0 Fixtures.empty_body = inr uid /\
    users (Fixtures.account free 2 Fixtures.feb1) !! uid = Some acct /\
    period_reset_at acct <= Fixtures.jan15 /\
    (handler Fixtures.world0 Fixtures.jan15 Fixtures.empty_body
             (Fixtures.account free 2 Fixtures.feb1)).1 =
      mkDatabase
        (alter (set_reset 0 (nextReset Fixtures.world0 Fixtures.jan15)) uid
               (users (Fixtures.account free 2 Fixtures.feb1)))
        (analysis_history (Fixtures.account free 2 Fixtures.feb1)).
Proof.
  apply (failure_keeps_usage Fixtures.world0 Fixtures.jan15
           Fixtures.empty_body (Fixtures.account free 2 Fixtures.feb1)).
  vm_compute. reflexivity.
Defined.

(** *** Two requests for the last unit *)

(** Running a request through its phases without interruption is the
    handler. *)
Lemma handler_steps w now req db :
  (let '(db1, ph) := step w (Arrived now req) db in step w ph db1) =
  (let '(db', r) := handler w now req db in (db', Answered r)).
Proof.
  unfold step, handler. destruct (authenticate w req) as [r | uid]; [done |].
  unfold try_catch. unfold mbind at 1. unfold M_bind.
  destruct (prepare w now uid req db) as [db1 [p | r | e]]; try done.
Qed.

Lemma run_serial w a b db :
  run w [false; false; true; true] (Arrived a.1 a.2) (Arrived b.1 b.2) db =
  (let '(db1, ra) := handler w a.1 a.2 db in
   let '(db2, rb) := handler w b.1 b.2 db1 in
   (db2, Answered ra, Answered rb)).
Proof.
  cbn [run].
  pose proof (handler_steps w a.1 a.2 db) as Ha.
  destruct (step w (Arrived a.1 a.2) db) as [db1 pa].
  destruct (step w pa db1) as [db1' pa'].
  destruct (handler w a.1 a.2 db) as [dba ra]. injection Ha as -> ->.
  pose proof (handler_steps w b.1 b.2 dba) as Hb.
  destruct (step w (Arrived b.1 b.2) dba) as [db2 pb].
  destruct (step w pb db2) as [db2' pb'].
  destruct (handler w b.1 b.2 dba) as [dbb rb]. by injection Hb as -> ->.
Qed.

(** The handler reads [usage_count], analyses, and then writes the value it
    read plus one.  With one unit left and the two requests interleaved
    (read, read, write, write) both are answered 200, and the usage ends at
    the limit: one increment is lost. *)
Lemma interleaved_requests_both_succeed :
  let '(db', a, b) :=
    run Fixtures.world0 [false; true; false; true]
        (Arrived Fixtures.jan15 Fixtures.upload)
        (Arrived Fixtures.jan15 Fixtures.upload)
        (Fixtures.account free 2 Fixtures.feb1) in
  allowance free - 2 = 1 /\
  a = Answered (mkResponse 200 (ResultBody "1. VISUAL SPECS" 3 3 free)) /\
  b = Answered (mkResponse 200 (ResultBody "1. VISUAL SPECS" 3 3 free)) /\
  usage_count <$> users db' !! "u1" = Some 3.
Proof. vm_compute. repeat split; reflexivity. Qed.

(** C4 (amended): with one unit left, two requests that get through and are
    served one after the other end in one success and one [429], and the
    usage ends at the limit.  The handler itself does not make its read and
    its write one transaction. *)
Theorem serial_requests_one_success w db uid acct a b :
  users db !! uid = Some acct ->
  allowance (plan acct) - usage_count acct = 1 ->
  passes w uid (period_reset_at acct) a ->
  passes w uid (period_reset_at acct) b ->
  exists db' text,
    run w [false; false; true; true] (Arrived a.1 a.2) (Arrived b.1 b.2) db =
    (db',
     Answered (mkResponse 200 (ResultBody text (allowance (plan acct))
                                 (allowance (plan acct)) (plan acct))),
     Answered (mkResponse 429 (QuotaBody "Usage limit exceeded" (plan acct)
                                 (allowance (plan acct))
                                 (allowance (plan acct))))) /\
    usage_count <$> users db' !! uid = Some (allowance (plan acct)).
Proof.
  intros Hacct Hone (Hnow_a & Hauth_a & ba & text & Hba & Htext)
         (Hnow_b & Hauth_b & _).
  rewrite run_serial.
  rewrite (handler_accepts w a.1 a.2 db uid acct ba text) by (done || lia).
  set (db1 := mkDatabase _ _).
  assert (users db1 !! uid =
          Some (set_usage_count (usage_count acct + 1) acct)) as Hacct1.
  { unfold db1. simpl. by rewrite lookup_alter_eq, Hacct. }
  rewrite (handler_rejects w b.1 b.2 db1 uid _ Hauth_b Hacct1)
    by (simpl; lia).
  simpl. replace (usage_count acct + 1) with (allowance (plan acct)) by lia.
  exists db1, text. split; [done |].
  rewrite Hacct1. simpl. f_equal. lia.
Qed.

Lemma serial_requests_one_success_witness :
  exists db' text,
    run Fixtures.world0 [false; false; true; true]
        (Arrived Fixtures.jan15 Fixtures.upload)
        (Arrived (Fixtures.jan15 + 1) Fixtures.upload)
        (Fixtures.account free 2 Fixtures.feb1) =
    (db',
     Answered (mkResponse 200 (ResultBody text 3 3 free)),
     Answered (mkResponse 429 (QuotaBody "Usage limit exceeded" free 3 3))) /\
    usage_count <$> users db' !! "u1" = Some 3.
Proof.
  apply (serial_requests_one_success Fixtures.world0
           (Fixtures.account free 2 Fixtures.feb1) "u1"
           (mkProfile "u1" free 2 Fixtures.feb1)
           (Fixtures.jan15, Fixtures.upload)
           (Fixtures.jan15 + 1, Fixtures.upload)).
  - vm_compute. reflexivity.
  - reflexivity.
  - repeat split;
      try (eexists _, _; split; [reflexivity | vm_compute; reflexivity]).
  - repeat split;
      try (eexists _, _; split; [reflexivity | vm_compute; reflexivity]).
Defined.

(** *** Remaining analyses *)

(** [AuthButton] and [UsageAlert] clamp at zero. *)
Lemma remaining_clamped profile :
  plan profile <> unlisted ->
  remaining (Some profile) =
    Num (Z.max 0 (allowance (plan profile) - usage_count profile)) /\
  0 <= Z.max 0 (allowance (plan profile) - usage_count profile).
Proof.
  intros Hplan. split; [| lia]. unfold remaining, or_num. simpl.
  destruct (Z.eqb_spec (usage_count profile) 0) as [-> | _];
    by destruct (plan profile).
Qed.

(** C5: [canAnalyze] returns [limit - usage_count] as it is: for a free
    account with five analyses used (a plan changed during the period) the
    remaining count is [-2], where [Math.max(0, ...)] of [AuthButton]
    gives 0. *)
Theorem canAnalyze_remaining_negative :
  (canAnalyze Fixtures.world0 Fixtures.jan15 "u1"
              (Fixtures.account free 5 Fixtures.feb1)).2 =
    Value (false, Num (-2)) /\
  remaining (Some (mkProfile "u1" free 5 Fixtures.feb1)) = Num 0 /\
  Z.max 0 (allowance free - 5) = 0.
Proof. vm_compute. repeat split; reflexivity. Qed.

End QuotaFacts.


(** ** Properties of the matcher *)
Module RegExpFacts.
Import JSString RegExp.


Lemma Consumes_refl s : Consumes s [] s.
Proof. split; simpl; [done | lia]. Qed.

Lemma Consumes_trans s1 w1 s2 w2 s3 :
  Consumes s1 w1 s2 -> Consumes s2 w2 s3 -> Consumes s1 (w1 ++ w2) s3.
Proof.
  intros [Hr1 Hp1] [Hr2 Hp2]. split.
  - by rewrite Hr1, Hr2, app_assoc.
  - rewrite length_app. lia.
Qed.

Lemma Consumes_length s w s' :
  Consumes s w s' -> length (rest s) = (length w + length (rest s'))%nat.
Proof. intros [Hr _]. by rewrite Hr, length_app. Qed.

Lemma Consumes_nil s w s' : Consumes s w s' -> pos s' = pos s -> w = [].
Proof. intros [_ Hp] Heq. destruct w; [done | simpl in Hp; lia]. Qed.

(** The consumed text is recovered from the two positions. *)
Lemma Consumes_take s w s' :
  Consumes s w s' -> take (pos s' - pos s) (rest s) = w.
Proof.
  intros [Hr Hp]. rewrite Hr, Hp.
  replace (pos s + length w - pos s)%nat with (length w) by lia.
  by rewrite take_app_length.
Qed.

Lemma in_unit_matcher p s s' :
  s' ∈ unit_matcher p s <->
  exists c rest', rest s = c :: rest' /\ p c = true /\ s' = advance s rest'.
Proof.
  unfold unit_matcher. destruct (rest s) as [| c rest'].
  - rewrite elem_of_nil. split; [done | by intros (? & ? & ? & _)].
  - destruct (p c) eqn:Hp.
    + rewrite list_elem_of_singleton. split.
      * intros ->. by exists c, rest'.
      * intros (c' & r' & [= <- <-] & _ & ->). done.
    + rewrite elem_of_nil. split; [done |].
      intros (c' & r' & [= <- <-] & Hp' & _). congruence.
Qed.

Lemma in_Char c s s' :
  s' ∈ matcher (Char c) s <->
  exists rest', rest s = c :: rest' /\ s' = advance s rest'.
Proof.
  simpl. rewrite in_unit_matcher. split.
  - intros (c' & rest' & Hr & Hc & ->). apply N.eqb_eq in Hc as <-. eauto.
  - intros (rest' & Hr & ->). exists c, rest'. by rewrite N.eqb_refl.
Qed.

Lemma in_Seq r1 r2 s s' :
  s' ∈ matcher (Seq r1 r2) s <->
  exists s1, s1 ∈ matcher r1 s /\ s' ∈ matcher r2 s1.
Proof.
  simpl. rewrite list_elem_of_bind.
  split; intros (s1 & H1 & H2); by exists s1.
Qed.

Lemma in_Alt r1 r2 s s' :
  s' ∈ matcher (Alt r1 r2) s <-> s' ∈ matcher r1 s \/ s' ∈ matcher r2 s.
Proof. simpl. apply elem_of_app. Qed.

Lemma in_Group n r s s' :
  s' ∈ matcher (Group n r) s <->
  exists s1, s1 ∈ matcher r s /\
    s' = mkState (pos s1) (rest s1)
                 ((n, take (pos s1 - pos s) (rest s)) :: caps s1).
Proof.
  simpl. rewrite list_elem_of_fmap.
  split; intros (s1 & H1 & H2); by exists s1.
Qed.


Lemma accepts_nonempty r s : accepts r s <-> matcher r s <> [].
Proof.
  unfold accepts. destruct (matcher r s) as [| s' l].
  - split; [intros [? H]; by apply elem_of_nil in H | done].
  - split; [done | intros _; exists s'; left].
Qed.

Lemma accepts_match_at r s : accepts r s <-> is_Some (match_at r s).
Proof.
  rewrite accepts_nonempty. unfold match_at.
  destruct (matcher r s); split; done.
Qed.

Lemma accepts_Lookahead r s : accepts (Lookahead r) s <-> accepts r s.
Proof.
  rewrite !accepts_nonempty. simpl. by destruct (matcher r s).
Qed.

(** *** Quantifiers *)


Lemma valid_bounds_pred min max :
  valid_bounds min max -> valid_bounds (Nat.pred min) (Nat.pred <$> max).
Proof.
  intros Hv m. destruct max as [M |]; [| done].
  intros [= <-]. specialize (Hv M eq_refl). lia.
Qed.

Section Repeat.
Variable body : mstate -> list mstate.
Hypothesis body_consumes :
  forall s s', s' ∈ body s -> exists w, Consumes s w s'.

Lemma repeat_consumes fuel : forall min max greedy s s',
  s' ∈ repeat_matcher body fuel min max greedy s -> exists w, Consumes s w s'.
Proof.
  induction fuel as [| fuel IH]; intros min max greedy s s'; simpl.
  { by rewrite elem_of_nil. }
  assert (s' ∈ (s1 ← body s;
             if Nat.eqb min 0 && Nat.eqb (pos s1) (pos s) then []
             else repeat_matcher body fuel (Nat.pred min) (Nat.pred <$> max)
                                 greedy s1) ->
          exists w, Consumes s w s') as Hmore.
  { rewrite list_elem_of_bind. intros (s1 & Hin & Hs1).
    destruct (Nat.eqb min 0 && Nat.eqb (pos s1) (pos s));
      [by apply elem_of_nil in Hin |].
    apply IH in Hin as [w2 Hw2]. apply body_consumes in Hs1 as [w1 Hw1].
    exists (w1 ++ w2). by eapply Consumes_trans. }
  assert (s' = s -> exists w, Consumes s w s') as Hstop.
  { intros ->. exists []. apply Consumes_refl. }
  destruct max as [[| M] |]; [rewrite list_elem_of_singleton; auto | |];
    (destruct (Nat.eqb min 0); simpl; [destruct greedy |]);
    rewrite ?elem_of_app, ?elem_of_cons, ?elem_of_nil;
    intuition auto.
Qed.

Lemma in_repeat fuel : forall min max greedy s s',
  valid_bounds min max ->
  (min + length (rest s) < fuel)%nat ->
  s' ∈ repeat_matcher body fuel min max greedy s <-> Iter body min max s s'.
Proof.
  induction fuel as [| fuel IH]; intros min max greedy s s' Hvalid Hfuel;
    [lia |].
  assert (s' ∈ (s1 ← body s;
             if Nat.eqb min 0 && Nat.eqb (pos s1) (pos s) then []
             else repeat_matcher body fuel (Nat.pred min) (Nat.pred <$> max)
                                 greedy s1) <->
          exists s1, s1 ∈ body s /\ ~ (min = O /\ pos s1 = pos s) /\
                     Iter body (Nat.pred min) (Nat.pred <$> max) s1 s')
    as Hmore.
  { rewrite list_elem_of_bind. split.
    - intros (s1 & Hin & Hs1). exists s1. split; [done |].
      destruct (Nat.eqb_spec min 0) as [Hmin | Hmin]; simpl in Hin.
      + destruct (Nat.eqb_spec (pos s1) (pos s)) as [Hpos | Hpos].
        * by apply elem_of_nil in Hin.
        * split; [tauto |]. apply IH in Hin; [done | |].
          -- by apply valid_bounds_pred.
          -- destruct (body_consumes _ _ Hs1) as [w Hw].
             pose proof (Consumes_length _ _ _ Hw).
             destruct Hw as [_ Hp]. destruct w; simpl in *; lia.
      + split; [tauto |]. apply IH in Hin; [done | |].
        * by apply valid_bounds_pred.
        * destruct (body_consumes _ _ Hs1) as [w Hw].
          pose proof (Consumes_length _ _ _ Hw). lia.
    - intros (s1 & Hs1 & Hne & Hiter). exists s1. split; [| done].
      destruct (body_consumes _ _ Hs1) as [w Hw].
      pose proof (Consumes_length _ _ _ Hw) as Hlen.
      destruct (Nat.eqb_spec min 0) as [Hmin | Hmin]; simpl.
      + destruct (Nat.eqb_spec (pos s1) (pos s)) as [Hpos | Hpos]; [tauto |].
        apply IH; [by apply valid_bounds_pred | | done].
        destruct Hw as [_ Hp]. destruct w; simpl in *; lia.
      + apply IH; [by apply valid_bounds_pred | lia | done]. }
  simpl. destruct max as [[| M] |].
  - specialize (Hvalid O eq_refl). assert (min = O) as -> by lia.
    rewrite list_elem_of_singleton. split.
    + intros ->. constructor.
    + inversion 1; [done | congruence].
  - destruct (Nat.eqb_spec min 0) as [-> | Hmin]; simpl.
    + destruct greedy;
        [rewrite elem_of_app, list_elem_of_singleton, Hmore
        | rewrite elem_of_cons, Hmore].
      * split.
        -- intros [(s1 & ? & ? & ?) | ->]; [by eapply Iter_step | constructor].
        -- inversion 1; subst; [by right | left; eauto].
      * split.
        -- intros [-> | (s1 & ? & ? & ?)]; [constructor | by eapply Iter_step].
        -- inversion 1; subst; [by left | right; eauto].
    + rewrite Hmore. split.
      * intros (s1 & ? & ? & ?). by eapply Iter_step.
      * inversion 1; subst; [done | eauto].
  - destruct (Nat.eqb_spec min 0) as [-> | Hmin]; simpl.
    + destruct greedy;
        [rewrite elem_of_app, list_elem_of_singleton, Hmore
        | rewrite elem_of_cons, Hmore].
      * split.
        -- intros [(s1 & ? & ? & ?) | ->]; [by eapply Iter_step | constructor].
        -- inversion 1; subst; [by right | left; eauto].
      * split.
        -- intros [-> | (s1 & ? & ? & ?)]; [constructor | by eapply Iter_step].
        -- inversion 1; subst; [by left | right; eauto].
    + rewrite Hmore. split.
      * intros (s1 & ? & ? & ?). by eapply Iter_step.
      * inversion 1; subst; [done | eauto].
Qed.
End Repeat.

Lemma unit_consumes p s s' :
  s' ∈ unit_matcher p s -> exists w, Consumes s w s'.
Proof.
  rewrite in_unit_matcher. intros (c & rest' & Hr & _ & ->).
  exists [c]. split; simpl; [done | lia].
Qed.

(** Every end state lies further on in the same input. *)
Lemma matcher_consumes r : forall s s',
  s' ∈ matcher r s -> exists w, Consumes s w s'.
Proof.
  induction r as [| c | p | r1 IH1 r2 IH2 | r1 IH1 r2 IH2
                 | r IH min max greedy | n r IH | r IH |]; intros s s'.
  - simpl. rewrite list_elem_of_singleton. intros ->.
    exists []. apply Consumes_refl.
  - apply unit_consumes.
  - apply unit_consumes.
  - rewrite in_Seq. intros (s1 & H1 & H2).
    apply IH1 in H1 as [w1 H1]. apply IH2 in H2 as [w2 H2].
    exists (w1 ++ w2). by eapply Consumes_trans.
  - rewrite in_Alt. intros [H | H]; eauto.
  - simpl. by apply repeat_consumes.
  - rewrite in_Group. intros (s1 & H1 & ->).
    apply IH in H1 as [w [Hr Hp]]. by exists w.
  - simpl. destruct (matcher r s) as [| s1 l]; [by rewrite elem_of_nil |].
    rewrite list_elem_of_singleton. intros ->.
    exists []. split; simpl; [done | lia].
  - simpl. destruct (Nat.eqb (pos s) 0); [| by rewrite elem_of_nil].
    rewrite list_elem_of_singleton. intros ->.
    exists []. apply Consumes_refl.
Qed.

Lemma in_Repeat r min max greedy s s' :
  valid_bounds min max ->
  s' ∈ matcher (Repeat r min max greedy) s <-> Iter (matcher r) min max s s'.
Proof.
  intros Hvalid. simpl. apply in_repeat; [apply matcher_consumes | done | lia].
Qed.

Lemma mstate_eq s s' :
  pos s = pos s' -> rest s = rest s' -> caps s = caps s' -> s = s'.
Proof. destruct s, s'; simpl. by intros -> -> ->. Qed.

(** Iterating a one-unit pattern: a run of matching code units whose length
    is within the bounds. *)
Lemma Iter_unit p min max s s' :
  Iter (unit_matcher p) min max s s' <->
  exists w, Consumes s w s' /\ caps s' = caps s /\
            Forall (fun c => p c = true) w /\
            (min <= length w)%nat /\
            (forall m, max = Some m -> (length w <= m)%nat).
Proof.
  split.
  - induction 1 as [max s | min max s s1 s' Hmax Hs1 _ _ IH].
    + exists []. repeat split; simpl; try done; lia.
    + apply in_unit_matcher in Hs1 as (c & rest' & Hr & Hp & ->).
      destruct IH as (w & [Hr' Hp'] & Hcaps & Hall & Hmin & Hmax').
      simpl in *. exists (c :: w). repeat split; simpl.
      * by rewrite Hr, Hr'.
      * lia.
      * done.
      * by constructor.
      * lia.
      * intros m ->. destruct m as [| m]; [done |].
        specialize (Hmax' m eq_refl). lia.
  - intros (w & Hcons & Hcaps & Hall & Hmin & Hmax).
    revert s min max Hcons Hcaps Hmin Hmax.
    induction Hall as [| c w Hc Hall IH]; intros s min max [Hr Hp] Hcaps Hmin Hmax.
    + simpl in *. assert (min = O) as -> by lia.
      replace s' with s; [constructor |].
      apply mstate_eq; [lia | done | done].
    + simpl in *. apply Iter_step with (s1 := advance s (w ++ rest s')).
      * intros ->. specialize (Hmax O eq_refl). lia.
      * apply in_unit_matcher. by exists c, (w ++ rest s').
      * simpl. lia.
      * apply IH; simpl; try done; try lia.
        -- split; simpl; [done | lia].
        -- intros m Hm. destruct max as [M |]; [| done].
           injection Hm as <-. specialize (Hmax M eq_refl). lia.
Qed.

Lemma matcher_Seq r1 r2 s :
  matcher (Seq r1 r2) s = matcher r1 s ≫= matcher r2.
Proof. reflexivity. Qed.

(** *** Literal texts *)

Lemma startsWith_nil (s : jsstring) : startsWith s [] = true.
Proof. by destruct s. Qed.

Lemma matcher_word w : forall s,
  matcher (word w) s =
  if startsWith (rest s) w
  then [mkState (pos s + length w) (drop (length w) (rest s)) (caps s)]
  else [].
Proof.
  induction w as [| c w IH]; intros s.
  - rewrite startsWith_nil. simpl. f_equal.
    apply mstate_eq; simpl; [lia | done | done].
  - change (word (c :: w)) with (Seq (Char c) (word w)).
    cbn [matcher]. unfold unit_matcher.
    destruct (rest s) as [| x r] eqn:Hr; [done |].
    cbn [startsWith]. rewrite (N.eqb_sym x c).
    destruct (N.eqb c x); [| done]. simpl.
    rewrite app_nil_r, IH. simpl.
    destruct (startsWith r w); [| done].
    f_equal. apply mstate_eq; simpl; [lia | done | done].
Qed.

(** *** Searching *)

Lemma match_at_sound r s m :
  match_at r s = Some m ->
  exists s', s' ∈ matcher r s /\
             m = mkMatch (pos s) (take (pos s' - pos s) (rest s)) (caps s').
Proof.
  unfold match_at. destruct (matcher r s) as [| s' l]; [done |].
  intros [= <-]. exists s'. split; [left | done].
Qed.

Lemma search_sound r input : forall i m,
  search r i input = Some m ->
  exists pre post,
    input = pre ++ post /\
    match_at r (mkState (i + length pre) post []) = Some m.
Proof.
  induction input as [| c input IH]; intros i m; cbn [search];
    destruct (match_at r (mkState i _ [])) as [m' |] eqn:Hm.
  - intros [= <-]. exists [], []. by rewrite Nat.add_0_r.
  - done.
  - intros [= <-]. exists [], (c :: input). by rewrite Nat.add_0_r.
  - intros Hs. apply IH in Hs as (pre & post & -> & Hs).
    exists (c :: pre), post. split; [done |].
    simpl length. by rewrite Nat.add_succ_r.
Qed.

Lemma search_complete r pre : forall i post,
  accepts r (mkState (i + length pre) post []) ->
  is_Some (search r i (pre ++ post)).
Proof.
  induction pre as [| c pre IH]; intros i post Hacc.
  - simpl in Hacc. rewrite Nat.add_0_r in Hacc.
    apply accepts_match_at in Hacc as [m Hm].
    destruct post; cbn [search app]; rewrite Hm; by eexists.
  - cbn [search app].
    destruct (match_at r (mkState i (c :: pre ++ post) [])); [by eexists |].
    apply IH. simpl in Hacc. by rewrite Nat.add_succ_r in Hacc.
Qed.

End RegExpFacts.

(** ** Properties of [trim] *)
Module JSStringFacts.
Import JSString.

Lemma trimStart_split s : exists ws, s = ws ++ trimStart s /\ blank ws.
Proof.
  induction s as [| c s (ws & Hs & Hws)]; simpl.
  - exists []. split; [done | constructor].
  - destruct (isWhiteSpace c) eqn:Hc.
    + exists (c :: ws). split; [simpl; congruence | by constructor].
    + exists []. split; [done | constructor].
Qed.

Lemma trimStart_head s c t : trimStart s = c :: t -> isWhiteSpace c = false.
Proof.
  induction s as [| x s IH]; simpl; [done |].
  destruct (isWhiteSpace x) eqn:Hx; [done |]. by intros [= <- _].
Qed.

Lemma trimStart_fixed c t : isWhiteSpace c = false -> trimStart (c :: t) = c :: t.
Proof. intros Hc. simpl. by rewrite Hc. Qed.

Lemma trimStart_blank ws s : blank ws -> trimStart (ws ++ s) = trimStart s.
Proof. induction 1 as [| c ws Hc _ IH]; simpl; [done | by rewrite Hc]. Qed.

Lemma trimStart_all_blank s : blank s -> trimStart s = [].
Proof. intros Hs. rewrite <- (app_nil_r s). by rewrite trimStart_blank. Qed.

(** Once something visible has been reached nothing more is dropped. *)
Lemma trimStart_app s t : trimStart s <> [] -> trimStart (s ++ t) = trimStart s ++ t.
Proof.
  induction s as [| c s IH]; simpl; [done |].
  destruct (isWhiteSpace c); [done |]. by intros _.
Qed.

Lemma trimEnd_split s : exists ws, s = trimEnd s ++ ws /\ blank ws.
Proof.
  unfold trimEnd. destruct (trimStart_split (rev s)) as (ws & Hs & Hws).
  exists (rev ws). split.
  - rewrite <- (rev_involutive s), Hs at 1. by rewrite rev_app_distr.
  - unfold blank. by apply Forall_rev.
Qed.

Lemma trimEnd_last s t c : trimEnd s = t ++ [c] -> isWhiteSpace c = false.
Proof.
  unfold trimEnd. intros H. apply (f_equal (@rev N)) in H.
  rewrite rev_involutive, rev_app_distr in H. simpl in H.
  by eapply trimStart_head.
Qed.

Lemma trimEnd_fixed t c : isWhiteSpace c = false -> trimEnd (t ++ [c]) = t ++ [c].
Proof.
  intros Hc. unfold trimEnd. rewrite rev_app_distr. simpl.
  rewrite Hc. simpl. by rewrite rev_involutive.
Qed.

Lemma trimEnd_blank s ws : blank ws -> trimEnd (s ++ ws) = trimEnd s.
Proof.
  intros Hws. unfold trimEnd. rewrite rev_app_distr.
  rewrite trimStart_blank; [done |]. by apply Forall_rev.
Qed.

Lemma trimEnd_app s t : trimEnd t <> [] -> trimEnd (s ++ t) = s ++ trimEnd t.
Proof.
  unfold trimEnd. intros Ht. rewrite rev_app_distr, trimStart_app.
  - by rewrite rev_app_distr, rev_involutive.
  - intros H. apply Ht. by rewrite H.
Qed.

Lemma trim_blank s : blank s -> trim s = [].
Proof. intros Hs. unfold trim. by rewrite trimStart_all_blank. Qed.

(** A trimmed text is empty or has visible code units at both ends. *)
Lemma trim_ends s :
  trim s = [] \/
  exists c t d, isWhiteSpace c = false /\ isWhiteSpace d = false /\
              trim s = c :: t /\ exists u, trim s = u ++ [d].
Proof.
  unfold trim. destruct (trimStart s) as [| c t] eqn:Hs; [by left |].
  pose proof (trimStart_head _ _ _ Hs) as Hc.
  destruct (trimEnd_split (c :: t)) as (ws & Hsplit & Hws).
  destruct (trimEnd (c :: t)) as [| c' t'] eqn:He.
  - simpl in Hsplit. subst ws. apply Forall_cons in Hws as [Hws _]. congruence.
  - right. injection Hsplit as <- _.
    destruct (exists_last (l := c :: t')) as (u & d & Hu); [done |].
    exists c, t', d. split; [done |]. split; [| split; [done | by exists u]].
    rewrite Hu in He. by eapply trimEnd_last.
Qed.

Lemma trim_idemp s : trim (trim s) = trim s.
Proof.
  destruct (trim_ends s) as [-> | (c & t & d & Hc & Hd & Hs & u & Hu)];
    [done |].
  unfold trim at 1. rewrite Hs at 1. rewrite trimStart_fixed by done.
  rewrite <- Hs, Hu. by apply trimEnd_fixed.
Qed.

End JSStringFacts.

(** ** Properties of the segmenter *)
Module AnalysisViewFacts.
Import JSString JSStringFacts RegExp RegExpFacts AnalysisView.

Lemma Forall_eqb_replicate c (w : jsstring) :
  Forall (fun x => N.eqb c x = true) w -> w = replicate (length w) c.
Proof.
  induction 1 as [| x w Hx _ IH]; [done |].
  apply N.eqb_eq in Hx as <-. simpl. by rewrite <- IH.
Qed.

Lemma Forall_replicate_eqb c k :
  Forall (fun x => N.eqb c x = true) (replicate k c).
Proof. induction k; constructor; [apply N.eqb_refl | done]. Qed.

Lemma valid_bounds_None min : valid_bounds min None.
Proof. by intros m. Qed.

Lemma accepts_headingMarker s : accepts headingMarker s <-> HeadingMarker (rest s).
Proof.
  unfold accepts, headingMarker, HeadingMarker. split.
  - intros (s' & Hs'). apply in_Seq in Hs' as (s1 & H1 & H2).
    apply in_Repeat in H1; [| intros m [= <-]; lia].
    change (matcher (Char HASH)) with (unit_matcher (N.eqb HASH)) in H1.
    apply Iter_unit in H1 as (w & [Hr Hp] & _ & Hall & Hmin & Hmax).
    apply in_Char in H2 as (tail & Hr2 & _).
    exists (length w), tail. split; [specialize (Hmax 3%nat eq_refl); lia |].
    rewrite Hr, Hr2. f_equal. by apply Forall_eqb_replicate.
  - intros (k & tail & Hk & Hl).
    exists (mkState (S (pos s + k)) tail (caps s)). apply in_Seq.
    exists (mkState (pos s + k) (SPACE :: tail) (caps s)). split.
    + apply in_Repeat; [intros m [= <-]; lia |].
      change (matcher (Char HASH)) with (unit_matcher (N.eqb HASH)).
      apply Iter_unit. exists (replicate k HASH).
      split; [split; simpl; [done | by rewrite length_replicate] |].
      split; [done |]. split; [apply Forall_replicate_eqb |].
      rewrite length_replicate. split; [lia | intros m [= <-]; lia].
    + apply in_Char. by exists tail.
Qed.

Lemma accepts_numberMarker s : accepts numberMarker s <-> NumberMarker (rest s).
Proof.
  unfold accepts, numberMarker, NumberMarker. split.
  - intros (s' & Hs'). apply in_Seq in Hs' as (s1 & H1 & H2).
    apply in_Repeat in H1; [| apply valid_bounds_None].
    change (matcher (Class isDigit)) with (unit_matcher isDigit) in H1.
    apply Iter_unit in H1 as (w & [Hr Hp] & _ & Hall & Hmin & _).
    apply in_Seq in H2 as (s2 & H2 & H3).
    apply in_Char in H2 as (tail2 & Hr2 & ->).
    apply in_Char in H3 as (tail & Hr3 & _). simpl in Hr3.
    exists w, tail. split; [by destruct w; simpl in *; [lia |] |].
    split; [done |]. by rewrite Hr, Hr2, Hr3.
  - intros (w & tail & Hne & Hall & Hl).
    exists (mkState (S (S (pos s + length w))) tail (caps s)). apply in_Seq.
    exists (mkState (pos s + length w) (DOT :: SPACE :: tail) (caps s)). split.
    + apply in_Repeat; [apply valid_bounds_None |].
      change (matcher (Class isDigit)) with (unit_matcher isDigit).
      apply Iter_unit. exists w.
      split; [by split |]. split; [done |]. split; [done |].
      split; [destruct w; simpl; [done | lia] | done].
    + apply in_Seq.
      exists (mkState (S (pos s + length w)) (SPACE :: tail) (caps s)).
      split; apply in_Char; eexists; by split.
Qed.

Lemma accepts_LF_then r s :
  accepts (Seq (Char LF) r) s <->
  exists l', rest s = LF :: l' /\ accepts r (advance s l').
Proof.
  unfold accepts. split.
  - intros (s' & Hs'). apply in_Seq in Hs' as (s1 & H1 & H2).
    apply in_Char in H1 as (l' & Hr & ->). eauto.
  - intros (l' & Hr & s' & Hs'). exists s'. apply in_Seq.
    exists (advance s l'). split; [| done]. apply in_Char. eauto.
Qed.

(** The lookahead of the split pattern matches exactly at the boundaries of
    the specification. *)
Lemma accepts_boundaryRegex s : accepts boundaryRegex s <-> Boundary (rest s).
Proof.
  unfold boundaryRegex. rewrite accepts_Lookahead.
  unfold Boundary, Marker. split.
  - intros (s' & Hs'). apply in_Alt in Hs' as [Hs' | Hs'].
    + destruct (proj1 (accepts_LF_then _ _) (ex_intro _ s' Hs'))
        as (l' & Hr & Hacc).
      apply accepts_headingMarker in Hacc. eauto.
    + destruct (proj1 (accepts_LF_then _ _) (ex_intro _ s' Hs'))
        as (l' & Hr & Hacc).
      apply accepts_numberMarker in Hacc. eauto.
  - intros (l' & Hr & [Hm | Hm]).
    + destruct (proj2 (accepts_LF_then headingMarker s)) as (s' & Hs').
      { exists l'. split; [done |]. by apply accepts_headingMarker. }
      exists s'. apply in_Alt. by left.
    + destruct (proj2 (accepts_LF_then numberMarker s)) as (s' & Hs').
      { exists l'. split; [done |]. by apply accepts_numberMarker. }
      exists s'. apply in_Alt. by right.
Qed.

Lemma atBoundary_spec input : atBoundary input = true <-> Boundary input.
Proof.
  unfold atBoundary. rewrite bool_decide_eq_true, <- accepts_match_at.
  apply accepts_boundaryRegex.
Qed.

Lemma match_at_Lookahead r s m :
  match_at (Lookahead r) s = Some m -> matched m = [].
Proof.
  unfold match_at. simpl. destruct (matcher r s); simpl; [done |].
  intros [= <-]. simpl. by rewrite Nat.sub_diag.
Qed.

(** A match of the split pattern is empty, and whether there is one at a
    position depends on the text from there on alone. *)
Lemma match_at_boundary q input :
  match match_at boundaryRegex (mkState q input []) with
  | Some m => atBoundary input = true /\ matched m = []
  | None => atBoundary input = false
  end.
Proof.
  pose proof (accepts_match_at boundaryRegex (mkState q input [])) as Hacc.
  rewrite accepts_boundaryRegex in Hacc. simpl rest in Hacc.
  rewrite <- atBoundary_spec in Hacc.
  destruct (match_at boundaryRegex (mkState q input [])) as [m |] eqn:Hm.
  - split; [apply Hacc; eauto |]. by eapply match_at_Lookahead.
  - destruct (atBoundary input); [| done].
    destruct (proj1 Hacc eq_refl) as [? ?]. done.
Qed.

(** *** The split *)

Lemma split_loop_step r fuel q chunk c input :
  split_loop r (S fuel) q chunk (c :: input) =
  match match_at r (mkState q (c :: input) []) with
  | None => split_loop r fuel (S q) (chunk ++ [c]) input
  | Some m =>
      let e := length (matched m) in
      if Nat.eqb e 0 && Nat.eqb (length chunk) 0 then
        split_loop r fuel (S q) (chunk ++ [c]) input
      else chunk :: split_loop r fuel (q + e) [] (drop e (c :: input))
  end.
Proof. reflexivity. Qed.

Lemma split_loop_cut input : forall fuel q chunk,
  (2 * length input + 1 <= fuel)%nat ->
  split_loop boundaryRegex fuel q chunk input = cut chunk input.
Proof.
  induction input as [| c input IH]; intros fuel q chunk Hfuel.
  - destruct fuel; [simpl in Hfuel; lia | reflexivity].
  - destruct fuel as [| fuel]; [simpl in Hfuel; lia |].
    simpl length in Hfuel. rewrite split_loop_step. cbn [cut].
    pose proof (match_at_boundary q (c :: input)) as Hm.
    destruct (match_at boundaryRegex (mkState q (c :: input) [])) as [m |].
    + destruct Hm as [Hb ->]. rewrite Hb. simpl length. simpl andb.
      destruct (Nat.eqb (length chunk) 0).
      * apply IH. lia.
      * simpl. f_equal. rewrite Nat.add_0_r.
        destruct fuel as [| fuel]; [lia |]. rewrite split_loop_step.
        pose proof (match_at_boundary q (c :: input)) as Hm'.
        destruct (match_at boundaryRegex (mkState q (c :: input) []))
          as [m' |]; [| congruence].
        destruct Hm' as [_ ->]. simpl. apply IH. lia.
    + rewrite Hm. simpl. apply IH. lia.
Qed.

Lemma rawSections_cut content : rawSections content = cut [] content.
Proof.
  unfold rawSections, split. destruct content as [| c content].
  - pose proof (match_at_boundary 0 []) as Hm.
    destruct (match_at boundaryRegex (mkState 0 [] [])) as [m |]; [| done].
    destruct Hm as [Hb _]. apply atBoundary_spec in Hb as (l' & Hl & _). done.
  - by apply split_loop_cut.
Qed.

(** No content is lost: the chunks make up the text. *)
Lemma cut_concat input : forall chunk,
  concat (cut chunk input) = chunk ++ input.
Proof.
  induction input as [| c input IH]; intros chunk; simpl.
  - by rewrite !app_nil_r.
  - destruct (atBoundary (c :: input) && negb (Nat.eqb (length chunk) 0)).
    + simpl. by rewrite IH.
    + by rewrite IH, <- app_assoc.
Qed.

Lemma cut_head input : forall chunk,
  exists tail chunks, cut chunk input = (chunk ++ tail) :: chunks.
Proof.
  induction input as [| c input IH]; intros chunk; simpl.
  - exists [], []. by rewrite app_nil_r.
  - destruct (atBoundary (c :: input) && negb (Nat.eqb (length chunk) 0)).
    + exists [], (cut [c] input). by rewrite app_nil_r.
    + destruct (IH (chunk ++ [c])) as (tail & chunks & ->).
      exists (c :: tail), chunks. by rewrite <- app_assoc.
Qed.

(** Every chunk but the first starts at a boundary. *)
Lemma cut_starts input : forall chunk k,
  (0 < k < length (cut chunk input))%nat ->
  Boundary (concat (drop k (cut chunk input))).
Proof.
  induction input as [| c input IH]; intros chunk k Hk; simpl in *; [lia |].
  destruct (atBoundary (c :: input) && negb (Nat.eqb (length chunk) 0)) eqn:Hb.
  - destruct k as [| [| k]]; [lia | |]; simpl in *.
    + rewrite drop_0, cut_concat. apply andb_true_iff in Hb as [Hb _].
      by apply atBoundary_spec.
    + apply (IH [c] (S k)). lia.
  - by apply IH.
Qed.

(** No boundary lies inside a chunk. *)
Lemma cut_interior input : forall chunk k ch x y,
  cut chunk input !! k = Some ch ->
  ch = x ++ y -> x <> [] -> y <> [] ->
  (k = 0%nat -> (length chunk <= length x)%nat) ->
  ~ Boundary (y ++ concat (drop (S k) (cut chunk input))).
Proof.
  induction input as [| c input IH]; intros chunk k ch x y Hk Hch Hx Hy Hfirst.
  - simpl in Hk. destruct k; [| done]. injection Hk as <-.
    specialize (Hfirst eq_refl). rewrite Hch, length_app in Hfirst.
    destruct y; [done | simpl in Hfirst; lia].
  - simpl in Hk |- *.
    destruct (atBoundary (c :: input) && negb (Nat.eqb (length chunk) 0)) eqn:Hb.
    + destruct k as [| k]; simpl in Hk.
      * injection Hk as <-. specialize (Hfirst eq_refl).
        rewrite Hch, length_app in Hfirst.
        destruct y; [done | simpl in Hfirst; lia].
      * simpl. apply (IH [c] k ch x y Hk Hch Hx Hy).
        intros _. destruct x; [done | simpl; lia].
    + destruct (decide (k = 0%nat /\ length x = length chunk)) as [[-> Hlen] | Hne].
      * destruct (cut_head input (chunk ++ [c])) as (tail & chunks & Hcut).
        rewrite Hcut in Hk |- *. injection Hk as <-. simpl.
        rewrite <- app_assoc in Hch.
        apply app_inj_1 in Hch as [<- <-]; [| done].
        pose proof (cut_concat input (chunk ++ [c])) as Hcat.
        rewrite Hcut in Hcat. simpl in Hcat.
        rewrite <- !app_assoc in Hcat. apply app_inv_head in Hcat.
        rewrite drop_0, <- app_assoc, Hcat. simpl.
        rewrite <- atBoundary_spec.
        destruct chunk; [done |]. simpl in Hb. rewrite andb_true_r in Hb.
        by rewrite Hb.
      * apply (IH (chunk ++ [c]) k ch x y Hk Hch Hx Hy).
        intros ->. specialize (Hfirst eq_refl). rewrite length_app. simpl. lia.
Qed.

(** *** The sections *)

Lemma sections_eq content :
  sections content =
  filter (fun s => (0 < length s)%nat) (trim <$> cut [] content).
Proof. unfold sections. by rewrite rawSections_cut. Qed.

Lemma blank_chunks (chunks : list jsstring) :
  Forall blank chunks ->
  filter (fun s => (0 < length s)%nat) (trim <$> chunks) = [].
Proof.
  induction 1 as [| ch chunks Hch _ IH]; [done |].
  rewrite fmap_cons, (trim_blank ch Hch).
  rewrite filter_cons_False; [exact IH | simpl; lia].
Qed.

Lemma blank_concat (chunks : list jsstring) :
  blank (concat chunks) -> Forall blank chunks.
Proof.
  induction chunks as [| ch chunks IH]; simpl; [constructor |].
  unfold blank at 1. rewrite Forall_app. intros [H1 H2].
  constructor; [done | by apply IH].
Qed.

Lemma sections_blank content : blank content -> sections content = [].
Proof.
  intros Hblank. rewrite sections_eq. apply blank_chunks, blank_concat.
  by rewrite cut_concat.
Qed.

(** C10: every section is a non-empty, trimmed text; an empty or blank
    document has no sections. *)
Theorem sections_nonempty content :
  Forall (fun s => s <> [] /\ trim s = s) (sections content) /\
  (blank content -> sections content = []) /\
  sections [] = [].
Proof.
  split; [| split].
  - unfold sections. apply Forall_forall. intros s Hs.
    apply list_elem_of_filter in Hs as [Hlen Hs].
    apply list_elem_of_fmap in Hs as (chunk & -> & _).
    split; [intros H; rewrite H in Hlen; simpl in Hlen; lia | apply trim_idemp].
  - apply sections_blank.
  - reflexivity.
Qed.

Lemma trim_nil_blank s : trim s = [] -> blank s.
Proof.
  unfold trim. intros Ht.
  destruct (trimStart_split s) as (ws1 & Hs1 & Hws1).
  destruct (trimEnd_split (trimStart s)) as (ws2 & Hs2 & Hws2).
  rewrite Ht in Hs2. simpl in Hs2. rewrite Hs1, Hs2.
  by apply Forall_app.
Qed.

(** What [trim] does to a chunk that is not blank: it takes the white
    space away at both ends, and nothing else. *)
Lemma trim_TrimmedChunk s : ~ blank s -> TrimmedChunk s (trim s).
Proof.
  intros Hs.
  destruct (trimStart_split s) as (before & Hbefore & Hblank1).
  destruct (trimEnd_split (trimStart s)) as (after & Hafter & Hblank2).
  exists before, after. fold (trim s) in Hafter.
  split; [by rewrite <- Hafter |]. split; [done |]. split; [done |].
  destruct (trim_ends s) as [Hnil | (c & t & d & Hc & Hd & Hct & u & Hud)].
  - destruct Hs. by apply trim_nil_blank.
  - split; [by exists c, t | by exists u, d].
Qed.

(** Blank chunks are dropped; the other ones are kept, trimmed, in their
    order. *)
Lemma kept_TrimmedChunk (chunks : list jsstring) :
  Forall2 TrimmedChunk (filter (fun chunk => ~ blank chunk) chunks)
          (kept chunks).
Proof.
  unfold kept. induction chunks as [| chunk chunks IH]; [constructor |].
  rewrite fmap_cons. destruct (decide (blank chunk)) as [Hblank | Hvisible].
  - rewrite filter_cons_False by (by intros H; apply H).
    rewrite (trim_blank chunk Hblank).
    rewrite filter_cons_False by (simpl; lia). exact IH.
  - rewrite filter_cons_True by done.
    rewrite filter_cons_True.
    + constructor; [by apply trim_TrimmedChunk | exact IH].
    + destruct (trim chunk) eqn:Ht; [| simpl; lia].
      destruct Hvisible. by apply trim_nil_blank.
Qed.

(** C6: the chunks make up the document; every chunk but the first starts
    at a boundary (a newline followed by one to three [#] and a space, or by
    a decimal number, a period and a space), and no boundary lies inside a
    chunk.  The sections are the chunks that are not blank, in the same
    order, each without the white space at its two ends: a section begins
    and ends with a code unit that is no white space, and its chunk is the
    section with white space only in front and behind; a blank chunk, which
    trimming would leave empty, gives no section.  The document of the
    example has one section, with title [VISUAL SPECS] and body
    [Colors: red]. *)
Theorem segmenter_splits_at_boundaries content :
  concat (rawSections content) = content /\
  (forall k, (0 < k < length (rawSections content))%nat ->
             Boundary (concat (drop k (rawSections content)))) /\
  (forall k chunk x y,
     rawSections content !! k = Some chunk ->
     chunk = x ++ y -> x <> [] -> y <> [] ->
     ~ Boundary (y ++ concat (drop (S k) (rawSections content)))) /\
  sections content =
    filter (fun s => (0 < length s)%nat) (trim <$> rawSections content) /\
  Forall2 TrimmedChunk
          (filter (fun chunk => ~ blank chunk) (rawSections content))
          (sections content) /\
  AnalysisView.AnalysisView Documents.visual_specs =
    [mkSection (str "VISUAL SPECS") (str "Colors: red") false None
               Documents.visual_specs].
Proof.
  split; [rewrite rawSections_cut; apply cut_concat |].
  split; [rewrite rawSections_cut; apply cut_starts |].
  split; [| split; [reflexivity | split; [apply kept_TrimmedChunk |]]].
  - rewrite rawSections_cut. intros k chunk x y Hk Hch Hx Hy.
    apply (cut_interior content [] k chunk x y Hk Hch Hx Hy).
    intros _. simpl. lia.
  - vm_compute. reflexivity.
Qed.

(** *** Documents without a boundary *)

Lemma cut_noBoundary input : forall chunk,
  (forall pre post, input = pre ++ post -> ~ Boundary post) ->
  cut chunk input = [chunk ++ input].
Proof.
  induction input as [| c input IH]; intros chunk Hno; simpl.
  - by rewrite app_nil_r.
  - destruct (atBoundary (c :: input)) eqn:Hb.
    + apply atBoundary_spec in Hb. by destruct (Hno [] (c :: input)).
    + simpl. rewrite IH, <- app_assoc; [done |].
      intros pre post ->. by apply (Hno (c :: pre) post).
Qed.

Lemma noBoundaryb_spec content :
  noBoundaryb content = true -> noBoundary content.
Proof.
  intros Hall pre post -> HB. apply atBoundary_spec in HB.
  induction pre as [| c pre IH].
  - destruct post; cbn [noBoundaryb app] in Hall; rewrite HB in Hall; done.
  - cbn [noBoundaryb app] in Hall.
    apply andb_true_iff in Hall as [_ Hall]. by apply IH.
Qed.

Lemma search_Start r input : forall i,
  (0 < i)%nat -> search (Seq Start r) i input = None.
Proof.
  induction input as [| c input IH]; intros i Hi; simpl;
    unfold match_at; simpl; destruct i; try lia; simpl; [done |].
  apply IH. lia.
Qed.

(** The title pattern finds something exactly when the section begins with
    a marker. *)
Lemma exec_titleRegex section :
  is_Some (exec titleRegex section) <-> Marker section.
Proof.
  unfold exec.
  assert (accepts titleRegex (mkState 0 section []) <-> Marker section) as Hacc.
  { unfold accepts, titleRegex, Marker. split.
    - intros (s' & Hs'). apply in_Seq in Hs' as (s0 & H0 & Hs').
      simpl in H0. apply list_elem_of_singleton in H0 as ->.
      apply in_Seq in Hs' as (s1 & H1 & _).
      apply in_Group in H1 as (s2 & H2 & _).
      apply in_Alt in H2 as [H2 | H2].
      + left. apply (accepts_headingMarker (mkState 0 section [])). by exists s2.
      + right. apply (accepts_numberMarker (mkState 0 section [])). by exists s2.
    - intros HM.
      assert (exists s2, s2 ∈ matcher (Alt headingMarker numberMarker)
                                   (mkState 0 section [])) as [s2 H2].
      { destruct HM as [HM | HM].
        - apply (accepts_headingMarker (mkState 0 section [])) in HM as [s2 H2].
          exists s2. apply in_Alt. by left.
        - apply (accepts_numberMarker (mkState 0 section [])) in HM as [s2 H2].
          exists s2. apply in_Alt. by right. }
      eexists. apply in_Seq. exists (mkState 0 section []).
      split; [simpl; by apply list_elem_of_singleton |].
      apply in_Seq. eexists. split; [apply in_Group; eauto |].
      apply in_Group. eexists. split; [| reflexivity].
      apply in_Repeat; [apply valid_bounds_None | constructor]. }
  rewrite <- Hacc, accepts_match_at.
  destruct section as [| c section]; cbn [search];
    destruct (match_at titleRegex _) eqn:Hm; try done.
  unfold titleRegex. by rewrite search_Start by lia.
Qed.

Lemma titleOf_fallback section :
  ~ Marker section -> titleOf section = fallbackTitle.
Proof.
  intros HM. unfold titleOf.
  destruct (exec titleRegex section) as [m |] eqn:Hm; [| done].
  destruct HM. apply exec_titleRegex. by eexists.
Qed.

(** The document of C6 has no boundary, and its section is titled by its
    first line, not by the fallback label. *)
Lemma no_boundary_title_from_first_line :
  noBoundary Documents.visual_specs /\
  title <$> AnalysisView.AnalysisView Documents.visual_specs =
    [str "VISUAL SPECS"] /\
  str "VISUAL SPECS" <> fallbackTitle.
Proof.
  split; [apply noBoundaryb_spec; vm_compute; reflexivity |].
  split; [vm_compute; reflexivity | vm_compute; discriminate].
Qed.

(** *** Putting the sections together again *)

Lemma visible_app s t : visible (s ++ t) = visible s ++ visible t.
Proof. apply filter_app. Qed.

Lemma visible_blank s : blank s -> visible s = [].
Proof.
  induction 1 as [| c s Hc _ IH]; [done |].
  unfold visible in *. rewrite filter_cons_False; [done | congruence].
Qed.

Lemma visible_trim s : visible (trim s) = visible s.
Proof.
  destruct (trimStart_split s) as (ws1 & Hs1 & Hws1).
  destruct (trimEnd_split (trimStart s)) as (ws2 & Hs2 & Hws2).
  fold (trim s) in Hs2.
  transitivity (visible (ws1 ++ trim s ++ ws2)); [| by rewrite <- Hs2, <- Hs1].
  rewrite !visible_app, (visible_blank ws1), (visible_blank ws2) by done.
  by rewrite app_nil_r.
Qed.

Lemma visible_join (chunks : list jsstring) :
  visible (join [LF] chunks) = visible (concat chunks).
Proof.
  induction chunks as [| ch [| ch' chunks] IH]; [done | |].
  - simpl. by rewrite app_nil_r.
  - change (join [LF] (ch :: ch' :: chunks))
      with (ch ++ [LF] ++ join [LF] (ch' :: chunks)).
    change (concat (ch :: ch' :: chunks)) with (ch ++ concat (ch' :: chunks)).
    rewrite !visible_app, IH. reflexivity.
Qed.

Lemma concat_nonempty (chunks : list jsstring) :
  concat (filter (fun s => (0 < length s)%nat) chunks) = concat chunks.
Proof.
  induction chunks as [| [| c ch] chunks IH]; [done | |].
  - rewrite filter_cons_False; [done | simpl; lia].
  - rewrite filter_cons_True; [| simpl; lia]. simpl. by rewrite IH.
Qed.

Lemma visible_concat_trim (chunks : list jsstring) :
  visible (concat (trim <$> chunks)) = visible (concat chunks).
Proof.
  induction chunks as [| ch chunks IH]; [done |].
  rewrite fmap_cons. simpl. by rewrite !visible_app, visible_trim, IH.
Qed.

Lemma sections_visible content :
  visible (join [LF] (sections content)) = visible (trim content).
Proof.
  rewrite visible_join, sections_eq, concat_nonempty, visible_concat_trim.
  by rewrite cut_concat, visible_trim.
Qed.

Lemma isDigit_visible c : isDigit c = true -> isWhiteSpace c = false.
Proof.
  unfold isDigit. intros H. apply andb_true_iff in H as [H1 H2].
  apply N.leb_le in H1, H2. unfold isWhiteSpace, isLineTerminator.
  repeat match goal with
         | |- context [N.eqb c ?k] => destruct (N.eqb_spec c k); [lia |]
         | |- context [N.leb ?a ?b] => destruct (N.leb_spec a b); [lia |]
         end.
  reflexivity.
Qed.

(** A boundary is a newline followed by something visible. *)
Lemma Boundary_shape l :
  Boundary l ->
  exists x t, l = LF :: x :: t /\ isWhiteSpace x = false.
Proof.
  intros (l' & -> & [(k & tail & Hk & ->) | (ds & tail & Hne & Hds & ->)]).
  - destruct k as [| k]; [lia |]. simpl. by exists HASH, (replicate k HASH ++ SPACE :: tail).
  - destruct ds as [| d ds]; [done |]. apply Forall_cons in Hds as [Hd _].
    exists d, (ds ++ DOT :: SPACE :: tail). split; [done |].
    by apply isDigit_visible.
Qed.

Lemma atBoundary_visible x t : isWhiteSpace x = false -> atBoundary (x :: t) = false.
Proof.
  intros Hx. destruct (atBoundary (x :: t)) eqn:Hb; [| done].
  apply atBoundary_spec, Boundary_shape in Hb as (y & t' & [= -> _] & _).
  vm_compute in Hx. discriminate.
Qed.

Lemma trimStart_snoc u d :
  isWhiteSpace d = false -> trimStart (u ++ [d]) = trimStart u ++ [d].
Proof.
  intros Hd. induction u as [| c u IH]; simpl; [by rewrite Hd |].
  by destruct (isWhiteSpace c).
Qed.

Lemma trimEnd_nonempty s x t : isWhiteSpace x = false -> trimEnd (s ++ x :: t) <> [].
Proof.
  intros Hx He. destruct (trimEnd_split (s ++ x :: t)) as (ws & Hs & Hws).
  rewrite He in Hs. simpl in Hs. subst ws.
  apply Forall_app in Hws as [_ Hws]. apply Forall_cons in Hws as [Hws _].
  congruence.
Qed.

Lemma trim_nonempty s : trimStart s <> [] -> trim s <> [].
Proof.
  unfold trim. destruct (trimStart s) as [| c t] eqn:Hs; [done |]. intros _.
  apply (trimEnd_nonempty [] c t). by eapply trimStart_head.
Qed.

Lemma tidy_suffix pre content : tidy (pre ++ content) -> tidy content.
Proof.
  intros Ht p c post -> HB. apply (Ht (pre ++ p) c post); [| done].
  by rewrite <- app_assoc.
Qed.

Lemma tidy_last u d input :
  tidy ((u ++ [d]) ++ input) -> Boundary input -> isWhiteSpace d = false.
Proof.
  intros Ht HB. apply (Ht u d input); [| done]. by rewrite <- app_assoc.
Qed.

Lemma kept_cons ch chunks :
  trim ch <> [] -> kept (ch :: chunks) = trim ch :: kept chunks.
Proof.
  intros Hne. unfold kept. rewrite fmap_cons, filter_cons_True; [done |].
  destruct (trim ch); [done | simpl; lia].
Qed.

Lemma join_cons sep ch chunks :
  chunks <> [] -> join sep (ch :: chunks) = ch ++ sep ++ join sep chunks.
Proof. by destruct chunks. Qed.

(** Once the chunk in progress holds something visible, what is joined from
    here on is the rest of the text, trimmed at its end. *)
Lemma join_cut n : forall input chunk,
  (length input <= n)%nat ->
  trimStart chunk <> [] ->
  tidy (chunk ++ input) ->
  kept (cut chunk input) <> [] /\
  join [LF] (kept (cut chunk input)) = trimEnd (trimStart chunk ++ input).
Proof.
  induction n as [| n IH]; intros input chunk Hlen Hvis Htidy.
  - destruct input; [| simpl in Hlen; lia]. simpl.
    rewrite kept_cons by by apply trim_nonempty.
    split; [done |]. by rewrite app_nil_r.
  - destruct input as [| c input]; simpl.
    { rewrite kept_cons by by apply trim_nonempty.
      split; [done |]. by rewrite app_nil_r. }
    simpl in Hlen.
    destruct (atBoundary (c :: input)) eqn:Hb; simpl.
    + destruct (Nat.eqb_spec (length chunk) 0) as [Hnil | _].
      { destruct chunk; [done | simpl in Hnil; lia]. }
      simpl. apply atBoundary_spec in Hb.
      destruct (Boundary_shape _ Hb) as (x & input' & [= -> ->] & Hx).
      destruct (exists_last (l := chunk)) as (u & d & ->).
      { intros ->. done. }
      pose proof (tidy_last u d _ Htidy Hb) as Hd.
      simpl. rewrite (atBoundary_visible x input' Hx). simpl.
      destruct (IH input' [LF; x]) as [Hne Hjoin].
      * simpl in Hlen. lia.
      * simpl. by rewrite Hx.
      * apply (tidy_suffix (u ++ [d])). by rewrite <- app_assoc in Htidy |- *.
      * assert (trim (u ++ [d]) = trimStart (u ++ [d])) as Htrim.
        { unfold trim. rewrite trimStart_snoc by done. by apply trimEnd_fixed. }
        rewrite kept_cons by (rewrite Htrim; done).
        split; [done |]. rewrite join_cons by done. rewrite Hjoin, Htrim.
        simpl trimStart at 2. rewrite Hx.
        rewrite (trimEnd_app (trimStart (u ++ [d])))
          by apply (trimEnd_nonempty [LF] x input' Hx).
        f_equal. symmetry. apply (trimEnd_app [LF] (x :: input')).
        apply (trimEnd_nonempty [] x input' Hx).
    + destruct (IH input (chunk ++ [c])) as [Hne Hjoin].
      * lia.
      * rewrite trimStart_app by done. by destruct (trimStart chunk).
      * by rewrite <- app_assoc.
      * split; [done |]. rewrite Hjoin, trimStart_app by done.
        by rewrite <- app_assoc.
Qed.

(** Leading white space stays in the first chunk. *)
Lemma cut_blank ws : forall chunk rest,
  blank chunk -> blank ws -> tidy (chunk ++ ws ++ rest) ->
  cut chunk (ws ++ rest) = cut (chunk ++ ws) rest.
Proof.
  induction ws as [| w ws IH]; intros chunk rest Hchunk Hws Htidy.
  - by rewrite app_nil_r.
  - apply Forall_cons in Hws as [Hw Hws]. simpl.
    assert (atBoundary (w :: ws ++ rest) && negb (Nat.eqb (length chunk) 0)
            = false) as ->.
    { destruct (atBoundary (w :: ws ++ rest)) eqn:Hb; [| done]. simpl.
      destruct chunk as [| c0 chunk0]; [done |].
      destruct (exists_last (l := c0 :: chunk0)) as (u & d & Hu); [done |].
      rewrite Hu in *.
      apply atBoundary_spec in Hb.
      pose proof (tidy_last u d _ Htidy Hb) as Hd.
      apply Forall_app in Hchunk as [_ Hchunk].
      apply Forall_cons in Hchunk as [Hchunk _]. congruence. }
    rewrite IH.
    + by rewrite <- app_assoc.
    + apply Forall_app. split; [done | by constructor].
    + done.
    + by rewrite <- app_assoc.
Qed.

Lemma sections_join_tidy content :
  tidy content -> join [LF] (sections content) = trim content.
Proof.
  intros Htidy. destruct (trimStart_split content) as (ws & Hs & Hws).
  destruct (trimStart content) as [| x r] eqn:Hr.
  - rewrite app_nil_r in Hs. subst ws.
    by rewrite (trim_blank content Hws), (sections_blank content Hws).
  - pose proof (trimStart_head _ _ _ Hr) as Hx.
    rewrite sections_eq. fold (kept (cut [] content)).
    rewrite Hs at 1. rewrite cut_blank; [| constructor | done | by rewrite <- Hs].
    simpl. rewrite (atBoundary_visible x r Hx). simpl.
    destruct (join_cut (length r) r (ws ++ [x])) as [_ ->].
    + done.
    + rewrite trimStart_blank by done. simpl. by rewrite Hx.
    + rewrite <- app_assoc. simpl. by rewrite <- Hs.
    + rewrite trimStart_blank by done. simpl. rewrite Hx.
      unfold trim. by rewrite Hr.
Qed.

Lemma tidyb_spec content : tidyb content = true -> tidy content.
Proof.
  intros Hall pre c post -> HB. apply atBoundary_spec in HB.
  induction pre as [| x pre IH]; simpl in Hall;
    apply andb_true_iff in Hall as [Hc Hall].
  - rewrite HB, andb_true_r in Hc. by destruct (isWhiteSpace c).
  - by apply IH.
Qed.

(** A blank line in front of a heading is lost: the sections joined by the
    newline of the boundary are not the trimmed document, and a document
    without the blank line has the same sections. *)
Lemma blank_line_not_reconstructed :
  sections Documents.blank_line = [str "Intro"; str "## Title"] /\
  join [LF] (sections Documents.blank_line) <> trim Documents.blank_line /\
  sections Documents.blank_line = sections Documents.no_blank_line /\
  trim Documents.blank_line <> trim Documents.no_blank_line.
Proof. vm_compute. repeat split; (reflexivity || discriminate). Qed.

(** C9 (amended): the sections joined by newlines have the visible code
    units of the trimmed document, in the same order; when no boundary
    comes right after white space they are the trimmed document. *)
Theorem sections_roundtrip content :
  visible (join [LF] (sections content)) = visible (trim content) /\
  (tidy content -> join [LF] (sections content) = trim content).
Proof. split; [apply sections_visible | apply sections_join_tidy]. Qed.

Lemma sections_roundtrip_witness :
  join [LF] (sections Documents.no_blank_line) = trim Documents.no_blank_line.
Proof.
  apply (sections_roundtrip Documents.no_blank_line).
  apply tidyb_spec. vm_compute. reflexivity.
Defined.

(** *** The prompt section *)

Lemma startsWith_spec w : forall s,
  startsWith s w = true <-> exists b, s = w ++ b.
Proof.
  induction w as [| p w IH]; intros [| c s]; simpl.
  - split; [intros _; by exists [] | done].
  - split; [intros _; by exists (c :: s) | done].
  - split; [done | by intros (b & Hb)].
  - rewrite andb_true_iff, N.eqb_eq, IH. split.
    + intros [-> (b & ->)]. by exists b.
    + intros (b & [= -> ->]). split; [done | by exists b].
Qed.

Lemma includes_spec w s :
  includes s w = true <-> exists a b, s = a ++ w ++ b.
Proof.
  split.
  - induction s as [| c s IH]; cbn [includes]; rewrite orb_true_iff.
    + intros [H | H]; [| done]. apply startsWith_spec in H as (b & Hb).
      by exists [], b.
    + intros [H | H].
      * apply startsWith_spec in H as (b & Hb). by exists [], b.
      * destruct (IH H) as (a & b & ->). by exists (c :: a), b.
  - intros (a & b & ->). induction a as [| c a IH].
    + simpl app. assert (startsWith (w ++ b) w = true) as Hs.
      { apply startsWith_spec. by exists b. }
      destruct (w ++ b); cbn [includes]; by rewrite Hs.
    + simpl app. cbn [includes]. rewrite IH. apply orb_true_r.
Qed.

Lemma in_word w : forall s s',
  s' ∈ matcher (word w) s <-> Consumes s w s' /\ caps s' = caps s.
Proof.
  induction w as [| c w IH]; intros s s'.
  - simpl. rewrite list_elem_of_singleton. split.
    + intros ->. split; [apply Consumes_refl | done].
    + intros [[Hr Hp] Hc]. simpl in *. apply mstate_eq; [lia | done | done].
  - change (word (c :: w)) with (Seq (Char c) (word w)).
    rewrite in_Seq. split.
    + intros (s1 & H1 & H2). apply in_Char in H1 as (rest' & Hr & ->).
      apply IH in H2 as [[Hr' Hp'] Hc]. simpl in *.
      split; [split; simpl; [by rewrite Hr, Hr' | lia] | done].
    + intros [[Hr Hp] Hc]. simpl in *.
      exists (advance s (w ++ rest s')). split.
      * apply in_Char. by exists (w ++ rest s').
      * apply IH. split; [split; simpl; [done | lia] | done].
Qed.

Lemma any_unit c : anyUnit c = true.
Proof. unfold anyUnit. by destruct (isWhiteSpace c). Qed.

(** What the code pattern matches at a position: a fence, one of the tags,
    some text (the capture), and a fence. *)
Lemma in_codeBlockRegex s s' :
  s' ∈ matcher codeBlockRegex s <->
  exists tag code,
    tag ∈ tags /\
    Consumes s (fenceText ++ tag ++ code ++ fenceText) s' /\
    caps s' = (1%nat, code) :: caps s.
Proof.
  unfold codeBlockRegex, fence. split.
  - intros Hs'. apply in_Seq in Hs' as (s1 & H1 & Hs').
    apply in_word in H1 as [H1 Hc1].
    apply in_Seq in Hs' as (s2 & H2 & Hs').
    apply in_Repeat in H2; [| intros m [= <-]; lia].
    apply in_Seq in Hs' as (s3 & H3 & Hs').
    apply in_Group in H3 as (s4 & H4 & ->).
    apply in_Repeat in H4; [| apply valid_bounds_None].
    change (matcher (Class ?p)) with (unit_matcher p) in H4.
    apply Iter_unit in H4 as (code & H4 & Hc4 & _).
    apply in_word in Hs' as [[Hr5 Hp5] Hc5]. simpl in Hr5, Hp5, Hc5.
    rewrite (Consumes_take _ _ _ H4) in Hc5.
    assert (exists tag, tag ∈ tags /\ Consumes s1 tag s2 /\ caps s2 = caps s1)
      as (tag & Htag & H2' & Hc2).
    { inversion H2 as [| ? ? ? s1' ? _ Hs1' _ Hrest]; subst.
      - exists []. split; [left | split; [apply Consumes_refl | done]].
      - inversion Hrest as [| ? ? ? ? ? Hmax]; subst; [| done].
        apply in_Alt in Hs1' as [Hw | Hw]; apply in_word in Hw as [Hw Hc].
        + exists (str "markdown"). split; [right; left | done].
        + exists (str "text"). split; [right; right; left | done]. }
    exists tag, code. split; [done |]. split.
    + assert (Consumes s4 fenceText s') as H5 by (by split).
      pose proof (Consumes_trans _ _ _ _ _ H1
                    (Consumes_trans _ _ _ _ _ H2'
                       (Consumes_trans _ _ _ _ _ H4 H5))) as Hall.
      exact Hall.
    + by rewrite Hc5, Hc4, Hc2, Hc1.
  - intros (tag & code & Htag & [Hr Hp] & Hc).
    rewrite !length_app in Hp.
    set (s1 := mkState (pos s + length fenceText)
                       (tag ++ code ++ fenceText ++ rest s') (caps s)).
    set (s2 := mkState (pos s1 + length tag)
                       (code ++ fenceText ++ rest s') (caps s)).
    set (s4 := mkState (pos s2 + length code) (fenceText ++ rest s') (caps s)).
    apply in_Seq. exists s1. split.
    { apply in_word. split; [split; simpl; [| done] | done].
      by rewrite Hr, <- !app_assoc. }
    apply in_Seq. exists s2. split.
    { apply in_Repeat; [intros m [= <-]; lia |].
      assert (forall w, w = str "markdown" \/ w = str "text" ->
                        tag = w ->
                        Iter (matcher (Alt (word (str "markdown"))
                                           (word (str "text"))))
                             0 (Some 1%nat) s1 s2) as Hstep.
      { intros w Hw ->. apply Iter_step with (s1 := s2); [done | | | constructor].
        - apply in_Alt. destruct Hw as [-> | ->]; [left | right];
            apply in_word; by split.
        - intros [_ Hpos]. simpl in Hpos.
          destruct Hw as [-> | ->]; simpl in Hpos; lia. }
      unfold tags in Htag.
      apply elem_of_cons in Htag as [-> | Htag].
      - replace s2 with s1; [constructor |].
        apply mstate_eq; simpl; [lia | done | done].
      - apply elem_of_cons in Htag as [-> | Htag].
        + apply (Hstep (str "markdown")); [by left | done].
        + apply list_elem_of_singleton in Htag as ->.
          apply (Hstep (str "text")); [by right | done]. }
    apply in_Seq.
    exists (mkState (pos s4) (rest s4) ((1%nat, code) :: caps s4)). split.
    { apply in_Group. exists s4. split.
      - apply in_Repeat; [apply valid_bounds_None |].
        change (matcher (Class ?p)) with (unit_matcher p).
        apply Iter_unit. exists code.
        split; [by split |]. split; [done |].
        split; [| split; [apply Nat.le_0_l | done]].
        apply Forall_forall. intros c _. apply any_unit.
      - f_equal. f_equal. f_equal. symmetry.
        apply (Consumes_take s2 code s4). by split. }
    apply in_word. change (length fenceText) with 3%nat in *.
    simpl. split; [split; simpl; [done | lia] | done].
Qed.

(** *** Which block is found *)

Lemma head_app_nil {A} (l : list A) : head ([] ++ l) = head l.
Proof. done. Qed.

Lemma startsWith_drop w (s : jsstring) :
  startsWith s w = true -> s = w ++ drop (length w) s.
Proof.
  intros H. apply startsWith_spec in H as (b & ->).
  by rewrite drop_app_length.
Qed.

Lemma findFence_unfold s :
  findFence s =
  if startsWith s fenceText then Some ([], drop 3 s)
  else match s with
       | [] => None
       | c :: s' => (fun found => (c :: found.1, found.2)) <$> findFence s'
       end.
Proof. by destruct s. Qed.

Lemma innerText_unfold s :
  innerText s =
  match blockAt s with
  | Some code => Some code
  | None => match s with
            | [] => None
            | _ :: s' => innerText s'
            end
  end.
Proof. by destruct s. Qed.

(** A text without backticks holds no fence and does not start one. *)
Lemma findFence_skip w : forall t,
  Forall (fun c => c <> BACKTICK) w ->
  findFence (w ++ t) = (fun found => (w ++ found.1, found.2)) <$> findFence t.
Proof.
  induction w as [| c w IH]; intros t Hw.
  - simpl. by destruct (findFence t) as [[b a] |].
  - apply Forall_cons in Hw as [Hc Hw]. simpl app. rewrite findFence_unfold.
    assert (startsWith (c :: w ++ t) fenceText = false) as ->.
    { unfold fenceText. cbn [startsWith].
      destruct (N.eqb_spec c BACKTICK) as [-> | _]; [by destruct Hc | done]. }
    rewrite IH by done. by destruct (findFence t) as [[b a] |].
Qed.

Lemma lazy_any_unfold fuel s :
  repeat_matcher (unit_matcher anyUnit) (S fuel) 0 None false s =
  s :: match rest s with
       | [] => []
       | c :: r => repeat_matcher (unit_matcher anyUnit) fuel 0 None false
                                  (advance s r)
       end.
Proof.
  cbn [repeat_matcher]. change (Nat.eqb 0 0) with true. cbn [negb andb].
  f_equal. change (unit_matcher anyUnit s) with
    (match rest s with
     | [] => []
     | c :: r => if anyUnit c then [advance s r] else []
     end).
  destruct (rest s) as [| c r]; [done |].
  rewrite any_unit. cbn [mbind list_bind]. rewrite app_nil_r.
  replace (Nat.eqb (pos (advance s r)) (pos s)) with false; [done |].
  symmetry. apply Nat.eqb_neq. simpl. lia.
Qed.

(** The lazy quantifier followed by the closing fence stops at the first
    fence. *)
Lemma lazy_fence fuel : forall s s0 acc,
  (length (rest s) < fuel)%nat ->
  Consumes s0 acc s ->
  head (((fun s' => mkState (pos s') (rest s')
                      ((1%nat, take (pos s' - pos s0) (rest s0)) :: caps s'))
           <$> repeat_matcher (unit_matcher anyUnit) fuel 0 None false s)
        ≫= matcher fence) =
  (fun found => mkState (pos s + length found.1 + 3) found.2
                  ((1%nat, acc ++ found.1) :: caps s)) <$> findFence (rest s).
Proof.
  induction fuel as [| fuel IH]; intros s s0 acc Hfuel Hacc; [lia |].
  rewrite lazy_any_unfold, fmap_cons. cbn [mbind list_bind].
  unfold fence at 1. rewrite matcher_word. simpl pos. simpl rest. simpl caps.
  rewrite (Consumes_take _ _ _ Hacc), (findFence_unfold (rest s)).
  destruct (startsWith (rest s) fenceText) eqn:Hstart.
  - simpl. f_equal. rewrite app_nil_r. f_equal. lia.
  - rewrite head_app_nil. destruct (rest s) as [| c r] eqn:Hr; [done |].
    rewrite (IH (advance s r) s0 (acc ++ [c])).
    + simpl. destruct (findFence r) as [[b a] |]; [| done]. simpl.
      rewrite <- app_assoc. do 2 f_equal. lia.
    + simpl. simpl in Hfuel. lia.
    + destruct Hacc as [H1 H2]. split; simpl.
      * by rewrite H1, Hr, <- app_assoc.
      * rewrite length_app. simpl. lia.
Qed.

Lemma head_app {A} (l1 l2 : list A) :
  head (l1 ++ l2) = match head l1 with
                    | Some x => Some x
                    | None => head l2
                    end.
Proof. by destruct l1. Qed.

Lemma eqb_add_succ p k : Nat.eqb (p + S k) p = false.
Proof. apply Nat.eqb_neq. lia. Qed.

(** The optional tag: with the tag first, without it last. *)
Lemma matcher_tag s :
  matcher (Repeat (Alt (word (str "markdown")) (word (str "text")))
                  0 (Some 1%nat) true) s =
  (if startsWith (rest s) (str "markdown")
   then [mkState (pos s + 8) (drop 8 (rest s)) (caps s)] else []) ++
  (if startsWith (rest s) (str "text")
   then [mkState (pos s + 4) (drop 4 (rest s)) (caps s)] else []) ++ [s].
Proof.
  cbn [matcher].
  replace (0 + length (rest s) + 1)%nat with (S (length (rest s))) by lia.
  cbn [repeat_matcher matcher]. rewrite !matcher_word.
  change (length (str "markdown")) with 8%nat.
  change (length (str "text")) with 4%nat.
  change (Nat.eqb 0 0) with true. cbn [negb andb].
  destruct (rest s) as [| c r] eqn:Hr; [done |].
  cbn [length repeat_matcher]. rewrite bind_app.
  destruct (startsWith (c :: r) (str "markdown")),
           (startsWith (c :: r) (str "text"));
    cbn [mbind list_bind pos app fmap option_fmap option_map];
    rewrite ?eqb_add_succ; reflexivity.
Qed.

(** After the optional tag: the text up to the first fence is captured. *)
Lemma head_code s :
  head (matcher (Seq (Group 1 (Repeat (Class anyUnit) 0 None false)) fence) s) =
  (fun found => mkState (pos s + length found.1 + 3) found.2
                  ((1%nat, found.1) :: caps s)) <$> findFence (rest s).
Proof.
  cbn [matcher]. apply (lazy_fence _ s s []); [lia | apply Consumes_refl].
Qed.

Lemma tags_exclusive (s : jsstring) :
  startsWith s (str "markdown") = true -> startsWith s (str "text") = false.
Proof.
  destruct s as [| c s]; [done |]. cbn [startsWith str map list_ascii_of_string].
  intros H. apply andb_true_iff in H as [H _]. apply N.eqb_eq in H as ->.
  reflexivity.
Qed.

Lemma no_backtick_markdown : Forall (fun c => c <> BACKTICK) (str "markdown").
Proof. repeat constructor; discriminate. Qed.

Lemma no_backtick_text : Forall (fun c => c <> BACKTICK) (str "text").
Proof. repeat constructor; discriminate. Qed.

Lemma findFence_tag w (s : jsstring) :
  Forall (fun c => c <> BACKTICK) w ->
  startsWith s w = true ->
  findFence (drop (length w) s) = None -> findFence s = None.
Proof.
  intros Hw Hs Hnone. rewrite (startsWith_drop w s Hs).
  by rewrite findFence_skip, Hnone.
Qed.

(** The first match of the code pattern at a position captures the inner
    text of the block that starts there. *)
Lemma head_codeBlockRegex st :
  (fun s' => capture 1 (caps s')) <$> head (matcher codeBlockRegex st) =
  Some <$> blockAt (rest st).
Proof.
  unfold codeBlockRegex, blockAt. rewrite matcher_Seq.
  change (matcher fence st) with (matcher (word fenceText) st).
  rewrite matcher_word. change (length fenceText) with 3%nat.
  destruct (startsWith (rest st) fenceText); [| done].
  cbn [mbind list_bind]. rewrite app_nil_r, matcher_Seq, matcher_tag.
  simpl rest. set (after := drop 3 (rest st)). simpl pos. simpl caps.
  unfold stripTag. rewrite !bind_app.
  destruct (startsWith after (str "markdown")) eqn:Hmd.
  - rewrite (tags_exclusive after Hmd). cbn [mbind list_bind app].
    rewrite !app_nil_r, head_app, !head_code. simpl rest.
    destruct (findFence (drop 8 after)) as [[code rest'] |] eqn:Hf; [done |].
    by rewrite (findFence_tag (str "markdown") after no_backtick_markdown Hmd Hf).
  - destruct (startsWith after (str "text")) eqn:Htxt.
    + cbn [mbind list_bind app].
      rewrite !app_nil_r, head_app, !head_code. simpl rest.
      destruct (findFence (drop 4 after)) as [[code rest'] |] eqn:Hf; [done |].
      by rewrite (findFence_tag (str "text") after no_backtick_text Htxt Hf).
    + cbn [mbind list_bind app]. rewrite !app_nil_r, head_code. simpl rest.
      by destruct (findFence after) as [[code rest'] |].
Qed.

Lemma match_at_head r st :
  match_at r st =
  (fun s' => mkMatch (pos st) (take (pos s' - pos st) (rest st)) (caps s'))
    <$> head (matcher r st).
Proof. unfold match_at. by destruct (matcher r st). Qed.

(** The capture of the leftmost match is the inner text of the first
    block. *)
Lemma search_innerText s : forall i,
  (fun m => default [] (group 1 m)) <$> search codeBlockRegex i s = innerText s.
Proof.
  assert (forall i s,
            match_at codeBlockRegex (mkState i s []) = None /\ blockAt s = None \/
            exists m code,
              match_at codeBlockRegex (mkState i s []) = Some m /\
              blockAt s = Some code /\ default [] (group 1 m) = code) as Hat.
  { intros i t. rewrite match_at_head.
    pose proof (head_codeBlockRegex (mkState i t [])) as Hhead.
    simpl rest in Hhead.
    destruct (head (matcher codeBlockRegex _)) as [s' |];
      destruct (blockAt t) as [code |]; try done; [| by left].
    right. injection Hhead as Hcap. eexists _, code.
    split; [done |]. split; [done |]. unfold group. simpl. by rewrite Hcap. }
  induction s as [| c s IH]; intros i; cbn [search];
    rewrite innerText_unfold.
  - by destruct (Hat i (@nil N)) as [[-> ->] | (m & code & -> & -> & <-)].
  - destruct (Hat i (c :: s)) as [[-> ->] | (m & code & -> & -> & <-)];
      [apply IH | done].
Qed.

Lemma capturedCode_innerText section :
  capturedCode section = innerText (bodyOf section).
Proof. unfold capturedCode, codeBlockMatch, exec. apply search_innerText. Qed.

Lemma codeBlockMatch_sound body m :
  codeBlockMatch body = Some m ->
  exists tag code,
    tag ∈ tags /\ FencedBlock body tag code /\ group 1 m = Some code.
Proof.
  unfold codeBlockMatch, exec. intros Hm.
  apply search_sound in Hm as (pre & post & -> & Hm).
  apply match_at_sound in Hm as (s' & Hs' & ->).
  apply in_codeBlockRegex in Hs' as (tag & code & Htag & [Hr _] & Hc).
  simpl in Hr, Hc. exists tag, code. split; [done |]. split.
  - exists pre, (rest s'). by rewrite Hr, <- !app_assoc.
  - unfold group. simpl. by rewrite Hc.
Qed.

Lemma codeBlockMatch_complete body :
  hasFencedBlock body -> is_Some (codeBlockMatch body).
Proof.
  intros (tag & code & Htag & before & after & ->).
  unfold codeBlockMatch, exec. apply search_complete.
  exists (mkState (0 + length before +
                   length (fenceText ++ tag ++ code ++ fenceText))
                  after [(1%nat, code)]).
  apply in_codeBlockRegex. exists tag, code. split; [done |].
  split; [split; simpl; [by rewrite <- !app_assoc | done] | done].
Qed.

Lemma present_eq section :
  present section =
  mkSection (titleOf section) (bodyOf section) (mentionsPrompt section)
            (if mentionsPrompt section then trim <$> capturedCode section
             else None)
            (default section
               (if mentionsPrompt section then trim <$> capturedCode section
                else None)).
Proof.
  unfold present, mentionsPrompt, capturedCode.
  destruct (includes _ _); [| done].
  by destruct (codeBlockMatch (bodyOf section)).
Qed.

Lemma codeBlockMatch_innerText body :
  (fun m => default [] (group 1 m)) <$> codeBlockMatch body = innerText body.
Proof. unfold codeBlockMatch, exec. apply search_innerText. Qed.

(** The inner text found is the inner text of a block of the body, and a
    body with a block has one found. *)
Lemma innerText_block body code :
  innerText body = Some code ->
  exists tag, tag ∈ tags /\ FencedBlock body tag code.
Proof.
  rewrite <- codeBlockMatch_innerText.
  destruct (codeBlockMatch body) as [m |] eqn:Hm; [| done].
  destruct (codeBlockMatch_sound _ _ Hm) as (tag & code' & Htag & Hb & Hg).
  simpl. rewrite Hg. intros [= <-]. by exists tag.
Qed.

Lemma innerText_complete body :
  hasFencedBlock body -> is_Some (innerText body).
Proof.
  intros Hb. apply codeBlockMatch_complete in Hb as [m Hm].
  rewrite <- codeBlockMatch_innerText, Hm. by eexists.
Qed.

(** C7: a section is the prompt section exactly when its lower-cased title
    contains [prompt].  For a prompt section whose body holds a fenced block
    the text copied is the trimmed inner text of the first block of the
    body (from its opening fence, the tag [markdown] or [text] left out, to
    the next fence); every other section, a prompt section without a block
    included, copies the whole chunk.  The prompt section of the example
    copies [Build X]. *)
Theorem prompt_section_copy section :
  (isPromptSection (present section) = true <->
   exists a b, toLowerCase (title (present section)) = a ++ str "prompt" ++ b) /\
  extractedCode (present section) =
    (if isPromptSection (present section)
     then trim <$> innerText (body (present section)) else None) /\
  copyText (present section) =
    default section (extractedCode (present section)) /\
  (isPromptSection (present section) = true ->
   hasFencedBlock (body (present section)) ->
   exists tag code,
     tag ∈ tags /\ FencedBlock (body (present section)) tag code /\
     innerText (body (present section)) = Some code /\
     extractedCode (present section) = Some (trim code) /\
     copyText (present section) = trim code) /\
  (isPromptSection (present section) = false \/
   ~ hasFencedBlock (body (present section)) ->
   extractedCode (present section) = None /\
   copyText (present section) = section) /\
  present Documents.replication_prompt =
    mkSection (str "THE REPLICATION PROMPT")
              (str "```markdown" ++ [LF] ++ str "Build X" ++ [LF] ++ str "```")
              true (Some (str "Build X")) (str "Build X").
Proof.
  rewrite present_eq, capturedCode_innerText. simpl.
  split; [apply includes_spec |]. split; [done |]. split; [done |].
  split; [| split; [| vm_compute; reflexivity]].
  - intros -> Hblock. apply innerText_complete in Hblock as [code Hcode].
    destruct (innerText_block _ _ Hcode) as (tag & Htag & Hb).
    exists tag, code. rewrite Hcode. by repeat split.
  - intros [-> | Hno]; [done |].
    destruct (innerText (bodyOf section)) as [code |] eqn:Hcode.
    + destruct Hno. destruct (innerText_block _ _ Hcode) as (tag & ? & ?).
      by exists tag, code.
    + by destruct (mentionsPrompt section).
Qed.

Lemma prompt_section_copy_witness :
  exists tag code,
    tag ∈ tags /\
    FencedBlock (body (present Documents.replication_prompt)) tag code /\
    innerText (body (present Documents.replication_prompt)) = Some code /\
    extractedCode (present Documents.replication_prompt) = Some (trim code) /\
    copyText (present Documents.replication_prompt) = trim code.
Proof.
  destruct (prompt_section_copy Documents.replication_prompt)
    as (_ & _ & _ & Hcopy & _).
  apply Hcopy.
  - vm_compute. reflexivity.
  - exists (str "markdown"), ([LF] ++ str "Build X" ++ [LF]).
    split; [right; left |]. exists [], []. vm_compute. reflexivity.
Defined.

End AnalysisViewFacts.


(** ** Properties of the handler and of [canAnalyze] *)
Module LedgerFacts.
Import JSDate JSDateFacts Quota QuotaFacts Ledger.

(** The answers given before the [try] block. *)
Lemma authenticate_answers w req r :
  authenticate w req = inl r ->
  (r = mkResponse 200 NoBody /\ method req = "OPTIONS") \/
  r = mkResponse 405 (ErrorBody "Method not allowed") \/
  r = mkResponse 401 (ErrorBody "Missing authorization header") \/
  r = mkResponse 401 (ErrorBody "Invalid token").
Proof.
  unfold authenticate.
  destruct (String.eqb_spec (method req) "OPTIONS") as [Hm | _];
    [intros [= <-]; by left |].
  destruct (String.eqb (method req) "POST"); simpl;
    [| intros [= <-]; right; by left].
  destruct (authorization req) as [authHeader |];
    [| intros [= <-]; right; right; by left].
  destruct (String.prefix "Bearer " authHeader); simpl;
    [| intros [= <-]; right; right; by left].
  destruct (auth_getUser w _); [done |].
  intros [= <-]. right; right; by right.
Qed.

(** The three outcomes of the analysis: a text that is not empty, one of
    three [400] answers, or an exception. *)
Lemma analyse_outcomes w b :
  (exists text, analyse w b = Value text /\ text <> "") \/
  (exists message, analyse w b = Respond (mkResponse 400 (ErrorBody message)) /\
                   message <> "") \/
  (exists message, analyse w b = Raise message).
Proof.
  assert (forall text : option string,
            default "No analysis generated." (truthy text) <> "") as Htext.
  { intros [[| c s] |]; done. }
  unfold analyse.
  destruct (truthy (storagePath b)) as [path |].
  - assert (forall o : Outcome string,
              o = (fileData ← await (storage_download w path);
                   match fileData with
                   | None => respond 400
                       (ErrorBody "Failed to download video from storage")
                   | Some blob =>
                       text ← await (generateContent w
                                 (default "video/mp4" (truthy (Some (type blob))))
                                 (data blob));
                       mret (default "No analysis generated." (truthy text))
                   end) ->
              (exists text, o = Value text /\ text <> "") \/
              (exists message, o = Respond (mkResponse 400 (ErrorBody message)) /\
                               message <> "") \/
              (exists message, o = Raise message)) as Hpath.
    { intros o ->. destruct (storage_download w path) as [[blob |] | e]; simpl.
      - destruct (generateContent w _ _) as [text | e]; simpl.
        + left. eexists. split; [reflexivity | apply Htext].
        + right; right. by eexists.
      - right; left. eexists. by split.
      - right; right. by eexists. }
    destruct (truthy (videoUrl b)); by apply Hpath.
  - destruct (truthy (videoUrl b)) as [url |].
    + destruct (fetch w url) as [[[] blob] | e]; simpl.
      * destruct (generateContent w _ _) as [text | e]; simpl.
        -- left. eexists. split; [reflexivity | apply Htext].
        -- right; right. by eexists.
      * right; left. eexists. by split.
      * right; right. by eexists.
    + right; left. eexists. by split.
Qed.

(** The usage the handler works with, and the database after its check. *)
Lemma handler_known w now req db uid acct :
  authenticate w req = inr uid ->
  users db !! uid = Some acct ->
  let cu := if period_reset_at acct <=? now then 0 else usage_count acct in
  let db1 := if period_reset_at acct <=? now
             then mkDatabase (alter (set_reset 0 (nextReset w now)) uid (users db))
                             (analysis_history db)
             else db in
  handler w now req db =
  if allowance (plan acct) <=? cu then
    (db1, mkResponse 429 (QuotaBody "Usage limit exceeded" (plan acct) cu
                                    (allowance (plan acct))))
  else
    match body req with
    | None => (db1, caught "Cannot destructure property 'videoUrl' of 'req.body'")
    | Some b =>
        match analyse w b with
        | Value text =>
            (mkDatabase (alter (set_usage_count (cu + 1)) uid (users db1))
                        (analysis_history db1 ++
                           [mkHistoryRow uid (truthy (videoUrl b))
                                         (truthy (storagePath b)) text]),
             mkResponse 200 (ResultBody text (cu + 1) (allowance (plan acct))
                                        (plan acct)))
        | Respond r => (db1, r)
        | Raise e => (db1, caught e)
        end
    end.
Proof.
  intros Hauth Hacct. cbv zeta.
  unfold handler, try_catch, prepare, commit, parseBody. rewrite Hauth.
  munfold. rewrite Hacct. unfold checkAndReset. munfold.
  destruct (period_reset_at acct <=? now);
    destruct (allowance (plan acct) <=? _); try done;
    destruct (body req) as [b |]; try done;
    destruct (analyse w b); done.
Qed.

Lemma handler_unknown w now req db uid :
  authenticate w req = inr uid ->
  users db !! uid = None ->
  handler w now req db =
  (db, mkResponse 404 (ErrorBody "User profile not found")).
Proof.
  intros Hauth Hacct. unfold handler, try_catch, prepare. rewrite Hauth.
  munfold. by rewrite Hacct.
Qed.

Lemma caught_message e : exists message, caught e = mkResponse 500 (ErrorBody message) /\ message <> "".
Proof. unfold caught. destruct e; eexists; split; try reflexivity; done. Qed.


Ltac codes := rewrite ?elem_of_cons, ?elem_of_nil in *; lia.

(** Every answer of the handler has one of four forms. *)
Lemma handler_forms w now req db :
  let r := (handler w now req db).2 in
  (r = mkResponse 200 NoBody /\ method req = "OPTIONS") \/
  (exists s message, r = mkResponse s (ErrorBody message) /\ message <> "" /\
                     s ∈ [400; 401; 404; 405; 500]) \/
  (exists p u, r = mkResponse 429 (QuotaBody "Usage limit exceeded" p u
                                              (allowance p)) /\
               allowance p <= u) \/
  (exists text c p, r = mkResponse 200 (ResultBody text c (allowance p) p) /\
                    text <> "" /\ c <= allowance p).
Proof.
  cbv zeta. destruct (authenticate w req) as [r | uid] eqn:Hauth.
  - unfold handler. rewrite Hauth. simpl.
    destruct (authenticate_answers w req r Hauth) as [H | [-> | [-> | ->]]];
      [by left | right; left; eexists _, _; split; [done |]; split; [done |]..];
      codes.
  - destruct (users db !! uid) as [acct |] eqn:Hacct.
    + rewrite (handler_known w now req db uid acct Hauth Hacct).
      set (cu := if period_reset_at acct <=? now then 0 else usage_count acct).
      destruct (Z.leb_spec (allowance (plan acct)) cu) as [Hle | Hlt].
      * right; right; left. by eexists _, _.
      * destruct (body req) as [b |].
        -- destruct (analyse_outcomes w b)
             as [(text & -> & Htext) | [(e & -> & He) | (e & ->)]]; simpl.
           ++ right; right; right. eexists _, _, _. split; [done |].
              split; [done | lia].
           ++ right; left. eexists _, _. split; [done |]. split; [done |].
              codes.
           ++ destruct (caught_message e) as (m & -> & Hm).
              right; left. eexists _, _. split; [done |]. split; [done |].
              codes.
        -- simpl. destruct (caught_message
                    "Cannot destructure property 'videoUrl' of 'req.body'")
             as (m & -> & Hm).
           right; left. eexists _, _. split; [done |]. split; [done |].
           codes.
    + rewrite (handler_unknown w now req db uid Hauth Hacct). simpl.
      right; left. eexists _, _. split; [done |]. split; [done |]. codes.
Qed.

(** X1: the handler answers with one of seven status codes; it answers 200
    with a result, or to an [OPTIONS] request with no body at all; every
    error body carries a message that is not empty, and a result is never
    the empty text. *)
Theorem handler_answers w now req db :
  let r := (handler w now req db).2 in
  status r ∈ [200; 400; 401; 404; 405; 429; 500] /\
  (status r = 200 <->
   is_success r = true \/ (method req = "OPTIONS" /\ json r = NoBody)) /\
  (forall message, json r = ErrorBody message -> message <> "") /\
  (forall message p u l,
     json r = QuotaBody message p u l ->
     status r = 429 /\ message = "Usage limit exceeded" /\ l <= u) /\
  (forall text c l p, json r = ResultBody text c l p -> text <> "" /\ c <= l).
Proof.
  cbv zeta.
  destruct (handler_forms w now req db)
    as [[-> Hm] | [(s & e & -> & He & Hs) | [(p & u & -> & Hu)
       | (text & c & p & -> & Ht & Hc)]]]; simpl.
  - split; [codes |]. split; [split; [by right | done] |].
    repeat split; intros; done.
  - split; [codes |]. split.
    + split; [intros ->; exfalso; codes | intros [? | [_ ?]]; done].
    + split; [by intros ? [= <-] |]. split; intros; done.
  - split; [codes |]. split.
    + split; [done | intros [? | [_ ?]]; done].
    + split; [done |]. split; [| done]. by intros ? ? ? ? [= <- <- <- <-].
  - split; [codes |]. split; [split; [by left | done] |].
    split; [done |]. split; [done |]. by intros ? ? ? ? [= <- <- <- <-].
Qed.


(** How the handler changes the [users] table: not at all, or by altering
    the row of the caller, whose [id] and [plan] stay. *)
Lemma handler_users w now req db :
  users (handler w now req db).1 = users db \/
  exists uid f,
    authenticate w req = inr uid /\
    users (handler w now req db).1 = alter f uid (users db) /\
    forall acct, id (f acct) = id acct /\ plan (f acct) = plan acct.
Proof.
  destruct (authenticate w req) as [r | uid] eqn:Hauth.
  { left. unfold handler. by rewrite Hauth. }
  destruct (users db !! uid) as [acct |] eqn:Hacct;
    [| left; by rewrite (handler_unknown w now req db uid Hauth Hacct)].
  rewrite (handler_known w now req db uid acct Hauth Hacct).
  set (cu := if period_reset_at acct <=? now then 0 else usage_count acct).
  assert (forall db1 : Database,
            db1 = (if period_reset_at acct <=? now
                   then mkDatabase
                          (alter (set_reset 0 (nextReset w now)) uid (users db))
                          (analysis_history db)
                   else db) ->
            users db1 = users db \/
            exists f, users db1 = alter f uid (users db) /\
                      forall p, id (f p) = id p /\ plan (f p) = plan p) as Hdb1.
  { intros db1 ->. destruct (period_reset_at acct <=? now); [| by left].
    right. by eexists. }
  set (db1 := if period_reset_at acct <=? now then _ else db) in *.
  specialize (Hdb1 db1 eq_refl).
  assert (users db1 = users db \/
          exists uid0 f, inr (A := Response) uid = inr uid0 /\
            users db1 = alter f uid0 (users db) /\
            forall p, id (f p) = id p /\ plan (f p) = plan p) as Hkeep.
  { destruct Hdb1 as [? | (f & ? & ?)]; [by left | right; by exists uid, f]. }
  destruct (allowance (plan acct) <=? cu); [exact Hkeep |].
  destruct (body req) as [b |]; [| exact Hkeep].
  destruct (analyse w b); try exact Hkeep.
  right. simpl. destruct Hdb1 as [-> | (f & -> & Hf)].
  - exists uid, (set_usage_count (cu + 1)). by repeat split.
  - exists uid, (set_usage_count (cu + 1) ∘ f). rewrite alter_alter_eq.
    split; [done |]. split; [done |]. intros p. simpl. apply Hf.
Qed.

(** X2: the handler adds and removes no account, changes no [id] and no
    [plan], and leaves the row of everyone but the caller as it is. *)
Theorem handler_own_row w now req db u :
  id <$> users (handler w now req db).1 !! u = id <$> users db !! u /\
  plan <$> users (handler w now req db).1 !! u = plan <$> users db !! u /\
  (authenticate w req <> inr u ->
   users (handler w now req db).1 !! u = users db !! u).
Proof.
  destruct (handler_users w now req db) as [-> | (uid & f & Hauth & -> & Hf)];
    [done |].
  destruct (decide (uid = u)) as [-> | Hne].
  - rewrite lookup_alter_eq. destruct (users db !! u) as [acct |]; simpl.
    + destruct (Hf acct) as [-> ->]. repeat split. by intros [].
    + repeat split.
  - rewrite lookup_alter_ne by done. done.
Qed.

(** X3: a result is what the ledger says: the caller's row holds the usage
    that the answer reports, one more than the usage the period started the
    request with and within the limit of the plan, and the history has one
    more row, with the text of the answer. *)
Theorem handler_success w now req db text current limit p :
  (handler w now req db).2 = mkResponse 200 (ResultBody text current limit p) ->
  exists uid acct b,
    authenticate w req = inr uid /\
    users db !! uid = Some acct /\
    body req = Some b /\
    analyse w b = Value text /\
    p = plan acct /\ limit = allowance p /\
    current = (if period_reset_at acct <=? now then 0 else usage_count acct) + 1 /\
    current <= limit /\
    users (handler w now req db).1 !! uid =
      Some (mkProfile (id acct) p current
              (if period_reset_at acct <=? now then nextReset w now
               else period_reset_at acct)) /\
    analysis_history (handler w now req db).1 =
      analysis_history db ++
        [mkHistoryRow uid (truthy (videoUrl b)) (truthy (storagePath b)) text].
Proof.
  destruct (authenticate w req) as [r | uid] eqn:Hauth.
  { unfold handler. rewrite Hauth. simpl. intros ->.
    by destruct (authenticate_answers w req _ Hauth) as [[? _] | [? | [? | ?]]]. }
  destruct (users db !! uid) as [acct |] eqn:Hacct;
    [| by rewrite (handler_unknown w now req db uid Hauth Hacct)].
  rewrite (handler_known w now req db uid acct Hauth Hacct).
  destruct (Z.leb_spec (allowance (plan acct))
              (if period_reset_at acct <=? now then 0 else usage_count acct))
    as [Hle | Hlt]; [done |].
  destruct (body req) as [b |] eqn:Hbody;
    [| simpl; intros H; by destruct (caught_message
         "Cannot destructure property 'videoUrl' of 'req.body'")
         as (m & Hm & _); rewrite Hm in H].
  destruct (analyse_outcomes w b)
    as [(text' & Hb & _) | [(e & Hb & _) | (e & Hb)]]; rewrite Hb; simpl.
  - intros [= <- <- <- <-]. exists uid, acct, b.
    do 6 (split; [done |]).
    split; [done |]. split; [lia |].
    destruct (period_reset_at acct <=? now); simpl;
      rewrite ?lookup_alter_eq, Hacct; done.
  - done.
  - intros H. destruct (caught_message e) as (m & Hm & _). by rewrite Hm in H.
Qed.


Lemma handler_success_witness :
  exists uid acct b,
    authenticate Fixtures.world0 Fixtures.upload = inr uid /\
    users (Fixtures.account free 0 Fixtures.feb1) !! uid = Some acct /\
    body Fixtures.upload = Some b /\
    analyse Fixtures.world0 b = Value "1. VISUAL SPECS" /\
    free = plan acct /\ 3 = allowance free /\
    1 = (if period_reset_at acct <=? Fixtures.jan15 then 0
         else usage_count acct) + 1 /\
    1 <= 3 /\
    users (handler Fixtures.world0 Fixtures.jan15 Fixtures.upload
                   (Fixtures.account free 0 Fixtures.feb1)).1 !! uid =
      Some (mkProfile (id acct) free 1
              (if period_reset_at acct <=? Fixtures.jan15
               then nextReset Fixtures.world0 Fixtures.jan15
               else period_reset_at acct)) /\
    analysis_history (handler Fixtures.world0 Fixtures.jan15 Fixtures.upload
                              (Fixtures.account free 0 Fixtures.feb1)).1 =
      analysis_history (Fixtures.account free 0 Fixtures.feb1) ++
        [mkHistoryRow uid (truthy (videoUrl b)) (truthy (storagePath b))
                      "1. VISUAL SPECS"].
Proof.
  apply (handler_success Fixtures.world0 Fixtures.jan15 Fixtures.upload
           (Fixtures.account free 0 Fixtures.feb1) "1. VISUAL SPECS" 1 3 free).
  vm_compute. reflexivity.
Defined.

(** X4: the first request of a new period is served against a fresh
    allowance: whatever usage the row holds, a request that gets through at
    or after [period_reset_at] is answered 200 with a usage of 1, and the
    row then holds that usage and the next reset date. *)
Theorem handler_new_period w now req db uid acct b text :
  authenticate w req = inr uid ->
  users db !! uid = Some acct ->
  period_reset_at acct <= now ->
  body req = Some b ->
  analyse w b = Value text ->
  (handler w now req db).2 =
    mkResponse 200 (ResultBody text 1 (allowance (plan acct)) (plan acct)) /\
  users (handler w now req db).1 !! uid =
    Some (mkProfile (id acct) (plan acct) 1 (nextReset w now)).
Proof.
  intros Hauth Hacct Hle Hbody Htext.
  rewrite (handler_known w now req db uid acct Hauth Hacct).
  destruct (Z.leb_spec (period_reset_at acct) now) as [_ | Hlt]; [| lia].
  pose proof (allowance_pos (plan acct)).
  destruct (Z.leb_spec (allowance (plan acct)) 0); [lia |].
  rewrite Hbody, Htext. simpl.
  by rewrite !lookup_alter_eq, Hacct.
Qed.

Lemma handler_new_period_witness :
  (handler Fixtures.world0 Fixtures.feb15 Fixtures.upload
           (Fixtures.account free 3 Fixtures.feb1)).2 =
    mkResponse 200 (ResultBody "1. VISUAL SPECS" 1 3 free) /\
  users (handler Fixtures.world0 Fixtures.feb15 Fixtures.upload
                 (Fixtures.account free 3 Fixtures.feb1)).1 !! "u1" =
    Some (mkProfile "u1" free 1 (nextReset Fixtures.world0 Fixtures.feb15)).
Proof.
  apply (handler_new_period Fixtures.world0 Fixtures.feb15 Fixtures.upload
           (Fixtures.account free 3 Fixtures.feb1) "u1"
           (mkProfile "u1" free 3 Fixtures.feb1)
           (mkBody None (Some "u1/clip.webm")) "1. VISUAL SPECS").
  - vm_compute. reflexivity.
  - vm_compute. reflexivity.
  - vm_compute. discriminate.
  - reflexivity.
  - vm_compute. reflexivity.
Defined.

(** *** The usage stays within the allowance *)

Lemma prepare_known w now uid req db acct :
  users db !! uid = Some acct ->
  let cu := if period_reset_at acct <=? now then 0 else usage_count acct in
  let db1 := if period_reset_at acct <=? now
             then mkDatabase (alter (set_reset 0 (nextReset w now)) uid (users db))
                             (analysis_history db)
             else db in
  prepare w now uid req db =
  if allowance (plan acct) <=? cu then
    (db1, Respond (mkResponse 429 (QuotaBody "Usage limit exceeded" (plan acct)
                                             cu (allowance (plan acct)))))
  else
    match body req with
    | None =>
        (db1, Raise "Cannot destructure property 'videoUrl' of 'req.body'")
    | Some b =>
        match analyse w b with
        | Value text =>
            (db1, Value (mkPending uid (plan acct) cu (allowance (plan acct))
                                   (videoUrl b) (storagePath b) text))
        | Respond r => (db1, Respond r)
        | Raise e => (db1, Raise e)
        end
    end.
Proof.
  intros Hacct. cbv zeta. unfold prepare, parseBody. munfold.
  rewrite Hacct. unfold checkAndReset. munfold.
  destruct (period_reset_at acct <=? now);
    destruct (allowance (plan acct) <=? _); try done;
    destruct (body req) as [b |]; try done;
    destruct (analyse w b); done.
Qed.

(** One step of a request keeps every plan, keeps the usage within the
    allowance, and leaves the request committable. *)
Lemma step_keeps w ph db :
  within_limits db ->
  committable db ph ->
  within_limits (step w ph db).1 /\
  committable (step w ph db).1 (step w ph db).2 /\
  (forall u acct', users (step w ph db).1 !! u = Some acct' ->
                   exists acct, users db !! u = Some acct /\
                                plan acct' = plan acct).
Proof.
  intros Hin Hph.
  assert (forall u acct', users db !! u = Some acct' ->
            exists acct, users db !! u = Some acct /\ plan acct' = plan acct)
    as Hsame by eauto.
  destruct ph as [now req | p | r]; simpl; [| | done].
  - destruct (authenticate w req) as [r | uid]; [done |].
    destruct (users db !! uid) as [acct |] eqn:Hacct.
    + rewrite (prepare_known w now uid req db acct Hacct).
      set (cu := if period_reset_at acct <=? now then 0 else usage_count acct).
      set (db1 := if period_reset_at acct <=? now then _ else db).
      assert (forall u acct', users db1 !! u = Some acct' ->
                exists acct0, users db !! u = Some acct0 /\
                              plan acct' = plan acct0 /\
                              (acct' = acct0 \/ usage_count acct' = 0))
        as Hrows.
      { intros u acct'. unfold db1.
        destruct (period_reset_at acct <=? now); [| by eauto].
        simpl. destruct (decide (uid = u)) as [<- | Hne].
        - rewrite lookup_alter_eq, Hacct. intros [= <-]. eauto.
        - rewrite lookup_alter_ne by done. eauto. }
      assert (within_limits db1) as Hin1.
      { intros u acct' Hu.
        destruct (Hrows u acct' Hu) as (acct0 & Hu0 & Hplan & [-> | Hzero]).
        - by apply (Hin u).
        - rewrite Hzero. pose proof (allowance_pos (plan acct')). lia. }
      assert (forall u acct', users db1 !! u = Some acct' ->
                exists acct0, users db !! u = Some acct0 /\
                              plan acct' = plan acct0) as Hsame1.
      { intros u acct' Hu.
        destruct (Hrows u acct' Hu) as (acct0 & ? & ? & _). eauto. }
      destruct (Z.leb_spec (allowance (plan acct)) cu) as [Hle | Hlt]; [done |].
      destruct (body req) as [b |]; [| done].
      destruct (analyse w b); simpl; try done.
      split; [done |]. split; [| done].
      intros acct1 Hacct1. destruct (Hsame1 uid acct1 Hacct1) as (a0 & Ha0 & ->).
      rewrite Hacct in Ha0. injection Ha0 as <-. lia.
    + unfold prepare. munfold. by rewrite Hacct.
  - unfold try_catch, commit. munfold. simpl in Hph |- *.
    assert (forall u acct', alter (set_usage_count (p_currentUsage p + 1))
                                  (p_uid p) (users db) !! u = Some acct' ->
              exists acct0, users db !! u = Some acct0 /\
                            plan acct' = plan acct0 /\
                            usage_count acct' <= allowance (plan acct0))
      as Hrows.
    { intros u acct'. destruct (decide (p_uid p = u)) as [<- | Hne].
      - rewrite lookup_alter_eq.
        destruct (users db !! p_uid p) as [acct0 |] eqn:Hacct0; [| done].
        intros [= <-]. exists acct0. split; [done |]. split; [done |].
        simpl. by apply Hph.
      - rewrite lookup_alter_ne by done. intros Hu. exists acct'.
        split; [done |]. split; [done |]. by apply (Hin u). }
    split; [| split; [done |]].
    + intros u acct' Hu. simpl in Hu.
      destruct (Hrows u acct' Hu) as (acct0 & _ & -> & Hle). done.
    + intros u acct' Hu. simpl in Hu.
      destruct (Hrows u acct' Hu) as (acct0 & ? & ? & _). eauto.
Qed.

Lemma committable_keeps db db' ph :
  (forall u acct', users db' !! u = Some acct' ->
                   exists acct, users db !! u = Some acct /\
                                plan acct' = plan acct) ->
  committable db ph -> committable db' ph.
Proof.
  intros Hsame. destruct ph as [| p |]; simpl; try done.
  intros Hp acct' Hacct'.
  destruct (Hsame _ _ Hacct') as (acct & Hacct & ->). by apply Hp.
Qed.

Lemma run_keeps w sched : forall a b db,
  within_limits db -> committable db a -> committable db b ->
  within_limits (run w sched a b db).1.1.
Proof.
  induction sched as [| [] sched IH]; intros a b db Hin Ha Hb; [done | |];
    cbn [run].
  - destruct (step_keeps w b db Hin Hb) as (Hin' & Hb' & Hsame).
    destruct (step w b db) as [db' b']. simpl in *.
    apply IH; [done | by eapply committable_keeps | done].
  - destruct (step_keeps w a db Hin Ha) as (Hin' & Ha' & Hsame).
    destruct (step w a db) as [db' a']. simpl in *.
    apply IH; [done | done | by eapply committable_keeps].
Qed.

Lemma handler_keeps w now req db :
  within_limits db -> within_limits (handler w now req db).1.
Proof.
  intros Hin. pose proof (handler_steps w now req db) as Hsteps.
  destruct (step_keeps w (Arrived now req) db Hin I) as (Hin1 & Hph1 & _).
  destruct (step w (Arrived now req) db) as [db1 ph]. simpl in *.
  destruct (step_keeps w ph db1 Hin1 Hph1) as (Hin2 & _).
  destruct (step w ph db1) as [db2 ph2].
  destruct (handler w now req db) as [db' r]. by injection Hsteps as <- _.
Qed.

(** X5: no request takes the stored usage above the allowance of the plan:
    if every account is within its allowance, it still is after any number
    of requests served one after the other, and after two requests
    interleaved in any order. *)
Theorem usage_within_limits w db :
  within_limits db ->
  (forall calls, within_limits (serve w calls db).1) /\
  (forall sched a b,
     within_limits (run w sched (Arrived a.1 a.2) (Arrived b.1 b.2) db).1.1).
Proof.
  intros Hin. split.
  - intros calls. revert db Hin.
    induction calls as [| [now req] calls IH]; intros db Hin; [done |].
    simpl. pose proof (handler_keeps w now req db Hin) as Hin1.
    destruct (handler w now req db) as [db1 r].
    specialize (IH db1 Hin1). by destruct (serve w calls db1) as [db2 rs].
  - intros sched a b. by apply run_keeps.
Qed.

Lemma usage_within_limits_witness :
  (forall calls,
     within_limits (serve Fixtures.world0 calls
                          (Fixtures.account free 2 Fixtures.feb1)).1) /\
  (forall sched a b,
     within_limits (run Fixtures.world0 sched (Arrived a.1 a.2)
                        (Arrived b.1 b.2)
                        (Fixtures.account free 2 Fixtures.feb1)).1.1).
Proof.
  apply (usage_within_limits Fixtures.world0
           (Fixtures.account free 2 Fixtures.feb1)).
  intros uid acct Hacct. simpl in Hacct.
  apply lookup_singleton_Some in Hacct as [_ <-]. vm_compute. discriminate.
Defined.


(** X6: a storage path has precedence over a URL: when the body names a
    storage path, the outcome of the analysis depends on that path, the
    object store and the model alone; neither [videoUrl] nor what a fetch
    would return plays a part. *)
Theorem analyse_storage_first w w' b b' path :
  truthy (storagePath b) = Some path ->
  truthy (storagePath b') = Some path ->
  storage_download w' path = storage_download w path ->
  (forall mimeType bytes,
     generateContent w' mimeType bytes = generateContent w mimeType bytes) ->
  analyse w' b' = analyse w b.
Proof.
  intros Hb Hb' Hstore Hmodel. unfold analyse. rewrite Hb, Hb', Hstore.
  assert (forall o o' : Outcome string, o = o' ->
            match truthy (videoUrl b') with
            | Some _ | _ => o
            end =
            match truthy (videoUrl b) with
            | Some _ | _ => o'
            end) as Hsame.
  { intros o o' ->. by destruct (truthy (videoUrl b')), (truthy (videoUrl b)). }
  destruct (truthy (videoUrl b')), (truthy (videoUrl b));
    destruct (storage_download w path) as [[blob |] | e]; simpl;
    rewrite ?Hmodel; reflexivity.
Qed.

Lemma analyse_storage_first_witness :
  analyse Fixtures.world0 (mkBody (Some "https://example.com/a.mp4")
                                  (Some "u1/clip.webm")) =
  analyse Fixtures.world0 (mkBody None (Some "u1/clip.webm")).
Proof.
  apply (analyse_storage_first Fixtures.world0 Fixtures.world0
           (mkBody None (Some "u1/clip.webm"))
           (mkBody (Some "https://example.com/a.mp4") (Some "u1/clip.webm"))
           "u1/clip.webm"); reflexivity.
Defined.

(** *** The client helper [canAnalyze] *)









(** *** The history *)

Lemma handler_history w now req db :
  exists rows,
    analysis_history (handler w now req db).1 = analysis_history db ++ rows /\
    analysis_result <$> rows = omap resultOf [(handler w now req db).2].
Proof.
  assert (forall r : Response,
            resultOf r = None ->
            exists rows, analysis_history db = analysis_history db ++ rows /\
                         analysis_result <$> rows = omap resultOf [r]) as Hnone.
  { intros r Hr. exists []. rewrite app_nil_r. split; [done |].
    simpl. by rewrite Hr. }
  destruct (authenticate w req) as [r | uid] eqn:Hauth.
  { unfold handler. rewrite Hauth. simpl. apply Hnone.
    by destruct (authenticate_answers w req r Hauth)
      as [[-> _] | [-> | [-> | ->]]]. }
  destruct (users db !! uid) as [acct |] eqn:Hacct;
    [| rewrite (handler_unknown w now req db uid Hauth Hacct); by apply Hnone].
  rewrite (handler_known w now req db uid acct Hauth Hacct).
  assert (analysis_history
            (if period_reset_at acct <=? now
             then mkDatabase
                    (alter (set_reset 0 (nextReset w now)) uid (users db))
                    (analysis_history db)
             else db) = analysis_history db) as Hdb1
    by (by destruct (period_reset_at acct <=? now)).
  destruct (allowance (plan acct) <=? _); cbn [fst snd];
    [rewrite Hdb1; by apply Hnone |].
  destruct (body req) as [b |]; cbn [fst snd];
    [| rewrite Hdb1; apply Hnone; unfold caught, resultOf; done].
  destruct (analyse_outcomes w b)
    as [(text & -> & _) | [(e & -> & _) | (e & ->)]]; cbn [fst snd].
  - cbn [analysis_history]. rewrite Hdb1. eexists. split; [done |]. done.
  - rewrite Hdb1. by apply Hnone.
  - rewrite Hdb1. apply Hnone. by unfold caught, resultOf.
Qed.

(** X9: the history is the record of the results.  Requests served one
    after the other only append to [analysis_history], one row for each
    answer that carries a result and none for any other answer, and the
    rows hold the texts of those answers in the order in which they were
    given. *)
Theorem history_accounting w calls db :
  exists rows,
    analysis_history (serve w calls db).1 = analysis_history db ++ rows /\
    analysis_result <$> rows = omap resultOf (serve w calls db).2.
Proof.
  revert db. induction calls as [| [now req] calls IH]; intros db.
  - exists []. by rewrite app_nil_r.
  - simpl. destruct (handler_history w now req db) as (rows1 & Hh1 & Hr1).
    destruct (handler w now req db) as [db1 r]. specialize (IH db1).
    destruct (serve w calls db1) as [db2 rs].
    destruct IH as (rows2 & Hh2 & Hr2). simpl in *.
    exists (rows1 ++ rows2). rewrite Hh2, Hh1, app_assoc. split; [done |].
    rewrite fmap_app, Hr1, Hr2. by destruct (resultOf r).
Qed.


(** *** The usage counts the results *)

(** One request before the boundary: the usage of [uid] grows by one when
    the answer is a result given to [uid], and stays otherwise. *)
Lemma handler_counts w now req db uid acct :
  users db !! uid = Some acct ->
  now < period_reset_at acct ->
  users (handler w now req db).1 !! uid =
  Some (set_usage_count
          (usage_count acct +
           (if result_for w uid req (handler w now req db).2 then 1 else 0))
          acct).
Proof.
  intros Hacct Hnow.
  assert (Some acct = Some (set_usage_count (usage_count acct + 0) acct))
    as Hsame.
  { rewrite Z.add_0_r. by destruct acct. }
  unfold result_for.
  destruct (authenticate w req) as [r | caller] eqn:Hauth.
  { rewrite andb_false_r. unfold handler. rewrite Hauth. simpl.
    by rewrite Hacct. }
  destruct (String.eqb_spec caller uid) as [-> | Hother].
  - rewrite andb_true_r.
    rewrite (handler_known w now req db uid acct Hauth Hacct).
    destruct (Z.leb_spec (period_reset_at acct) now) as [? | _]; [lia |].
    destruct (allowance (plan acct) <=? usage_count acct); cbn [fst snd];
      [by rewrite Hacct |].
    destruct (body req) as [b |]; cbn [fst snd]; [| by rewrite Hacct].
    destruct (analyse_outcomes w b)
      as [(text & -> & _) | [(e & -> & _) | (e & ->)]]; cbn [fst snd].
    + cbn [users is_success json]. by rewrite lookup_alter_eq, Hacct.
    + by rewrite Hacct.
    + by rewrite Hacct.
  - rewrite andb_false_r.
    destruct (handler_users w now req db) as [-> | (u & f & Hu & -> & _)];
      [by rewrite Hacct |].
    rewrite Hauth in Hu. injection Hu as <-.
    by rewrite lookup_alter_ne, Hacct.
Qed.

(** X10: within a period the usage counts the results: after any requests
    served one after the other before [period_reset_at], the row of an
    account is as before but for its usage, which has grown by the number of
    answers that carried a result for that account; rejected and failed
    requests and the requests of others count for nothing. *)
Theorem usage_counts_results w uid calls db acct :
  users db !! uid = Some acct ->
  Forall (fun call => call.1 < period_reset_at acct) calls ->
  users (serve w calls db).1 !! uid =
  Some (set_usage_count
          (usage_count acct + results_for w uid calls (serve w calls db).2)
          acct).
Proof.
  revert db acct. induction calls as [| [now req] calls IH];
    intros db acct Hacct Hcalls.
  - simpl. rewrite Hacct, Z.add_0_r. by destruct acct.
  - apply Forall_cons in Hcalls as [Hnow Hcalls]. simpl in Hnow.
    pose proof (handler_counts w now req db uid acct Hacct Hnow) as Hstep.
    simpl. destruct (handler w now req db) as [db1 r]. simpl in Hstep.
    specialize (IH db1 _ Hstep Hcalls).
    destruct (serve w calls db1) as [db2 rs]. simpl in *.
    rewrite IH. unfold set_usage_count. simpl. do 2 f_equal. lia.
Qed.

Lemma usage_counts_results_witness :
  users (serve Fixtures.world0
               [(Fixtures.jan15, Fixtures.upload);
                (Fixtures.jan15 + 1, Fixtures.empty_body);
                (Fixtures.jan15 + 2, Fixtures.upload)]
               (Fixtures.account free 0 Fixtures.feb1)).1 !! "u1" =
  Some (set_usage_count
          (usage_count (mkProfile "u1" free 0 Fixtures.feb1) +
           results_for Fixtures.world0 "u1"
             [(Fixtures.jan15, Fixtures.upload);
              (Fixtures.jan15 + 1, Fixtures.empty_body);
              (Fixtures.jan15 + 2, Fixtures.upload)]
             (serve Fixtures.world0
                    [(Fixtures.jan15, Fixtures.upload);
                     (Fixtures.jan15 + 1, Fixtures.empty_body);
                     (Fixtures.jan15 + 2, Fixtures.upload)]
                    (Fixtures.account free 0 Fixtures.feb1)).2)
          (mkProfile "u1" free 0 Fixtures.feb1)).
Proof.
  apply (usage_counts_results Fixtures.world0 "u1"
           [(Fixtures.jan15, Fixtures.upload);
            (Fixtures.jan15 + 1, Fixtures.empty_body);
            (Fixtures.jan15 + 2, Fixtures.upload)]
           (Fixtures.account free 0 Fixtures.feb1)
           (mkProfile "u1" free 0 Fixtures.feb1)).
  - vm_compute. reflexivity.
  - repeat constructor.
Defined.

End LedgerFacts.


(** ** The period *)
Module PeriodFacts.
Import JSDate JSDateFacts Quota QuotaFacts.

(** The month of [t] has begun by the day of [t]. *)
Lemma DayWithinYear_month_begun t :
  monthStart (MonthFromTime t) (InLeapYear t) <= DayWithinYear t.
Proof.
  pose proof (DayWithinYear_bounds t) as Hb.
  unfold MonthFromTime, InLeapYear in *.
  destruct (Z.eqb_spec (DaysInYear (YearFromTime t)) 366) as [He | He];
    ltb_cases.
Qed.

(** The first day of the month after the one of [t] is at most 31 days
    after [t]. *)
Lemma next_month_near t :
  firstOfMonth (YearFromTime t) (MonthFromTime t + 1) - t <= 31 * msPerDay.
Proof.
  pose proof (DayWithinYear_month_begun t) as Hbegun.
  pose proof (MonthFromTime_bounds t) as Hm.
  pose proof (leapDays_bounds (YearFromTime t)) as Hl.
  assert (MakeDay (YearFromTime t) (MonthFromTime t + 1) 1 <= Day t + 31)
    as Hday.
  { unfold DayWithinYear in Hbegun.
    destruct (Z.eqb_spec (MonthFromTime t) 11) as [He | Hne].
    - rewrite He in *. change (11 + 1) with 12. rewrite MakeDay_carry.
      rewrite MakeDay_first by lia. rewrite DayFromYear_succ.
      unfold InLeapYear in Hbegun. simpl in Hbegun |- *.
      destruct (Z.eqb_spec (DaysInYear (YearFromTime t)) 366) as [-> | Hd];
        [lia |]. destruct (DaysInYear_cases (YearFromTime t)); lia.
    - rewrite MakeDay_first by lia. unfold InLeapYear, leapDays in *.
      revert Hbegun. generalize (Day t). generalize (DayFromYear (YearFromTime t)).
      destruct (DaysInYear (YearFromTime t) =? 366);
        month_cases (MonthFromTime t); simpl; intros; lia. }
  unfold firstOfMonth.
  revert Hday. generalize (MakeDay (YearFromTime t) (MonthFromTime t + 1) 1).
  intros d Hd. unfold Day, MakeDate, MakeTime, msPerDay in *. zdiv.
Qed.


Lemma Day_mono t t' : t <= t' -> Day t <= Day t'.
Proof. unfold Day, msPerDay. intros. zdiv. Qed.

Lemma Day_before t d : t < MakeDate d (MakeTime 0 0 0 0) -> Day t < d.
Proof. unfold Day, MakeDate, MakeTime, msPerDay. intros. zdiv. Qed.

(** The table of [MonthFromTime], read backwards: the days from the start
    of month [m] up to the start of the next one are days of month [m]. *)
Lemma month_table d l m :
  l = 0 \/ l = 1 -> 0 <= m < 12 ->
  monthStart m l <= d ->
  d < (if m =? 11 then 365 + l else monthStart (m + 1) l) ->
  (if d <? 31 then 0
   else if d <? 59 + l then 1
   else if d <? 90 + l then 2
   else if d <? 120 + l then 3
   else if d <? 151 + l then 4
   else if d <? 181 + l then 5
   else if d <? 212 + l then 6
   else if d <? 243 + l then 7
   else if d <? 273 + l then 8
   else if d <? 304 + l then 9
   else if d <? 334 + l then 10
   else 11) = m.
Proof.
  intros Hl Hm.
  assert (m = 0 \/ m = 1 \/ m = 2 \/ m = 3 \/ m = 4 \/ m = 5 \/ m = 6 \/
          m = 7 \/ m = 8 \/ m = 9 \/ m = 10 \/ m = 11) as Hc by lia.
  clear Hm.
  repeat destruct Hc as [-> | Hc]; try subst m; simpl; intros Hlo Hhi;
    repeat match goal with
           | |- context [?a <? ?b] =>
               first [ rewrite (proj2 (Z.ltb_ge a b)) by lia
                     | rewrite (proj2 (Z.ltb_lt a b)) by lia ]
           end; reflexivity.
Qed.

Lemma monthStart_next m l :
  l = 0 \/ l = 1 -> 0 <= m < 11 -> monthStart (m + 1) l <= 365 + l.
Proof.
  intros Hl Hm.
  assert (m = 0 \/ m = 1 \/ m = 2 \/ m = 3 \/ m = 4 \/ m = 5 \/ m = 6 \/
          m = 7 \/ m = 8 \/ m = 9 \/ m = 10) as Hc by lia.
  clear Hm. repeat destruct Hc as [-> | Hc]; try subst m; simpl; lia.
Qed.

Lemma DaysInYear_leapDays y : DaysInYear y = 365 + leapDays y.
Proof.
  unfold leapDays. destruct (Z.eqb_spec (DaysInYear y) 366) as [-> | Hd];
    [done |]. destruct (DaysInYear_cases y); lia.
Qed.

(** The day on which the month after month [m] of year [y] begins. *)
Lemma MakeDay_next y m :
  0 <= m < 12 ->
  MakeDay y (m + 1) 1 =
  DayFromYear y +
  (if m =? 11 then 365 + leapDays y else monthStart (m + 1) (leapDays y)).
Proof.
  intros Hm. destruct (Z.eqb_spec m 11) as [-> | Hne].
  - change (11 + 1) with 12. rewrite MakeDay_carry, MakeDay_first by lia.
    rewrite DayFromYear_succ, DaysInYear_leapDays.
    change (monthStart 0 (leapDays (y + 1))) with 0. lia.
  - by rewrite MakeDay_first by lia.
Qed.

(** A day from the start of month [m] of year [y] up to the start of the
    next month is a day of that year and that month. *)
Lemma day_in_month t' y m :
  0 <= m < 12 ->
  DayFromYear y + monthStart m (leapDays y) <= Day t' ->
  Day t' < DayFromYear y +
           (if m =? 11 then 365 + leapDays y
            else monthStart (m + 1) (leapDays y)) ->
  YearFromTime t' = y /\ MonthFromTime t' = m.
Proof.
  intros Hm Hlo Hhi.
  pose proof (leapDays_bounds y) as Hl.
  assert (leapDays y = 0 \/ leapDays y = 1) as Hl' by lia.
  pose proof (monthStart_bounds m (leapDays y) Hm Hl) as Hstart.
  assert (YearFromTime t' = y) as Hyear.
  { apply YearFromTime_unique.
    rewrite DayFromYear_succ, DaysInYear_leapDays. split; [lia |].
    destruct (Z.eqb_spec m 11) as [He | Hne]; [lia |].
    pose proof (monthStart_next m (leapDays y) Hl'). lia. }
  split; [done |].
  unfold MonthFromTime. cbv zeta. unfold DayWithinYear, InLeapYear.
  rewrite Hyear. fold (leapDays y).
  apply month_table; [done | done | lia | lia].
Qed.

(** The times from [t] up to the first day of the next month are in the
    year and the month of [t]. *)
Lemma rest_of_month t t' :
  t <= t' < firstOfMonth (YearFromTime t) (MonthFromTime t + 1) ->
  YearFromTime t' = YearFromTime t /\ MonthFromTime t' = MonthFromTime t.
Proof.
  intros [Hle Hlt].
  pose proof (MonthFromTime_bounds t) as Hm.
  pose proof (DayWithinYear_month_begun t) as Hbegun.
  unfold DayWithinYear in Hbegun.
  change (InLeapYear t) with (leapDays (YearFromTime t)) in Hbegun.
  apply day_in_month; [done | |].
  - apply Day_mono in Hle. lia.
  - rewrite <- MakeDay_next by exact Hm. apply Day_before.
    rewrite firstOfMonth_eq. exact Hlt.
Qed.

(** X11: a period is the rest of a calendar month.  The reset date computed
    at [now] is later than [now] by 31 days at most, and every time from
    [now] up to it lies in the local year and month of [now]: the date is
    the first change of month after [now]. *)
Theorem period_is_rest_of_month w now :
  ~ (0 <= getFullYear (LocalTZA w) now <= 99) ->
  now < nextReset w now <= now + 31 * msPerDay /\
  forall t,
    now <= t < nextReset w now ->
    getFullYear (LocalTZA w) t = getFullYear (LocalTZA w) now /\
    getMonth (LocalTZA w) t = getMonth (LocalTZA w) now.
Proof.
  intros Hyear.
  assert (nextReset w now =
          UTC (LocalTZA w)
              (firstOfMonth (YearFromTime (LocalTime (LocalTZA w) now))
                            (MonthFromTime (LocalTime (LocalTZA w) now) + 1)))
    as Hnext.
  { unfold nextReset, newDate, getFullYear, getMonth in *.
    by rewrite MakeFullYear_id, firstOfMonth_eq by exact Hyear. }
  rewrite Hnext. clear Hnext.
  pose proof (before_next_month (LocalTime (LocalTZA w) now)) as Hlater.
  pose proof (next_month_near (LocalTime (LocalTZA w) now)) as Hnear.
  split.
  - revert Hlater Hnear.
    generalize (firstOfMonth (YearFromTime (LocalTime (LocalTZA w) now))
                  (MonthFromTime (LocalTime (LocalTZA w) now) + 1)).
    unfold UTC, LocalTime. generalize msPerDay. intros. lia.
  - intros t Ht. unfold getFullYear, getMonth.
    apply rest_of_month. revert Ht.
    generalize (firstOfMonth (YearFromTime (LocalTime (LocalTZA w) now))
                  (MonthFromTime (LocalTime (LocalTZA w) now) + 1)).
    unfold UTC, LocalTime. intros. lia.
Qed.

Lemma period_is_rest_of_month_witness :
  Fixtures.jan15 < nextReset Fixtures.world0 Fixtures.jan15 <=
    Fixtures.jan15 + 31 * msPerDay /\
  forall t,
    Fixtures.jan15 <= t < nextReset Fixtures.world0 Fixtures.jan15 ->
    getFullYear (LocalTZA Fixtures.world0) t =
      getFullYear (LocalTZA Fixtures.world0) Fixtures.jan15 /\
    getMonth (LocalTZA Fixtures.world0) t =
      getMonth (LocalTZA Fixtures.world0) Fixtures.jan15.
Proof.
  apply (period_is_rest_of_month Fixtures.world0 Fixtures.jan15).
  vm_compute. intros [_ Hle]. apply Hle. reflexivity.
Defined.

End PeriodFacts.


(** ** Properties of the page *)
Module AppFacts.
Import Quota QuotaFacts LedgerFacts App.

Ltac tunfold :=
  unfold mbind, Try_bind, mret, Try_ret, awaiting, throw, set in *.

(** What the [try] block leaves behind: the video as it was, a progress of
    10, 50, 90 or 100, and the ['complete'] state when it came to its end. *)
Lemma attempt_states b u s v st :
  video (attempt b u s v st).1 = video st /\
  uploadProgress (attempt b u s v st).1 ∈ [10; 50; 90; 100] /\
  match (attempt b u s v st).2 with
  | Resolved _ =>
      exists text, analysisState (attempt b u s v st).1 =
                   mkAnalysisState Complete None text
  | Rejected _ =>
      analysisState (attempt b u s v st).1 = analysisState st \/
      exists text, analysisState (attempt b u s v st).1 =
                   mkAnalysisState Complete None text
  end.
Proof.
  unfold attempt. tunfold. simpl.
  destruct (storage_upload b _ _) as [[message |] | e]; simpl;
    [split; [done |]; split; [codes | by left].. | | split; [done |]; split; [codes | by left]].
  destruct (fetch_analyze b _) as [response | e]; simpl;
    [| split; [done |]; split; [codes | by left]].
  destruct (ok response); simpl;
    destruct (json response) as [data | e]; simpl;
    try (split; [done |]; split; [codes | by left]).
  destruct (refreshProfile b) as [[] | e]; simpl;
    [| split; [done |]; split; [codes | right; by eexists]].
  destruct (storage_remove b _) as [[] | e]; simpl;
    split; try done; split; try codes; try (right; by eexists); by eexists.
Qed.


(** What the states between two events have in common. *)
Lemma dispatch_keeps st e :
  (wellFormed (analysisState st) /\
   status (analysisState st) <> Analyzing /\
   (forall v, video st = Some v -> size (file v) <= MAX_FILE_SIZE) /\
   uploadProgress st ∈ [0; 10; 50; 90; 100]) ->
  wellFormed (analysisState (dispatch st e)) /\
  status (analysisState (dispatch st e)) <> Analyzing /\
  (forall v, video (dispatch st e) = Some v -> size (file v) <= MAX_FILE_SIZE) /\
  uploadProgress (dispatch st e) ∈ [0; 10; 50; 90; 100].
Proof.
  intros (Hwf & Hrun & Hsize & Hprog).
  destruct e as [b files | b a |]; simpl.
  - unfold handleFileChange. destruct (head files) as [f |]; [| done].
    destruct (Z.ltb_spec MAX_FILE_SIZE (size f)); simpl.
    + split; [split; [done | by eexists] |]. by split.
    + split; [done |]. split; [done |]. split; [| done].
      intros v [= <-]. simpl. lia.
  - unfold handleAnalyze.
    destruct (video st) as [v |] eqn:Hv; [| by rewrite Hv].
    destruct (user a) as [u |]; [| by rewrite Hv].
    destruct (session a) as [s |]; [| by rewrite Hv].
    destruct (_ <=? _); simpl.
    + rewrite Hv. split; [split; [done | by eexists] |]. by split.
    + set (st1 := setUploadProgress 0 _).
      destruct (attempt_states b u s v st1) as (Hvideo & Hp & Hstate).
      destruct (attempt b u s v st1) as [st2 [[] | message]]; simpl in *.
      * destruct Hstate as [text ->]. rewrite Hvideo, Hv.
        split; [done |]. split; [done |]. split; [done | codes].
      * rewrite Hvideo, Hv. split.
        { split; [done |]. eexists. split; [done |]. by destruct message. }
        split; [done |]. split; [done | codes].
  - split; [done |]. split; [done |]. split; [done | codes].
Qed.

(** X12: between two events the page is never left analyzing, and its
    state is consistent: ['error'] comes with a message that is not empty
    and without a result, ['idle'] with neither, ['complete'] without an
    error, and ['uploading'] is never entered; the video it holds is not
    larger than 100 MB, and the progress is 0, 10, 50, 90 or 100. *)
Theorem page_states events :
  wellFormed (analysisState (after events)) /\
  status (analysisState (after events)) <> Analyzing /\
  (forall v, video (after events) = Some v ->
             size (file v) <= MAX_FILE_SIZE) /\
  uploadProgress (after events) ∈ [0; 10; 50; 90; 100].
Proof.
  unfold after. induction events as [| e events IH] using rev_ind.
  - simpl. split; [done |]. split; [done |]. split; [done | codes].
  - rewrite foldl_app. simpl. by apply dispatch_keeps.
Qed.

(** *** The page and the handler *)

Lemma split_space_word s :
  Forall (fun c => c <> " "%char) (list_ascii_of_string s) ->
  split_space s = [s].
Proof.
  induction s as [| c s IH]; simpl; [done |].
  intros Hall. apply Forall_cons in Hall as [Hc Hall].
  destruct (Ascii.eqb_spec c " "); [done |]. by rewrite IH.
Qed.

(** X13: the page and the handler agree on the token: the handler looks up
    the access token of the session as it is, provided the token holds no
    space; the request of the page is a [POST] and gets past the header
    checks. *)
Theorem bearer_token w s filePath :
  Forall (fun c => c <> " "%char) (list_ascii_of_string (access_token s)) ->
  authenticate w (apiRequest s filePath) =
  match auth_getUser w (access_token s) with
  | Some uid => inr uid
  | None => inl (mkResponse 401 (ErrorBody "Invalid token"))
  end.
Proof.
  intros Hword. unfold authenticate, apiRequest. simpl.
  change ("" +:+ access_token s)%string with (access_token s).
  rewrite (split_space_word _ Hword). simpl.
  replace (String.prefix "" (access_token s)) with true
    by (by destruct (access_token s)).
  simpl. by destruct (auth_getUser w (access_token s)).
Qed.

Lemma bearer_token_witness :
  authenticate Fixtures.world0 (apiRequest (mkSession "t1") "u1/clip.webm") =
  match auth_getUser Fixtures.world0 (access_token (mkSession "t1")) with
  | Some uid => inr uid
  | None => inl (mkResponse 401 (ErrorBody "Invalid token"))
  end.
Proof.
  apply (bearer_token Fixtures.world0 (mkSession "t1") "u1/clip.webm").
  repeat constructor; discriminate.
Defined.




(** The request of the page is not an [OPTIONS] request, so the handler
    answers it with a body. *)
Lemma apiRequest_body w now s filePath db :
  Quota.json (handler w now (apiRequest s filePath) db).2 <> NoBody.
Proof.
  destruct (handler_forms w now (apiRequest s filePath) db)
    as [[_ Hm] | [(c & e & -> & _) | [(p & u & -> & _)
       | (text & c & p & -> & _)]]]; done.
Qed.

(** X15: the page in front of the handler.  With the button enabled, the
    upload done and the handler behind [/api/analyze], a click ends in
    ['complete'] with the text of the handler's result when the handler
    answers with one, and otherwise in ['error'] with the message of the
    handler's answer. *)
Theorem handleAnalyze_served w now db b a st v s :
  video st = Some v ->
  session a = Some s ->
  canAnalyze a = true ->
  (forall u, user a = Some u ->
     storage_upload b (filePathOf b u v) (file v) = Resolved None /\
     storage_remove b (filePathOf b u v) = Resolved tt) ->
  (forall req,
     fetch_analyze b req = Resolved (delivered (handler w now req db).2)) ->
  refreshProfile b = Resolved tt ->
  exists u,
    user a = Some u /\
    analysisState (handleAnalyze b a st) =
    match Quota.json (handler w now (apiRequest s (filePathOf b u v)) db).2 with
    | ResultBody text _ _ _ => mkAnalysisState Complete None (Some text)
    | ErrorBody message | QuotaBody message _ _ _ => failed message
    | NoBody => failed "Unexpected end of JSON input"
    end /\
    Quota.json (handler w now (apiRequest s (filePathOf b u v)) db).2 <> NoBody.
Proof.
  intros Hv Hs Hcan Hstore Hfetch Hrefresh.
  unfold canAnalyze in Hcan.
  destruct (user a) as [u |] eqn:Hu; [| done].
  destruct (profile a) as [acct |] eqn:Hp; [| done].
  destruct (Hstore u eq_refl) as [Hup Hrm]. exists u. split; [done |].
  split; [| apply apiRequest_body].
  unfold handleAnalyze. rewrite Hv, Hu, Hs, Hp.
  change (default 0 (usage_count <$> Some acct)) with (usage_count acct).
  change (plan <$> Some acct) with (Some (plan acct)).
  rewrite gate_limit, or_num_0.
  change (or_number (PLAN_LIMITS (plan acct)) 3) with (allowance (plan acct))
    in Hcan.
  apply Z.ltb_lt in Hcan.
  destruct (Z.leb_spec (allowance (plan acct)) (usage_count acct)); [lia |].
  unfold attempt. tunfold. simpl. rewrite Hup, Hfetch. simpl.
  destruct (handler_forms w now (apiRequest s (filePathOf b u v)) db)
    as [[_ Hm] | [(c & e & -> & He & Hc) | [(p & us & -> & _)
       | (text & c & p & -> & _)]]]; [done | | |]; simpl.
  - assert ((200 <=? c) && (c <=? 299) = false) as ->.
    { rewrite !elem_of_cons, elem_of_nil in Hc.
      destruct Hc as [-> | [-> | [-> | [-> | [-> | []]]]]]; reflexivity. }
    simpl. unfold failed. do 2 f_equal. by destruct e.
  - done.
  - by rewrite Hrefresh, Hrm.
Qed.

Lemma handleAnalyze_served_witness :
  exists u,
    user (Scenes.signedIn 0) = Some u /\
    analysisState
      (handleAnalyze (Scenes.browser (Fixtures.account free 0 Fixtures.feb1))
                     (Scenes.signedIn 0) Scenes.chosen) =
    match Quota.json
            (handler Fixtures.world0 Fixtures.jan15
               (apiRequest (mkSession "t1")
                  (filePathOf
                     (Scenes.browser (Fixtures.account free 0 Fixtures.feb1))
                     u (mkVideoFile Scenes.clip "blob:clip" (Some "")
                                    "video/webm")))
               (Fixtures.account free 0 Fixtures.feb1)).2 with
    | ResultBody text _ _ _ => mkAnalysisState Complete None (Some text)
    | ErrorBody message | QuotaBody message _ _ _ => failed message
    | NoBody => failed "Unexpected end of JSON input"
    end /\
    Quota.json
      (handler Fixtures.world0 Fixtures.jan15
         (apiRequest (mkSession "t1")
            (filePathOf
               (Scenes.browser (Fixtures.account free 0 Fixtures.feb1))
               u (mkVideoFile Scenes.clip "blob:clip" (Some "") "video/webm")))
         (Fixtures.account free 0 Fixtures.feb1)).2 <> NoBody.
Proof.
  apply (handleAnalyze_served Fixtures.world0 Fixtures.jan15
           (Fixtures.account free 0 Fixtures.feb1)
           (Scenes.browser (Fixtures.account free 0 Fixtures.feb1))
           (Scenes.signedIn 0) Scenes.chosen).
  - reflexivity.
  - reflexivity.
  - reflexivity.
  - intros u _. split; reflexivity.
  - intros req. reflexivity.
  - reflexivity.
Defined.

End AppFacts.


(** ** Properties of the sign-in form, the usage indicator and
    [analyzeVideo] *)
Module ClientFacts.
Import Quota QuotaFacts AuthButton GeminiService.

(** X16: the sign-in form.  Without an address nothing happens; otherwise
    the form is never left sending, the address stays, and the form is
    marked [sent] with no error exactly when the sign-in resolved, while a
    rejected sign-in leaves a message that is not empty.  After a resolved
    sign-in the button shows [Check your email!] as long as no one is signed
    in. *)
Theorem handleSubmit_outcomes signInWithEmail f :
  (email f = "" -> handleSubmit signInWithEmail f = f) /\
  (email f <> "" ->
   sending (handleSubmit signInWithEmail f) = false /\
   email (handleSubmit signInWithEmail f) = email f /\
   showEmailInput (handleSubmit signInWithEmail f) = showEmailInput f /\
   match signInWithEmail (email f) with
   | Resolved _ =>
       sent (handleSubmit signInWithEmail f) = true /\
       error (handleSubmit signInWithEmail f) = "" /\
       forall profile,
         AuthButton false false profile (handleSubmit signInWithEmail f) =
         CheckYourEmail
   | Rejected _ =>
       sent (handleSubmit signInWithEmail f) = sent f /\
       error (handleSubmit signInWithEmail f) <> ""
   end).
Proof.
  unfold handleSubmit. destruct (email f) as [| c address] eqn:Hemail; simpl.
  - split; [done |]. by intros [].
  - split; [done |]. intros _.
    destruct (signInWithEmail (String c address)) as [[] | message]; simpl.
    + done.
    + repeat split; try done. by destruct message.
Qed.


(** X18: [analyzeVideo] without a key rejects with its own message and does
    not reach the model; with a key it resolves to the text of the model, or
    to the fallback text when the model gave none, and rejects with the
    model's message, or with the fallback message when that is empty.  It
    never resolves to an empty text or rejects with an empty message. *)
Theorem analyzeVideo_outcomes API_KEY generateContent base64Data mimeType :
  (truthy API_KEY = None ->
   analyzeVideo API_KEY generateContent base64Data mimeType =
   Rejected "API Key not found in environment variables") /\
  (forall key,
     truthy API_KEY = Some key ->
     match generateContent key mimeType base64Data with
     | Resolved text =>
         analyzeVideo API_KEY generateContent base64Data mimeType =
         Resolved (match text with
                   | Some (String c t) => String c t
                   | _ => "No analysis generated."
                   end)
     | Rejected message =>
         analyzeVideo API_KEY generateContent base64Data mimeType =
         Rejected (match message with
                   | String c t => String c t
                   | _ => "Failed to analyze video"
                   end)
     end) /\
  match analyzeVideo API_KEY generateContent base64Data mimeType with
  | Resolved text => text <> ""
  | Rejected message => message <> ""
  end.
Proof.
  unfold analyzeVideo. destruct (truthy API_KEY) as [key |].
  - split; [done |]. split.
    + intros ? [= <-].
      by destruct (generateContent key mimeType base64Data)
        as [[[| c t] |] | [| c t]].
    + by destruct (generateContent key mimeType base64Data)
        as [[[| c t] |] | [| c t]].
  - split; [done |]. split; done.
Qed.

End ClientFacts.


(** ** Properties of the cards *)
Module CardFacts.
Import JSString JSStringFacts RegExp RegExpFacts AnalysisView AnalysisViewFacts.

(** *** The title and the body of a card *)

(** A run of code units of one kind ends at the first code unit of another
    kind: a text is split in one way only. *)
Lemma span_inj (p : N -> bool) : forall w w' d d' (t t' : jsstring),
  Forall (fun c => p c = true) w -> Forall (fun c => p c = true) w' ->
  p d = false -> p d' = false ->
  w ++ d :: t = w' ++ d' :: t' -> w = w' /\ d = d' /\ t = t'.
Proof.
  induction w as [| c w IH]; intros [| c' w'] d d' t t' Hw Hw' Hd Hd' Heq;
    simpl in Heq.
  - by injection Heq as -> ->.
  - injection Heq as -> _. apply Forall_cons in Hw' as [Hc' _]. congruence.
  - injection Heq as -> _. apply Forall_cons in Hw as [Hc _]. congruence.
  - injection Heq as -> Heq.
    apply Forall_cons in Hw as [_ Hw]. apply Forall_cons in Hw' as [_ Hw'].
    destruct (IH w' d d' t t' Hw Hw' Hd Hd' Heq) as (-> & -> & ->). done.
Qed.

(** The end states of the two marker patterns. *)
Lemma in_headingMarker s s' :
  s' ∈ matcher headingMarker s ->
  exists k, (1 <= k <= 3)%nat /\
            rest s = replicate k HASH ++ SPACE :: rest s' /\
            s' = mkState (pos s + length (replicate k HASH ++ [SPACE]))
                         (rest s') (caps s).
Proof.
  unfold headingMarker. intros Hs'. apply in_Seq in Hs' as (s1 & H1 & H2).
  apply in_Repeat in H1; [| intros m [= <-]; lia].
  change (matcher (Char HASH)) with (unit_matcher (N.eqb HASH)) in H1.
  apply Iter_unit in H1 as (w & [Hr Hp] & Hc & Hall & Hmin & Hmax).
  apply in_Char in H2 as (tail & Hr2 & ->). simpl.
  exists (length w). split; [specialize (Hmax 3%nat eq_refl); lia |].
  rewrite <- (Forall_eqb_replicate HASH w Hall). split; [by rewrite Hr, Hr2 |].
  apply mstate_eq; simpl; [rewrite length_app; simpl; lia | done | done].
Qed.

Lemma in_numberMarker s s' :
  s' ∈ matcher numberMarker s ->
  exists digits, digits <> [] /\ Forall (fun c => isDigit c = true) digits /\
                 rest s = digits ++ DOT :: SPACE :: rest s' /\
                 s' = mkState (pos s + length (digits ++ [DOT; SPACE]))
                              (rest s') (caps s).
Proof.
  unfold numberMarker. intros Hs'. apply in_Seq in Hs' as (s1 & H1 & H2).
  apply in_Repeat in H1; [| apply valid_bounds_None].
  change (matcher (Class isDigit)) with (unit_matcher isDigit) in H1.
  apply Iter_unit in H1 as (w & [Hr Hp] & Hc & Hall & Hmin & _).
  apply in_Seq in H2 as (s2 & H2 & H3).
  apply in_Char in H2 as (tail2 & Hr2 & ->).
  apply in_Char in H3 as (tail & Hr3 & ->). simpl in *.
  exists w. split; [by destruct w; simpl in *; [lia |] |]. split; [done |].
  split; [by rewrite Hr, Hr2, Hr3 |].
  apply mstate_eq; simpl; [rewrite length_app; simpl; lia | done | done].
Qed.

Lemma isHash_replicate k : Forall (fun c => N.eqb HASH c = true) (replicate k HASH).
Proof. apply Forall_replicate_eqb. Qed.

(** A text that begins with a marker begins with one marker only: every
    way of matching the marker ends behind it. *)
Lemma in_marker marker t s s' :
  MarkerText marker ->
  rest s = marker ++ t ->
  s' ∈ matcher (Alt headingMarker numberMarker) s ->
  s' = mkState (pos s + length marker) t (caps s).
Proof.
  intros HM Hrest Hs'. apply in_Alt in Hs' as [Hs' | Hs'].
  - apply in_headingMarker in Hs' as (k' & Hk' & Hr & ->).
    rewrite Hrest in Hr. destruct HM as [(k & Hk & ->) | (ds & Hne & Hds & ->)].
    + rewrite <- app_assoc in Hr. simpl in Hr.
      apply (span_inj (N.eqb HASH)) in Hr as (Hrep & _ & <-);
        try apply isHash_replicate; try done.
      by rewrite Hrep.
    + destruct ds as [| d ds]; [done |]. apply Forall_cons in Hds as [Hd _].
      rewrite <- app_assoc in Hr. simpl in Hr.
      change (d :: ds ++ DOT :: SPACE :: t) with ([] ++ d :: ds ++ DOT :: SPACE :: t)
        in Hr.
      apply (span_inj (N.eqb HASH)) in Hr as (Hrep & _);
        try apply isHash_replicate; try done.
      * destruct k'; [lia | done].
      * destruct (N.eqb_spec HASH d) as [<- | _]; done.
  - apply in_numberMarker in Hs' as (ds' & Hne' & Hds' & Hr & ->).
    rewrite Hrest in Hr. destruct HM as [(k & Hk & ->) | (ds & Hne & Hds & ->)].
    + destruct k as [| k]; [lia |]. destruct ds' as [| d' ds']; [done |].
      apply Forall_cons in Hds' as [Hd' _]. simpl in Hr.
      injection Hr as <- _. done.
    + rewrite <- app_assoc in Hr. simpl in Hr.
      apply (span_inj isDigit) in Hr as (-> & _ & [= <-]); done.
Qed.

(** The greedy quantifier over one kind of code unit takes the whole run
    first. *)
Lemma greedy_run p : forall line fuel s tail,
  Forall (fun c => p c = true) line ->
  (tail = [] \/ exists c r, tail = c :: r /\ p c = false) ->
  rest s = line ++ tail ->
  (length line < fuel)%nat ->
  head (repeat_matcher (unit_matcher p) fuel 0 None true s) =
  Some (mkState (pos s + length line) tail (caps s)).
Proof.
  induction line as [| c line IH]; intros fuel s tail Hline Htail Hrest Hfuel;
    (destruct fuel as [| fuel]; [simpl in Hfuel; lia |]);
    cbn [repeat_matcher]; change (Nat.eqb 0 0) with true; cbn [negb andb];
    change (unit_matcher p s) with
      (match rest s with
       | c :: rest' => if p c then [advance s rest'] else []
       | [] => []
       end);
    rewrite Hrest; simpl app.
  - assert (match tail with
            | c :: rest' => if p c then [advance s rest'] else []
            | [] => []
            end = []) as ->.
    { destruct Htail as [-> | (c & r & -> & ->)]; done. }
    simpl. f_equal. apply mstate_eq; simpl; [lia | done | done].
  - apply Forall_cons in Hline as [-> Hline]. cbn [mbind list_bind].
    replace (Nat.eqb (pos (advance s (line ++ tail))) (pos s)) with false
      by (symmetry; apply Nat.eqb_neq; simpl; lia).
    rewrite app_nil_r, head_app.
    rewrite (IH fuel (advance s (line ++ tail)) tail); try done;
      [| simpl in Hfuel; lia].
    simpl. f_equal. f_equal. lia.
Qed.


Lemma search_here r i input m :
  match_at r (mkState i input []) = Some m -> search r i input = Some m.
Proof. intros Hm. destruct input; cbn [search]; by rewrite Hm. Qed.

Lemma MarkerText_Marker marker t : MarkerText marker -> Marker (marker ++ t).
Proof.
  intros [(k & Hk & ->) | (ds & Hne & Hds & ->)]; [left | right].
  - exists k, t. split; [done |]. by rewrite <- app_assoc.
  - exists ds, t. split; [done |]. split; [done |]. by rewrite <- app_assoc.
Qed.

Lemma Marker_MarkerText section :
  Marker section -> exists marker t, section = marker ++ t /\ MarkerText marker.
Proof.
  intros [(k & t & Hk & ->) | (ds & t & Hne & Hds & ->)].
  - exists (replicate k HASH ++ [SPACE]), t. split; [by rewrite <- app_assoc |].
    left. by exists k.
  - exists (ds ++ [DOT; SPACE]), t. split; [by rewrite <- app_assoc |].
    right. by exists ds.
Qed.

(** Every text is a line and what follows it. *)
Lemma line_split (t : jsstring) :
  exists line rest, t = line ++ rest /\ RestOfLine line rest.
Proof.
  induction t as [| c t (line & rest & -> & Hline & Hrest)].
  - exists [], []. split; [done |]. split; [constructor | by left].
  - destruct (isLineTerminator c) eqn:Hc.
    + exists [], (c :: line ++ rest). split; [done |].
      split; [constructor | right; by eexists _, _].
    + exists (c :: line), rest. split; [done |]. split; [by constructor | done].
Qed.

(** The title pattern on a text that begins with a marker: group 1 is the
    marker, group 2 the rest of the line, and the match ends with it. *)
Lemma exec_title marker line more :
  MarkerText marker ->
  RestOfLine line more ->
  exec titleRegex (marker ++ line ++ more) =
  Some (mkMatch 0 (marker ++ line) [(2%nat, line); (1%nat, marker)]).
Proof.
  intros HM [Hline Hmore]. unfold exec. apply search_here.
  rewrite match_at_head. unfold titleRegex.
  set (s0 := mkState 0 (marker ++ line ++ more) []).
  set (M := Alt headingMarker numberMarker).
  assert (exists l1, matcher M s0 =
            mkState (length marker) (line ++ more) [] :: l1) as [l1 Hl1].
  { destruct (matcher M s0) as [| x l1] eqn:HMs.
    - assert (accepts M s0) as Hacc.
      { pose proof (MarkerText_Marker marker (line ++ more) HM) as HMk.
        destruct HMk as [HMk | HMk].
        - apply (accepts_headingMarker s0) in HMk as [s' Hs'].
          exists s'. apply in_Alt. by left.
        - apply (accepts_numberMarker s0) in HMk as [s' Hs'].
          exists s'. apply in_Alt. by right. }
      apply accepts_nonempty in Hacc. done.
    - exists l1. f_equal.
      apply (in_marker marker (line ++ more) s0 x HM eq_refl).
      change (x ∈ matcher M s0). rewrite HMs. left. }
  assert (Forall (fun c => notLineTerminator c = true) line) as Hline'.
  { eapply Forall_impl; [exact Hline |]. intros c Hc.
    unfold notLineTerminator. by rewrite Hc. }
  assert (more = [] \/
          exists c r, more = c :: r /\ notLineTerminator c = false) as Hmore'.
  { destruct Hmore as [-> | (c & r & -> & Hc)]; [by left |].
    right. exists c, r. split; [done |]. unfold notLineTerminator. by rewrite Hc. }
  rewrite matcher_Seq. cbn [matcher]. change (Nat.eqb (pos s0) 0) with true.
  cbn [mbind list_bind]. rewrite app_nil_r.
  fold M. rewrite Hl1. rewrite fmap_cons. cbn [mbind list_bind].
  rewrite head_app. cbn [pos rest caps].
  change (matcher (Class notLineTerminator)) with (unit_matcher notLineTerminator).
  set (s1 := mkState (length marker) (line ++ more) _).
  pose proof (greedy_run notLineTerminator line
                (0 + length (line ++ more) + 1) s1 more Hline' Hmore' eq_refl)
    as Hrun.
  change (repeat_matcher _ _ 0 None true s1) with
    (repeat_matcher (unit_matcher notLineTerminator)
                    (0 + length (line ++ more) + 1) 0 None true s1).
  destruct (repeat_matcher (unit_matcher notLineTerminator) _ 0 None true s1)
    as [| s2 l2].
  - exfalso. simpl in Hrun. rewrite length_app in Hrun.
    discriminate Hrun. lia.
  - simpl in Hrun. rewrite length_app in Hrun.
    injection Hrun as ->; [| lia]. simpl. do 2 f_equal.
    + rewrite Nat.sub_0_r, app_assoc, <- length_app. apply take_app_length.
    + f_equal; [f_equal | by rewrite Nat.sub_0_r, take_app_length].
      replace (length marker + length line - length marker)%nat
        with (length line) by lia.
      apply take_app_length.
Qed.

(** The title and the body found in a section. *)
Lemma title_and_body_cases section :
  (~ Marker section /\
   titleOf section = fallbackTitle /\ bodyOf section = trim section) \/
  (exists marker line more,
     section = marker ++ line ++ more /\
     MarkerText marker /\ RestOfLine line more /\
     titleOf section = line /\ bodyOf section = trim more).
Proof.
  destruct (exec titleRegex section) as [m |] eqn:Hm.
  - right.
    destruct (Marker_MarkerText section) as (marker & t & -> & HM).
    { apply exec_titleRegex. by eexists. }
    destruct (line_split t) as (line & more & -> & Hline).
    exists marker, line, more. split; [done |]. split; [done |].
    split; [done |]. unfold titleOf, bodyOf, replace_empty.
    rewrite (exec_title marker line more HM Hline). simpl.
    split; [done |]. by rewrite app_assoc, drop_app_length.
  - left. split.
    + intros HM. apply exec_titleRegex in HM as [? ?]. congruence.
    + unfold titleOf, bodyOf, replace_empty. by rewrite Hm.
Qed.

(** C8 (amended): a document without a boundary that is not blank has one
    section, the trimmed document.  Its title is the fallback label when
    the trimmed document does not begin with a marker; otherwise the title
    is taken from its first line: the trimmed document is a marker, the rest
    of that line and what follows, and the title is this rest of the line,
    however the document is taken apart in this way. *)
Theorem no_boundary_one_section content :
  noBoundary content ->
  ~ blank content ->
  sections content = [trim content] /\
  exists sec,
    AnalysisView.AnalysisView content = [sec] /\
    (~ Marker (trim content) -> title sec = fallbackTitle) /\
    (Marker (trim content) ->
     exists marker line more,
       trim content = marker ++ line ++ more /\
       MarkerText marker /\ RestOfLine line more /\
       title sec = line) /\
    (forall marker line more,
       trim content = marker ++ line ++ more ->
       MarkerText marker -> RestOfLine line more ->
       title sec = line).
Proof.
  intros Hno Hblank.
  assert (sections content = [trim content]) as Hsec.
  { rewrite sections_eq, cut_noBoundary by exact Hno. simpl.
    rewrite filter_cons_True, filter_nil; [done |].
    destruct (trim content) eqn:Ht; [| simpl; lia].
    destruct Hblank. by apply trim_nil_blank. }
  split; [done |].
  unfold AnalysisView.AnalysisView. rewrite Hsec. simpl.
  eexists. split; [reflexivity |]. rewrite present_eq. cbn [title].
  split; [by apply titleOf_fallback |]. split.
  - intros HM.
    destruct (title_and_body_cases (trim content))
      as [[HnoM _] | (marker & line & more & Heq & Hmarker & Hline & Htitle & _)];
      [done |].
    by exists marker, line, more.
  - intros marker line more Heq Hmarker Hline.
    unfold titleOf. rewrite Heq.
    by rewrite (exec_title marker line more Hmarker Hline).
Qed.

Lemma no_boundary_one_section_witness :
  sections (str "Colors: red" ++ [LF]) = [str "Colors: red"] /\
  exists sec, AnalysisView.AnalysisView (str "Colors: red" ++ [LF]) = [sec] /\
              title sec = fallbackTitle.
Proof.
  destruct (no_boundary_one_section (str "Colors: red" ++ [LF]))
    as (Hsec & sec & Hview & Hfallback & _).
  - apply noBoundaryb_spec. vm_compute. reflexivity.
  - intros Hblank. apply Forall_cons in Hblank as [Hc _].
    vm_compute in Hc. discriminate.
  - split; [exact Hsec |]. exists sec. split; [exact Hview |].
    apply Hfallback.
    intros HM. apply exec_titleRegex in HM as [m Hm].
    vm_compute in Hm. discriminate.
Defined.

(** X19: the title and the body of a card make up its section.  A section
    that does not begin with a marker is shown under the fallback title, all
    of it (trimmed) as the body.  A section that begins with a marker is
    that marker, the rest of its first line, which is the title, and the
    text behind it, which, trimmed, is the body; however the section is
    taken apart into a marker, the rest of a line and a text, these are the
    title and the body. *)
Theorem title_and_body section :
  ((~ Marker section /\
    title (present section) = fallbackTitle /\
    body (present section) = trim section) \/
   (exists marker line more,
      section = marker ++ line ++ more /\
      MarkerText marker /\ RestOfLine line more /\
      title (present section) = line /\
      body (present section) = trim more)) /\
  (forall marker line more,
     section = marker ++ line ++ more ->
     MarkerText marker -> RestOfLine line more ->
     Marker section /\
     title (present section) = line /\
     body (present section) = trim more).
Proof.
  rewrite present_eq. cbn [title body]. split.
  - apply title_and_body_cases.
  - intros marker line more -> HM Hline.
    split; [by apply MarkerText_Marker |].
    unfold titleOf, bodyOf, replace_empty.
    rewrite (exec_title marker line more HM Hline). cbn [index matched].
    split; [reflexivity |].
    by rewrite Nat.add_0_l, take_0, app_nil_l, app_assoc, drop_app_length.
Qed.

(** *** No boundary inside a card *)

Lemma Boundary_app l t : Boundary l -> Boundary (l ++ t).
Proof.
  intros (l' & -> & HM). exists (l' ++ t). split; [done |].
  destruct HM as [(k & tail & Hk & ->) | (ds & tail & Hne & Hds & ->)];
    [left | right].
  - exists k, (tail ++ t). split; [done |]. by rewrite <- app_assoc.
  - exists ds, (tail ++ t). split; [done |]. split; [done |].
    by rewrite <- app_assoc.
Qed.

Lemma trim_inside s : exists a b, s = a ++ trim s ++ b.
Proof.
  unfold trim. destruct (trimStart_split s) as (a & Ha & _).
  destruct (trimEnd_split (trimStart s)) as (b & Hb & _).
  exists a, b. by rewrite <- Hb.
Qed.

Lemma bodyOf_inside section : exists a b, section = a ++ bodyOf section ++ b.
Proof.
  destruct (title_and_body_cases section)
    as [(_ & _ & ->) | (marker & line & more & Hs & _ & _ & _ & ->)].
  - apply trim_inside.
  - destruct (trim_inside more) as (a & b & Hab).
    exists (marker ++ line ++ a), b.
    rewrite Hs at 1. rewrite Hab at 1. by rewrite <- !app_assoc.
Qed.


Lemma section_no_boundary content s x y :
  s ∈ sections content -> s = x ++ y -> x <> [] -> ~ Boundary y.
Proof.
  rewrite sections_eq. intros Hs Hxy Hx HB.
  apply list_elem_of_filter in Hs as [_ Hs].
  apply list_elem_of_fmap in Hs as (chunk & Hs & Hchunk).
  apply list_elem_of_lookup in Hchunk as [k Hk].
  destruct (trim_inside chunk) as (a & b & Hab).
  rewrite <- Hs, Hxy in Hab.
  apply (cut_interior content [] k chunk (a ++ x) (y ++ b) Hk).
  - rewrite Hab. by rewrite <- !app_assoc.
  - destruct a; [by destruct x | done].
  - destruct HB as (l' & -> & _). done.
  - intros _. simpl. lia.
  - by do 2 apply Boundary_app.
Qed.

(** X20: no card holds a boundary inside: in no section is there, behind
    its first code unit, a newline followed by a marker, and so there is
    none in the prompt that a card offers for copying.  A fenced block with
    such a line in it is cut at that line: in the document of the example
    the prompt card has no closed block and copies its whole section. *)
Theorem cards_hold_no_boundary content :
  (forall s x y,
     s ∈ sections content -> s = x ++ y -> x <> [] -> ~ Boundary y) /\
  (forall card code x y,
     card ∈ AnalysisView.AnalysisView content ->
     extractedCode card = Some code ->
     code = x ++ y -> ~ Boundary y) /\
  copyText <$> AnalysisView.AnalysisView Documents.numbered_prompt =
    [str "## PROMPT" ++ [LF] ++ str "```" ++ [LF] ++ str "Steps:";
     str "1. Build X" ++ [LF] ++ str "```"].
Proof.
  split; [apply section_no_boundary |]. split; [| vm_compute; reflexivity].
  intros card code x y Hcard Hcode Hxy HB.
  unfold AnalysisView.AnalysisView in Hcard.
  apply list_elem_of_fmap in Hcard as (s & -> & Hs).
  rewrite present_eq in Hcode. simpl in Hcode.
  destruct (mentionsPrompt s); [| done].
  unfold capturedCode in Hcode.
  destruct (codeBlockMatch (bodyOf s)) as [m |] eqn:Hm; [| done].
  simpl in Hcode. injection Hcode as Hcode.
  destruct (codeBlockMatch_sound _ _ Hm)
    as (tag & cap & _ & (before & after & Hbody) & Hcap).
  rewrite Hcap in Hcode. simpl in Hcode.
  destruct (trim_inside cap) as (a & b & Hab). rewrite Hcode, Hxy in Hab.
  destruct (bodyOf_inside s) as (p & q & Hpq).
  rewrite Hbody, Hab in Hpq.
  apply (section_no_boundary content s
           (p ++ before ++ fenceText ++ tag ++ a ++ x)
           (y ++ b ++ fenceText ++ after ++ q) Hs).
  - rewrite Hpq. by rewrite <- !app_assoc.
  - destruct p; [| done]. by destruct before.
  - by apply Boundary_app.
Qed.


(** *** The lines of a body *)

Lemma splitOn_cons sep s : exists part parts, splitOn sep s = part :: parts.
Proof.
  induction s as [| c s (part & parts & IH)]; simpl; [by eexists _, _ |].
  destruct (N.eqb c sep); [by eexists _, _ |]. rewrite IH. by eexists _, _.
Qed.

(** Splitting at a code unit: the first part is free of it, and the parts
    joined by it give the text back. *)
Lemma splitOn_first sep s part parts :
  splitOn sep s = part :: parts ->
  (sep ∉ part) /\
  match parts with
  | [] => s = part
  | _ => s = part ++ sep :: join [sep] parts
  end.
Proof.
  revert part parts. induction s as [| c s IH]; intros part parts; simpl.
  - intros [= <- <-]. split; [apply not_elem_of_nil | done].
  - destruct (N.eqb_spec c sep) as [-> | Hne].
    + intros [= <- <-]. split; [apply not_elem_of_nil |].
      destruct (splitOn_cons sep s) as (p & ps & Hps). rewrite Hps.
      destruct (IH p ps Hps) as [_ Hjoin]. simpl. f_equal.
      destruct ps; [done |]. by rewrite Hjoin.
    + destruct (splitOn_cons sep s) as (p & ps & Hps). rewrite Hps.
      intros [= <- <-]. destruct (IH p ps Hps) as [Hfree Hjoin]. split.
      * rewrite not_elem_of_cons. split; [congruence | done].
      * destruct ps; simpl; by rewrite Hjoin.
Qed.

Lemma join_splitOn sep s : join [sep] (splitOn sep s) = s.
Proof.
  destruct (splitOn_cons sep s) as (part & parts & Hs). rewrite Hs.
  destruct (splitOn_first sep s part parts Hs) as [_ Hjoin].
  destruct parts; [done |]. rewrite Hjoin. reflexivity.
Qed.

Lemma splitOn_free sep s : Forall (fun part => sep ∉ part) (splitOn sep s).
Proof.
  induction s as [| c s IH]; simpl.
  - constructor; [apply not_elem_of_nil | constructor].
  - destruct (N.eqb_spec c sep) as [-> | Hne].
    + constructor; [apply not_elem_of_nil | done].
    + destruct (splitOn sep s) as [| p ps].
      * constructor; [| constructor]. rewrite not_elem_of_cons.
        split; [congruence | apply not_elem_of_nil].
      * apply Forall_cons in IH as [Hp Hps]. constructor; [| done].
        rewrite not_elem_of_cons. split; [congruence | done].
Qed.

(** X21: the lines of a body give the body back: joined by newlines they
    are the body, and none holds a newline; a card without a prompt panel
    shows these lines.  A line is rendered as a spacer exactly when it is
    blank, as a key and a value when it is a list item (its first visible
    code unit is [*] or [-]) with a colon, and then the key is the text in
    front of the first colon and the value the text behind it, the colon
    itself being left out; every other line is rendered as it is. *)
Theorem body_lines body :
  join [LF] (splitOn LF body) = body /\
  Forall (fun line => LF ∉ line) (splitOn LF body) /\
  (forall section,
     body = AnalysisView.body (present section) ->
     cardBody section =
     match extractedCode (present section) with
     | Some code => PromptPanel code
     | None => Lines (renderLine <$> splitOn LF body)
     end) /\
  forall line,
    match renderLine line with
    | KeyValue key value =>
        line = key ++ COLON :: value /\ (COLON ∉ key) /\
        exists c t, trim line = c :: t /\ (c = 42 \/ c = 45)%N
    | ListItem text =>
        text = line /\ (COLON ∉ line) /\
        exists c t, trim line = c :: t /\ (c = 42 \/ c = 45)%N
    | Spacer => blank line
    | Paragraph text =>
        text = line /\ ~ blank line /\
        forall c t, trim line = c :: t -> c <> 42%N /\ c <> 45%N
    end.
Proof.
  split; [apply join_splitOn |]. split; [apply splitOn_free |].
  split; [by intros section -> |].
  intros line. unfold renderLine.
  destruct (trim line) as [| c t] eqn:Htrim.
  - simpl. by apply trim_nil_blank.
  - assert (~ blank line) as Hvisible.
    { intros Hb. apply trim_blank in Hb. congruence. }
    assert (startsWith (c :: t) (str "*") = (c =? 42)%N) as ->.
    { change (str "*") with [42%N]. cbn [startsWith].
      by rewrite startsWith_nil, andb_true_r. }
    assert (startsWith (c :: t) (str "-") = (c =? 45)%N) as ->.
    { change (str "-") with [45%N]. cbn [startsWith].
      by rewrite startsWith_nil, andb_true_r. }
    destruct (N.eqb_spec c 42) as [Hstar | Hstar];
      [| destruct (N.eqb_spec c 45) as [Hdash | Hdash]]; simpl.
    3: { split; [done |]. split; [done |]. by intros ? ? [= <- <-]. }
    all: assert (exists c0 t0, c :: t = c0 :: t0 /\ (c0 = 42 \/ c0 = 45)%N)
           as Hitem by (exists c, t; split; [done | auto]).
    all: destruct (splitOn_cons COLON line) as (part & parts & Hparts);
         rewrite Hparts;
         destruct (splitOn_first COLON line part parts Hparts) as [Hfree Hjoin];
         destruct parts as [| p ps]; simpl;
         [subst part; done | done].
Qed.

(** *** The icon of a card *)

(** X22: the icon follows the first keyword found in the lower-cased
    title, in the order [visual], [video], [data], [logic] or
    [choreography], [prompt].  The terminal icon appears on prompt sections
    only, and a prompt section has another icon exactly when its title also
    holds one of the earlier keywords. *)
Theorem SectionIcon_keywords section :
  let has word :=
    exists a b, toLowerCase (title (present section)) = a ++ str word ++ b in
  (SectionIcon (title (present section)) = Palette <-> has "visual") /\
  (SectionIcon (title (present section)) = Clapperboard <->
   has "video" /\ ~ has "visual") /\
  (SectionIcon (title (present section)) = Database <->
   has "data" /\ ~ (has "visual" \/ has "video")) /\
  (SectionIcon (title (present section)) = Layers <->
   (has "logic" \/ has "choreography") /\
   ~ (has "visual" \/ has "video" \/ has "data")) /\
  (SectionIcon (title (present section)) = Terminal <->
   isPromptSection (present section) = true /\
   ~ (has "visual" \/ has "video" \/ has "data" \/ has "logic" \/
      has "choreography")) /\
  (SectionIcon (title (present section)) = Clock <->
   ~ (has "visual" \/ has "video" \/ has "data" \/ has "logic" \/
      has "choreography" \/ has "prompt")) /\
  (copyLabel section = str "Copy Prompt" <-> has "prompt").
Proof.
  cbv beta zeta. unfold copyLabel. rewrite !present_eq.
  cbn [title isPromptSection]. unfold mentionsPrompt, SectionIcon.
  rewrite <- !includes_spec.
  destruct (includes _ (str "visual")), (includes _ (str "video")),
    (includes _ (str "data")), (includes _ (str "logic")),
    (includes _ (str "choreography")), (includes _ (str "prompt")); simpl;
    repeat split; try done; try tauto; try (intros; intuition congruence).
Qed.


(** *** The cards behind the first *)

Lemma Boundary_LF c t :
  Boundary (c :: t) ->
  c = LF /\ exists marker tail, t = marker ++ tail /\ MarkerText marker.
Proof.
  intros (l' & [= -> ->] & HM). split; [done |].
  by apply Marker_MarkerText.
Qed.

Lemma MarkerText_no_LF marker :
  MarkerText marker -> Forall (fun c => c <> LF) marker.
Proof.
  intros [(k & _ & ->) | (ds & _ & Hds & ->)]; apply Forall_app; split.
  - apply Forall_forall. intros c Hc. apply elem_of_replicate in Hc as [-> _].
    done.
  - by repeat constructor.
  - eapply Forall_impl; [exact Hds |]. intros c Hc ->. done.
  - by repeat constructor.
Qed.

(** No chunk ends inside a text without newlines. *)
Lemma cut_skip w : forall chunk input,
  Forall (fun c => c <> LF) w ->
  cut chunk (w ++ input) = cut (chunk ++ w) input.
Proof.
  induction w as [| c w IH]; intros chunk input Hw; simpl app.
  - by rewrite app_nil_r.
  - apply Forall_cons in Hw as [Hc Hw]. cbn [cut].
    destruct (atBoundary (c :: w ++ input)) eqn:Hb.
    + apply atBoundary_spec, Boundary_LF in Hb as [-> _]. done.
    + simpl. rewrite IH by done. by rewrite <- app_assoc.
Qed.

(** Every chunk but the first is a newline, a marker and a text. *)
Lemma cut_later input : forall chunk k ch,
  (0 < k)%nat ->
  cut chunk input !! k = Some ch ->
  exists marker tail, ch = LF :: marker ++ tail /\ MarkerText marker.
Proof.
  induction input as [| c input IH]; intros chunk k ch Hk Hch.
  - simpl in Hch. destruct k; [lia | done].
  - cbn [cut] in Hch.
    destruct (atBoundary (c :: input) && negb (Nat.eqb (length chunk) 0))
      eqn:Hb.
    + destruct k as [| [| k]]; [lia | |]; simpl in Hch.
      * apply andb_true_iff in Hb as [Hb _].
        apply atBoundary_spec, Boundary_LF in Hb
          as (-> & marker & tail & -> & HM).
        rewrite cut_skip in Hch by (by apply MarkerText_no_LF).
        destruct (cut_head tail ([LF] ++ marker)) as (more & chunks & Hcut).
        rewrite Hcut in Hch. injection Hch as <-.
        by exists marker, more.
      * apply (IH [c] (S k) ch); [lia | done].
    + by apply (IH (chunk ++ [c]) k ch).
Qed.

(** A marker without its final space: a visible text that is not a marker
    itself. *)
Lemma MarkerText_core marker :
  MarkerText marker ->
  exists c core,
    marker = c :: core ++ [SPACE] /\ isWhiteSpace c = false /\
    trimEnd (c :: core) = c :: core /\ ~ Marker (c :: core).
Proof.
  intros [(k & Hk & ->) | (ds & Hne & Hds & ->)].
  - destruct k as [| k]; [lia |]. exists HASH, (replicate k HASH).
    split; [done |]. split; [done |]. split.
    + change (HASH :: replicate k HASH) with (replicate (S k) HASH).
      rewrite replicate_S_end. by apply trimEnd_fixed.
    + change (HASH :: replicate k HASH) with (replicate (S k) HASH).
      intros [(k' & t & _ & Heq) | (ds & t & Hne & Hds & Heq)].
      * assert (SPACE ∈ replicate (S k) HASH) as Hin.
        { rewrite Heq. apply elem_of_app. right. left. }
        apply elem_of_replicate in Hin as [? _]. done.
      * destruct ds as [| d ds]; [done |].
        apply Forall_cons in Hds as [Hd _]. injection Heq as <- _. done.
  - destruct ds as [| d ds]; [done |]. exists d, (ds ++ [DOT]).
    pose proof Hds as Hds'. apply Forall_cons in Hds' as [Hd _].
    split; [by rewrite <- app_assoc |].
    split; [by apply isDigit_visible |]. split.
    + rewrite app_comm_cons. by apply trimEnd_fixed.
    + intros [(k' & t & Hk' & Heq) | (ds' & t & Hne' & Hds' & Heq)].
      * destruct k'; [lia |]. injection Heq as -> _. done.
      * change (d :: ds ++ [DOT]) with ((d :: ds) ++ DOT :: []) in Heq.
        apply (span_inj isDigit) in Heq as (_ & _ & ?); done.
Qed.

Lemma trimEnd_nil_blank t : trimEnd t = [] -> blank t.
Proof.
  intros Ht. destruct (trimEnd_split t) as (ws & Hsplit & Hws).
  rewrite Ht in Hsplit. by subst.
Qed.

(** X23: the cards behind the first begin with their marker.  Every chunk
    but the first is a newline, a marker and a text.  When that text is not
    blank the card is titled by the rest of the marker's line and has the
    rest as its body; when it is blank (a heading without words) the card
    shows the fallback title, and the marker without its space as the
    body. *)
Theorem later_cards content k chunk :
  (0 < k)%nat ->
  rawSections content !! k = Some chunk ->
  exists marker tail,
    chunk = LF :: marker ++ tail /\ MarkerText marker /\
    (blank tail ->
     trim chunk ++ [SPACE] = marker /\
     title (present (trim chunk)) = fallbackTitle /\
     body (present (trim chunk)) = trim chunk) /\
    (~ blank tail ->
     exists line more,
       trim chunk = marker ++ line ++ more /\ RestOfLine line more /\
       title (present (trim chunk)) = line /\
       body (present (trim chunk)) = trim more).
Proof.
  rewrite rawSections_cut. intros Hk Hchunk.
  destruct (cut_later content [] k chunk Hk Hchunk) as (marker & tail & -> & HM).
  exists marker, tail. split; [done |]. split; [done |].
  destruct (MarkerText_core marker HM) as (c & core & Hmarker & Hc & Hcore & Hno).
  assert (trim (LF :: marker ++ tail) = trimEnd (marker ++ tail)) as Htrim.
  { unfold trim. change (trimStart (LF :: marker ++ tail))
      with (trimStart (marker ++ tail)).
    rewrite Hmarker. simpl app. by rewrite trimStart_fixed. }
  rewrite !present_eq. cbn [title body]. split.
  - intros Hblank. rewrite Htrim, trimEnd_blank by done.
    assert (trimEnd marker = c :: core) as ->.
    { rewrite Hmarker, app_comm_cons, trimEnd_blank; [done |].
      by repeat constructor. }
    split; [by rewrite Hmarker |].
    destruct (title_and_body_cases (c :: core))
      as [(_ & -> & ->) | (m' & line & more & Heq & HM' & _)].
    + split; [done |]. unfold trim. rewrite trimStart_fixed by done. done.
    + destruct Hno. rewrite Heq. by apply MarkerText_Marker.
  - intros Hvisible. rewrite Htrim.
    rewrite trimEnd_app by (intros Hnil; by apply Hvisible, trimEnd_nil_blank).
    destruct (line_split (trimEnd tail)) as (line & more & Htail & Hline).
    exists line, more. rewrite Htail. split; [done |]. split; [done |].
    unfold titleOf, bodyOf, replace_empty.
    rewrite (exec_title marker line more HM Hline). simpl.
    split; [done |]. by rewrite app_assoc, drop_app_length.
Qed.

Lemma later_cards_witness :
  exists marker tail,
    LF :: str "## Title" = LF :: marker ++ tail /\ MarkerText marker /\
    (blank tail ->
     trim (LF :: str "## Title") ++ [SPACE] = marker /\
     title (present (trim (LF :: str "## Title"))) = fallbackTitle /\
     body (present (trim (LF :: str "## Title"))) = trim (LF :: str "## Title")) /\
    (~ blank tail ->
     exists line more,
       trim (LF :: str "## Title") = marker ++ line ++ more /\
       RestOfLine line more /\
       title (present (trim (LF :: str "## Title"))) = line /\
       body (present (trim (LF :: str "## Title"))) = trim more).
Proof.
  apply (later_cards Documents.no_blank_line 1 (LF :: str "## Title")).
  - lia.
  - vm_compute. reflexivity.
Defined.

End CardFacts.
